(** * Netpbm: a shallow embedding of the Go package and its specification

    The Go package [Netpbm] ships several versions of the same types:
    - [pbm.go] ([PBM], and below it an older [PGM]),
    - [pgm.go] ([PGM], read with a line based [bufio.Reader]),
    - [ppm.go] ([PPM] with the Bresenham [DrawLine] and the colour
      matching [DrawFilledPolygon]),
    - the unnamed [part_002] (another [PPM], read with a word scanner, with
      an integer [DrawLine] and a scanline [DrawFilledPolygon]).
    Each Go function is embedded as a Rocq function of the same name; where
    two versions differ they carry the suffix of their file.

    Go [int] is modelled by [Z], [uint8] by [Z] in [0,256) with the wrap of a
    conversion written out ([wrap8]); byte strings by [list Z].  A Go call
    returns an [outcome]: a value, a returned [error], or a run-time panic. *)

From Stdlib Require Import ZArith Lia Arith Bool List String Ascii QArith Qabs ZifyBool.
Import ListNotations.
Open Scope string_scope.
Open Scope list_scope.
Open Scope Z_scope.

(** ** Outcomes of Go calls *)

Inductive outcome (A : Type) : Type :=
| Ok (a : A)
| Error (msg : string)
| Panic (msg : string).
Arguments Ok {A} a.
Arguments Error {A} msg.
Arguments Panic {A} msg.

Definition bind {A B} (m : outcome A) (f : A -> outcome B) : outcome B :=
  match m with
  | Ok a => f a
  | Error e => Error e
  | Panic e => Panic e
  end.

Notation "x <- m ;; k" := (bind m (fun x => k))
  (at level 61, m at next level, right associativity).

Definition is_ok {A} (m : outcome A) : bool :=
  match m with Ok _ => true | _ => false end.

Definition is_panic {A} (m : outcome A) : bool :=
  match m with Panic _ => true | _ => false end.

(** [for x := lo; n iterations; x++ { body }] threading a state. *)
Fixpoint for_range {S} (n : nat) (x : Z) (body : Z -> S -> outcome S) (s : S)
  : outcome S :=
  match n with
  | O => Ok s
  | Datatypes.S n' => s' <- body x s ;; for_range n' (x + 1) body s'
  end.

(** Number of iterations of [for x := lo; x <= hi; x++]. *)
Definition iters_incl (lo hi : Z) : nat := Z.to_nat (hi - lo + 1).

(** [for x := lo; x < hi; x++]. *)
Definition iters_excl (lo hi : Z) : nat := Z.to_nat (hi - lo).

(** ** Bytes and Go strings *)

Definition bytes_of_string (s : string) : list Z :=
  map (fun c => Z.of_nat (nat_of_ascii c)) (list_ascii_of_string s).

Definition NL : Z := 10.
Definition SP : Z := 32.

(** [wrap8 v] is the Go conversion [uint8(v)] of an [int]. *)
Definition wrap8 (v : Z) : Z := v mod 256.

(** ASCII white space, as [unicode.IsSpace] on one-byte runes. *)
Definition is_space (b : Z) : bool :=
  (b =? 32) || ((9 <=? b) && (b <=? 13)).

Definition is_digit (b : Z) : bool := (48 <=? b) && (b <=? 57).

(** [strings.TrimSpace] on ASCII input; on input with bytes above [127]
    Go also trims Unicode white space such as U+0085 and U+00A0, which is
    not modelled. *)
Fixpoint drop_spaces (l : list Z) : list Z :=
  match l with
  | b :: l' => if is_space b then drop_spaces l' else l
  | [] => []
  end.

Definition TrimSpace (l : list Z) : list Z := rev (drop_spaces (rev (drop_spaces l))).

(** [strings.HasPrefix]. *)
Fixpoint HasPrefix (l p : list Z) : bool :=
  match p, l with
  | [], _ => true
  | c :: p', b :: l' => (b =? c) && HasPrefix l' p'
  | _ :: _, [] => false
  end.

(** [strings.Fields] on ASCII input: the maximal runs of non-space bytes
    (Go also splits at Unicode white space above [127], not modelled). *)
Fixpoint fields_acc (l : list Z) (cur : list Z) : list (list Z) :=
  match l with
  | [] => match cur with [] => [] | _ => [rev cur] end
  | b :: l' =>
      if is_space b then
        match cur with
        | [] => fields_acc l' []
        | _ => rev cur :: fields_acc l' []
        end
      else fields_acc l' (b :: cur)
  end.

Definition Fields (l : list Z) : list (list Z) := fields_acc l [].

Definition bytes_eqb (a b : list Z) : bool :=
  (Nat.eqb (List.length a) (List.length b)) && forallb (fun p => fst p =? snd p) (combine a b).

(** ** Decimal printing: [fmt]'s [%d] of an [int] *)

(** Digits of [n >= 0], most significant first, pushed in front of [acc]. *)
Fixpoint udigits (fuel : nat) (n : Z) (acc : list Z) : list Z :=
  match fuel with
  | O => acc
  | Datatypes.S f =>
      let acc' := (48 + n mod 10) :: acc in
      if n <? 10 then acc' else udigits f (n / 10) acc'
  end.

(** A 64-bit [int] has at most 19 decimal digits, 20 is enough. *)
Definition itoa (n : Z) : list Z :=
  if n <? 0 then 45 :: udigits 20 (- n) [] else udigits 20 n [].

(** ** Decimal parsing *)

Definition int64_min : Z := - 2 ^ 63.
Definition int64_max : Z := 2 ^ 63 - 1.

(** Go's [int] arithmetic (64-bit): two's-complement wrap-around. *)
Definition wrap64 (v : Z) : Z := (v + 2 ^ 63) mod 2 ^ 64 - 2 ^ 63.

(** Value of a run of digits after [acc]; the rest of the input. *)
Fixpoint take_digits (l : list Z) (acc : Z) (seen : bool) : option Z * list Z :=
  match l with
  | b :: l' =>
      if is_digit b then take_digits l' (acc * 10 + (b - 48)) true
      else ((if seen then Some acc else None), l)
  | [] => ((if seen then Some acc else None), [])
  end.

(** [strconv.Atoi]: optional sign, at least one digit, the whole string, in
    the range of a 64-bit [int]. *)
Definition Atoi (l : list Z) : option Z :=
  let '(sgn, l') :=
    match l with
    | 45 :: r => (-1, r)
    | 43 :: r => (1, r)
    | _ => (1, l)
    end in
  match take_digits l' 0 false with
  | (Some v, []) =>
      let v' := sgn * v in
      if (int64_min <=? v') && (v' <=? int64_max) then Some v' else None
  | _ => None
  end.

(** [fmt]'s scan of [%d] into an [int]: skip spaces, optional sign, digits
    (the token stops at the first non digit), range of [int]. *)
Definition scan_int (l : list Z) : option (Z * list Z) :=
  let l0 := drop_spaces l in
  let '(sgn, l1) :=
    match l0 with
    | 45 :: r => (-1, r)
    | 43 :: r => (1, r)
    | _ => (1, l0)
    end in
  match take_digits l1 0 false with
  | (Some v, rest) =>
      let v' := sgn * v in
      if (int64_min <=? v') && (v' <=? int64_max) then Some (v', rest) else None
  | (None, _) => None
  end.

(** [fmt]'s scan of [%d] into a [uint8]: no sign, overflow is an error. *)
Definition scan_uint8 (l : list Z) : option (Z * list Z) :=
  match take_digits (drop_spaces l) 0 false with
  | (Some v, rest) => if v <? 256 then Some (v, rest) else None
  | (None, _) => None
  end.

(** [fmt.Sscanf(s, "%d", &v)] with [v : int]. *)
Definition Sscanf_d (l : list Z) : option Z :=
  match scan_int l with Some (v, _) => Some v | None => None end.

(** [fmt.Sscanf(s, "%d", &v)] with [v : uint8]. *)
Definition Sscanf_d_u8 (l : list Z) : option Z :=
  match scan_uint8 l with Some (v, _) => Some v | None => None end.

(** [fmt.Sscanf(s, "%d %d", &a, &b)]: a space of the format matches one or
    more spaces of the input. *)
Definition Sscanf_dd (l : list Z) : option (Z * Z) :=
  match scan_int l with
  | Some (a, rest) =>
      match rest with
      | c :: _ =>
          if is_space c then
            match scan_int rest with Some (b, _) => Some (a, b) | None => None end
          else None
      | [] => None
      end
  | None => None
  end.

(** ** [bufio.Reader] over an [os.File]

    The reader keeps the unread part of its 4096-byte buffer, the unread part
    of the file, and whether the file reported [io.EOF].  A [Read] of a
    regular file returns [min(len(p), remaining)] bytes, and [0, io.EOF] when
    nothing remains. *)

Definition defaultBufSize : nat := 4096.

Record Reader := mkReader {
  rbuf : list Z;
  rfile : list Z;
  reof : bool
}.

Definition NewReader (file : list Z) : Reader := mkReader [] file false.

(** [b.fill()]: slide the buffer and issue one [Read] of the free space. *)
Definition fill (r : Reader) : Reader :=
  match rfile r with
  | [] => mkReader (rbuf r) [] true
  | f =>
      let k := (defaultBufSize - List.length (rbuf r))%nat in
      mkReader (rbuf r ++ firstn k f) (skipn k f) false
  end.

(** First newline of the buffer: the bytes before it and after it. *)
Fixpoint split_nl (l : list Z) : option (list Z * list Z) :=
  match l with
  | [] => None
  | b :: l' =>
      if b =? NL then Some ([], l')
      else match split_nl l' with
           | Some (a, c) => Some (b :: a, c)
           | None => None
           end
  end.

(** [ReadString('\n')] (through [ReadSlice] and [collectFragments]): a full
    buffer without newline is moved to the result and the search goes on.
    Each round reads from the file or ends, so [2 * |file| + 3] rounds are
    enough. *)
Fixpoint ReadString_fuel (fuel : nat) (acc : list Z) (r : Reader)
  : outcome (list Z * Reader) :=
  match fuel with
  | O => Error "bufio: out of fuel"
  | Datatypes.S f =>
      match split_nl (rbuf r) with
      | Some (line, rest) => Ok (acc ++ line ++ [NL], mkReader rest (rfile r) (reof r))
      | None =>
          if reof r then Error "EOF"
          else if Nat.eqb (List.length (rbuf r)) defaultBufSize
          then ReadString_fuel f (acc ++ rbuf r) (mkReader [] (rfile r) false)
          else ReadString_fuel f acc (fill r)
      end
  end.

Definition ReadString (r : Reader) : outcome (list Z * Reader) :=
  ReadString_fuel (2 * List.length (rfile r) + 3) [] r.

(** [Read(p)] with [len(p) = n > 0]: the bytes come from at most one [Read]
    of the file, so fewer than [n] bytes may be returned. *)
Definition Read (n : nat) (r : Reader) : outcome (list Z * Reader) :=
  match rbuf r with
  | [] =>
      if reof r then Error "EOF"
      else if (defaultBufSize <=? n)%nat then
        match rfile r with
        | [] => Error "EOF"
        | f => Ok (firstn n f, mkReader [] (skipn n f) false)
        end
      else
        match rfile r with
        | [] => Error "EOF"
        | f =>
            let buf := firstn defaultBufSize f in
            Ok (firstn n buf, mkReader (skipn n buf) (skipn defaultBufSize f) false)
        end
  | buf => Ok (firstn n buf, mkReader (skipn n buf) (rfile r) (reof r))
  end.

(** [ReadByte()]. *)
Definition ReadByte (r : Reader) : outcome (Z * Reader) :=
  match rbuf r with
  | b :: rest => Ok (b, mkReader rest (rfile r) (reof r))
  | [] =>
      match rbuf (fill r) with
      | b :: rest => Ok (b, mkReader rest (rfile (fill r)) (reof (fill r)))
      | [] => Error "EOF"
      end
  end.

(** [ReadRune()], byte by byte: a byte [0] or [1] is never part of a
    multi-byte UTF-8 rune, so for the P1 decoder (which only looks for ['0']
    and ['1']) reading bytes gives the same pixels. *)
Definition ReadRune (r : Reader) : outcome (Z * Reader) := ReadByte r.

(** ** Graymaps: [pgm.go] *)

Record PGM := mkPGM {
  pgm_data : list (list Z);
  pgm_width : Z;
  pgm_height : Z;
  pgm_magicNumber : list Z;
  pgm_max : Z
}.

Definition P1 := bytes_of_string "P1".
Definition P2 := bytes_of_string "P2".
Definition P3 := bytes_of_string "P3".
Definition P4 := bytes_of_string "P4".
Definition P5 := bytes_of_string "P5".
Definition P6 := bytes_of_string "P6".

(** [data[y][x]] of a slice of slices; out of range is a panic. *)
Definition at2 {A} (d : list (list A)) (x y : Z) : outcome A :=
  if (y <? 0) || (x <? 0) then Panic "index out of range"
  else match nth_error d (Z.to_nat y) with
       | None => Panic "index out of range"
       | Some row =>
           match nth_error row (Z.to_nat x) with
           | None => Panic "index out of range"
           | Some v => Ok v
           end
       end.

(** [l[i] = v] on a slice; out of range is a panic. *)
Fixpoint set_nth {A} (l : list A) (i : nat) (v : A) : option (list A) :=
  match l, i with
  | [], _ => None
  | _ :: l', O => Some (v :: l')
  | a :: l', Datatypes.S i' =>
      match set_nth l' i' v with Some l'' => Some (a :: l'') | None => None end
  end.

(** [data[y][x] = v]. *)
Definition set2 {A} (d : list (list A)) (x y : Z) (v : A) : outcome (list (list A)) :=
  if (y <? 0) || (x <? 0) then Panic "index out of range"
  else match nth_error d (Z.to_nat y) with
       | None => Panic "index out of range"
       | Some row =>
           match set_nth row (Z.to_nat x) v with
           | None => Panic "index out of range"
           | Some row' =>
               match set_nth d (Z.to_nat y) row' with
               | None => Panic "index out of range"
               | Some d' => Ok d'
               end
           end
       end.

(** [savePGM]: the body, row by row; ASCII samples are separated by one
    space and each ASCII row ends with a newline. *)
Definition savePGM_body (pgm : PGM) (isBinary : bool) : outcome (list Z) :=
  for_range (Z.to_nat (pgm_height pgm)) 0 (fun y out =>
    row <- for_range (Z.to_nat (pgm_width pgm)) 0 (fun x out =>
      v <- at2 (pgm_data pgm) x y ;;
      let out := if isBinary then out ++ [v] else out ++ itoa v in
      Ok (if (x <? pgm_width pgm - 1) && negb isBinary then out ++ [SP] else out)) out ;;
    Ok (if isBinary then row else row ++ [NL])) [].

(** [PGM.Save]: the bytes written to the file. *)
Definition PGM_Save (pgm : PGM) : outcome (list Z) :=
  let header := pgm_magicNumber pgm ++ [NL] ++ itoa (pgm_width pgm) ++ [SP]
                ++ itoa (pgm_height pgm) ++ [NL] ++ itoa (pgm_max pgm) ++ [NL] in
  if bytes_eqb (pgm_magicNumber pgm) P2 then
    body <- savePGM_body pgm false ;; Ok (header ++ body)
  else if bytes_eqb (pgm_magicNumber pgm) P5 then
    body <- savePGM_body pgm true ;; Ok (header ++ body)
  else Ok header.

(** The P2 row loop of [ReadPGM]: [for x, field := range fields]. *)
Fixpoint read_p2_fields (fields : list (list Z)) (x width : Z) (row : list Z)
  : outcome (list Z) :=
  match fields with
  | [] => Ok row
  | f :: fs =>
      if width <=? x then Error "index out of range at row"
      else match Sscanf_d_u8 f with
           | None => Error "error parsing pixel value"
           | Some v =>
               match set_nth row (Z.to_nat x) v with
               | Some row' => read_p2_fields fs (x + 1) width row'
               | None => Panic "index out of range"
               end
           end
  end.

(** The body loops of [ReadPGM], one row per iteration. *)
Definition ReadPGM_body (magic : list Z) (width height : Z) (r : Reader)
  : outcome (list (list Z) * Reader) :=
  if bytes_eqb magic P2 then
    for_range (Z.to_nat height) 0 (fun y st =>
      let '(data, r) := st in
      lr <- ReadString r ;;
      let '(line, r') := lr in
      row <- read_p2_fields (Fields line) 0 width (repeat 0 (Z.to_nat width)) ;;
      Ok (data ++ [row], r')) ([], r)
  else if bytes_eqb magic P5 then
    for_range (Z.to_nat height) 0 (fun y st =>
      let '(data, r) := st in
      nr <- Read (Z.to_nat width) r ;;
      let '(row, r') := nr in
      if Z.of_nat (List.length row) <? width then Error "unexpected end of file at row"
      else Ok (data ++ [row], r')) ([], r)
  else Ok (repeat [] (Z.to_nat height), r).

(** [ReadPGM] of [pgm.go], on the bytes of the file. *)
Definition ReadPGM (file : list Z) : outcome PGM :=
  let r := NewReader file in
  l1 <- ReadString r ;;
  let '(line1, r) := l1 in
  let magic := TrimSpace line1 in
  if negb (bytes_eqb magic P2 || bytes_eqb magic P5) then Error "invalid magic number"
  else
  l2 <- ReadString r ;;
  let '(line2, r) := l2 in
  match Sscanf_dd (TrimSpace line2) with
  | None => Error "invalid dimensions"
  | Some (width, height) =>
      if (width <=? 0) || (height <=? 0) then
        Error "invalid dimensions: width and height must be positive"
      else
      l3 <- ReadString r ;;
      let '(line3, r) := l3 in
      match Sscanf_d (TrimSpace line3) with
      | None => Error "invalid max value"
      | Some max =>
          body <- ReadPGM_body magic width height r ;;
          let '(data, _) := body in
          Ok (mkPGM data width height magic (wrap8 max))
      end
  end.

(** ** Bitmaps: [pbm.go] *)

Record PBM := mkPBM {
  pbm_data : list (list bool);
  pbm_width : Z;
  pbm_height : Z;
  pbm_magicNumber : list Z
}.

(** [make([][]bool, height)] and its rows [make([]bool, width)]: a negative
    length is a panic. *)
Definition make_bool_grid (width height : Z) : outcome (list (list bool)) :=
  if height <? 0 then Panic "makeslice: len out of range"
  else if (0 <? height) && (width <? 0) then Panic "makeslice: len out of range"
  else Ok (repeat (repeat false (Z.to_nat width)) (Z.to_nat height)).

(** The header loop of [ReadPBM]: skip comment lines and lines that do not
    hold two fields; each round consumes a line. *)
Fixpoint ReadPBM_dims (fuel : nat) (r : Reader) : outcome (Z * Z * Reader) :=
  match fuel with
  | O => Error "error reading dimensions: EOF"
  | Datatypes.S f =>
      match ReadString r with
      | Ok (line, r') =>
          if HasPrefix line (bytes_of_string "#") then ReadPBM_dims f r'
          else match Fields line with
               | [p0; p1] =>
                   match Atoi p0 with
                   | None => Error "strconv.Atoi: invalid syntax"
                   | Some w =>
                       match Atoi p1 with
                       | None => Error "strconv.Atoi: invalid syntax"
                       | Some h => Ok (w, h, r')
                       end
                   end
               | _ => ReadPBM_dims f r'
               end
      | Error e => Error "error reading dimensions"
      | Panic e => Panic e
      end
  end.

(** The P1 inner loop: read runes until a ['0'] or a ['1']. *)
Fixpoint read_bit_char (fuel : nat) (r : Reader) : outcome (bool * Reader) :=
  match fuel with
  | O => Error "EOF"
  | Datatypes.S f =>
      br <- ReadRune r ;;
      let '(ch, r') := br in
      if (ch =? 48) || (ch =? 49) then Ok (ch =? 49, r') else read_bit_char f r'
  end.

Definition reader_size (r : Reader) : nat :=
  (List.length (rbuf r) + List.length (rfile r) + 1)%nat.

(** [pbm.data[y][x] = v] on the row being decoded. *)
Definition set_row (row : list bool) (x : Z) (v : bool) : outcome (list bool) :=
  match set_nth row (Z.to_nat x) v with
  | Some row' => Ok row'
  | None => Panic "index out of range"
  end.

(** One byte of a P4 row: [for bit := 0; bit < 8; bit++]. *)
Definition unpack_byte (row : list bool) (x width byteVal : Z) : outcome (list bool) :=
  for_range 8 0 (fun bit row =>
    if x + bit <? width then set_row row (x + bit) (Z.testbit byteVal (7 - bit))
    else Ok row) row.

(** [for x := 0; x < width; x += 8] of a P4 row, [last] when [y == height-1];
    the [bool] tells whether the loop ended by [break]. *)
Fixpoint read_p4_row (fuel : nat) (x width : Z) (last : bool) (row : list bool)
  (r : Reader) : outcome (list bool * Reader) :=
  match fuel with
  | O => Ok (row, r)
  | Datatypes.S f =>
      if width <=? x then Ok (row, r)
      else match ReadByte r with
           | Ok (b, r') =>
               row' <- unpack_byte row x width b ;;
               read_p4_row f (x + 8) width last row' r'
           | _ =>
               if last && (width - 8 <=? x) then Ok (row, r)
               else Error "EOF"
           end
  end.

(** [ReadPBM] of [pbm.go]. *)
Definition ReadPBM (file : list Z) : outcome PBM :=
  let r := NewReader file in
  match ReadString r with
  | Error _ => Error "error reading magic number"
  | Panic e => Panic e
  | Ok (line1, r) =>
      let magic := TrimSpace line1 in
      dims <- ReadPBM_dims (List.length file + 1) r ;;
      let '(width, height, r) := dims in
      grid <- make_bool_grid width height ;;
      if bytes_eqb magic P1 then
        res <- for_range (Z.to_nat height) 0 (fun y st =>
          let '(data, r) := st in
          rowr <- for_range (Z.to_nat width) 0 (fun x st =>
            let '(row, r) := st in
            br <- read_bit_char (reader_size r) r ;;
            let '(v, r') := br in
            row' <- set_row row x v ;;
            Ok (row', r')) (repeat false (Z.to_nat width), r) ;;
          let '(row, r') := rowr in
          Ok (data ++ [row], r')) ([], r) ;;
        Ok (mkPBM (fst res) width height magic)
      else if bytes_eqb magic P4 then
        res <- for_range (Z.to_nat height) 0 (fun y st =>
          let '(data, r) := st in
          rowr <- read_p4_row (Z.to_nat width) 0 width (y =? height - 1)
                    (repeat false (Z.to_nat width)) r ;;
          let '(row, r') := rowr in
          Ok (data ++ [row], r')) ([], r) ;;
        Ok (mkPBM (fst res) width height magic)
      else Error "unsupported magic number"
  end.

(** [PBM.At]: bounds checked, [false] outside. *)
Definition PBM_At (pbm : PBM) (x y : Z) : outcome bool :=
  if (0 <=? x) && (x <? pbm_width pbm) && (0 <=? y) && (y <? pbm_height pbm)
  then at2 (pbm_data pbm) x y
  else Ok false.

(** [PBM.Set]: bounds checked, nothing happens outside. *)
Definition PBM_Set (pbm : PBM) (x y : Z) (value : bool) : outcome PBM :=
  if (0 <=? x) && (x <? pbm_width pbm) && (0 <=? y) && (y <? pbm_height pbm)
  then d <- set2 (pbm_data pbm) x y value ;;
       Ok (mkPBM d (pbm_width pbm) (pbm_height pbm) (pbm_magicNumber pbm))
  else Ok pbm.

(** [row[i] |= m] on the byte slice of a row (the index is always in range
    in [PBM.Save]). *)
Fixpoint or_nth (l : list Z) (i : nat) (m : Z) : list Z :=
  match l, i with
  | [], _ => []
  | b :: l', O => Z.lor b m :: l'
  | b :: l', Datatypes.S i' => b :: or_nth l' i' m
  end.

(** One iteration of the P4 row loop of [PBM.Save], pixel [x]. *)
Definition pack_step (data_row : list bool) (row : list Z) (x : nat) : list Z :=
  let row := if Nat.eqb (x mod 8) 0 then row ++ [0] else row in
  if nth x data_row false
  then or_nth row (x / 8) (Z.shiftl 1 (Z.of_nat (7 - x mod 8)))
  else row.

(** The bytes [PBM.Save] writes for one P4 row of [width] pixels. *)
Definition pack_row (data_row : list bool) (width : Z) : list Z :=
  fold_left (pack_step data_row) (seq 0 (Z.to_nat width)) [].

(** [PBM.Save]: the bytes written to the file. *)
Definition PBM_Save (pbm : PBM) : outcome (list Z) :=
  let header := pbm_magicNumber pbm ++ [NL] ++ itoa (pbm_width pbm) ++ [SP]
                ++ itoa (pbm_height pbm) ++ [NL] in
  if bytes_eqb (pbm_magicNumber pbm) P1 then
    Ok (header ++ flat_map (fun row : list bool =>
          flat_map (fun pixel : bool => bytes_of_string (if pixel then "1 " else "0 ")) row
          ++ [NL]) (pbm_data pbm))
  else if bytes_eqb (pbm_magicNumber pbm) P4 then
    body <- for_range (Z.to_nat (pbm_height pbm)) 0 (fun y out =>
      match nth_error (pbm_data pbm) (Z.to_nat y) with
      | None => Panic "index out of range"
      | Some row =>
          if Z.of_nat (List.length row) <? pbm_width pbm then Panic "index out of range"
          else Ok (out ++ pack_row row (pbm_width pbm))
      end) [] ;;
    Ok (header ++ body)
  else Ok header.

(** [PGM.At] and [PGM.Set] of [pgm.go]: no bounds check, Go's slice
    indexing panics outside. *)
Definition PGM_At (pgm : PGM) (x y : Z) : outcome Z := at2 (pgm_data pgm) x y.

Definition PGM_Set (pgm : PGM) (x y : Z) (value : Z) : outcome PGM :=
  d <- set2 (pgm_data pgm) x y value ;;
  Ok (mkPGM d (pgm_width pgm) (pgm_height pgm) (pgm_magicNumber pgm) (pgm_max pgm)).

(** The pixel loops of the two [ToPBM] conversions: [make([][]bool, height)]
    panics on a negative height, [make([]bool, width)] in the body on a
    negative width. *)
Definition map_pixels (pgm : PGM) (f : Z -> bool) : outcome (list (list bool)) :=
  if pgm_height pgm <? 0 then Panic "makeslice: len out of range" else
  for_range (Z.to_nat (pgm_height pgm)) 0 (fun y rows =>
    if pgm_width pgm <? 0 then Panic "makeslice: len out of range" else
    row <- for_range (Z.to_nat (pgm_width pgm)) 0 (fun x row =>
      v <- at2 (pgm_data pgm) x y ;; Ok (row ++ [f v])) [] ;;
    Ok (rows ++ [row])) [].

(** [PGM.ToPBM] of [pgm.go]: [pgm.data[y][x] < uint8(pgm.max/2)]. *)
Definition PGM_ToPBM (pgm : PGM) : outcome PBM :=
  d <- map_pixels pgm (fun v => v <? pgm_max pgm / 2) ;;
  Ok (mkPBM d (pgm_width pgm) (pgm_height pgm) P1).

(** [PGM.ToPBM] of the older [PGM] in [pbm.go]: [pgm.data[i][j] > pgm.max/2]. *)
Definition PGM_ToPBM_pbm_go (pgm : PGM) : outcome PBM :=
  d <- map_pixels pgm (fun v => pgm_max pgm / 2 <? v) ;;
  Ok (mkPBM d (pgm_width pgm) (pgm_height pgm) P1).

(** ** Pixmaps *)

Record Pixel := mkPixel { R : Z; G : Z; B : Z }.

Definition pixel_eqb (a b : Pixel) : bool :=
  (R a =? R b) && (G a =? G b) && (B a =? B b).

Record PPM := mkPPM {
  ppm_data : list (list Pixel);
  ppm_width : Z;
  ppm_height : Z;
  ppm_magicNumber : list Z;
  ppm_max : Z
}.

Record Point := mkPoint { X : Z; Y : Z }.

Definition with_data (ppm : PPM) (d : list (list Pixel)) : PPM :=
  mkPPM d (ppm_width ppm) (ppm_height ppm) (ppm_magicNumber ppm) (ppm_max ppm).

(** [PPM.At] of both versions: no bounds check. *)
Definition PPM_At (ppm : PPM) (x y : Z) : outcome Pixel := at2 (ppm_data ppm) x y.

(** [PPM.Set] of [ppm.go]: bounds checked, nothing happens outside. *)
Definition PPM_Set (ppm : PPM) (x y : Z) (color : Pixel) : outcome PPM :=
  if (0 <=? x) && (x <? ppm_width ppm) && (0 <=? y) && (y <? ppm_height ppm)
  then d <- set2 (ppm_data ppm) x y color ;; Ok (with_data ppm d)
  else Ok ppm.

(** [PPM.Set] of [part_002]: no bounds check. *)
Definition PPM_Set_p2 (ppm : PPM) (x y : Z) (value : Pixel) : outcome PPM :=
  d <- set2 (ppm_data ppm) x y value ;; Ok (with_data ppm d).

(** Go's [/] on [int]: truncated, a zero divisor panics. *)
Definition go_div (a b : Z) : outcome Z :=
  if b =? 0 then Panic "integer divide by zero" else Ok (Z.quot a b).

(** [sort.Ints]: the sorted permutation (unique for integers). *)
Fixpoint insert_sorted (v : Z) (l : list Z) : list Z :=
  match l with
  | [] => [v]
  | a :: l' => if v <=? a then v :: l else a :: insert_sorted v l'
  end.

Definition sort_Ints (l : list Z) : list Z := fold_right insert_sorted [] l.

(** [len(s)] for a slice of slices row. *)
Definition row_len {A} (d : list (list A)) (y : Z) : Z :=
  match nth_error d (Z.to_nat y) with Some row => Z.of_nat (List.length row) | None => 0 end.

(** *** Drawing with IEEE doubles

    [float64] values and their operations are kept abstract: every drawing
    routine below is parameterised by them, and a statement proved here holds
    for any implementation of [float64]. *)
Section Float.

Variable F : Type.
Variable float64 : Z -> F.            (* float64(n) of an int *)
Variable fabs : F -> F.               (* math.Abs *)
Variables fadd fsub fmul fdiv : F -> F -> F.
Variables fgt fge : F -> F -> bool.   (* > and >= *)
Variable ftrunc : F -> Z.             (* int(f) *)

(** [DrawLine] of [part_002]: the slope is applied with integer division. *)
Definition DrawLine_p2 (ppm : PPM) (p1 p2 : Point) (color : Pixel) : outcome PPM :=
  let deltaX := X p2 - X p1 in
  let deltaY := Y p2 - Y p1 in
  if fge (fabs (float64 deltaX)) (fabs (float64 deltaY)) then
    let '(p1, p2) := if X p2 <? X p1 then (p2, p1) else (p1, p2) in
    for_range (iters_incl (X p1) (X p2)) (X p1) (fun x img =>
      q <- go_div (deltaY * (x - X p1)) deltaX ;;
      PPM_Set_p2 img x (Y p1 + q) color) ppm
  else
    let '(p1, p2) := if Y p2 <? Y p1 then (p2, p1) else (p1, p2) in
    for_range (iters_incl (Y p1) (Y p2)) (Y p1) (fun y img =>
      q <- go_div (deltaX * (y - Y p1)) deltaY ;;
      PPM_Set_p2 img (X p1 + q) y color) ppm.

(** The normalised parameters of [DrawLine] of [ppm.go]: after the [steep]
    swap of coordinates and the swap of the end points. *)
Definition line_setup (p1 p2 : Point) : bool * Point * Point * Z * Z :=
  let deltaX := X p2 - X p1 in
  let deltaY := Y p2 - Y p1 in
  let steep := fgt (fabs (float64 deltaY)) (fabs (float64 deltaX)) in
  let '(p1, p2, deltaX, deltaY) :=
    if steep then (mkPoint (Y p1) (X p1), mkPoint (Y p2) (X p2), deltaY, deltaX)
    else (p1, p2, deltaX, deltaY) in
  if X p2 <? X p1 then (steep, p2, p1, - deltaX, - deltaY)
  else (steep, p1, p2, deltaX, deltaY).

(** The loop of [DrawLine] of [ppm.go], error term in [float64]. *)
Definition line_loop (fzero fhalf fone : F) (ppm : PPM)
  (setup : bool * Point * Point * Z * Z) (color : Pixel) : outcome PPM :=
  let '(steep, p1, p2, deltaX, deltaY) := setup in
  let deltaErr := fabs (fdiv (float64 deltaY) (float64 deltaX)) in
  res <- for_range (iters_incl (X p1) (X p2)) (X p1) (fun x st =>
    let '(img, err, y) := st in
    img' <-
      (if steep then
         if (0 <=? y) && (y <? Z.of_nat (List.length (ppm_data img)))
            && (0 <=? x) && (x <? row_len (ppm_data img) y)
         then PPM_Set img y x color else Ok img
       else
         if (0 <=? x) && (x <? Z.of_nat (List.length (ppm_data img)))
            && (0 <=? y) && (y <? row_len (ppm_data img) x)
         then PPM_Set img x y color else Ok img) ;;
    let err := fadd err deltaErr in
    if fge err fhalf then
      Ok (img', fsub err fone, if 0 <? deltaY then y + 1 else y - 1)
    else Ok (img', err, y)) (ppm, fzero, Y p1) ;;
  let '(img, _, _) := res in Ok img.

(** [DrawLine] of [ppm.go] (Bresenham with a [float64] error term). *)
Definition DrawLine (fzero fhalf fone : F) (ppm : PPM) (p1 p2 : Point) (color : Pixel)
  : outcome PPM :=
  line_loop fzero fhalf fone ppm (line_setup p1 p2) color.

(** [DrawPolygon] of [ppm.go]: fewer than three vertices draw nothing. *)
Definition DrawPolygon (fzero fhalf fone : F) (ppm : PPM) (points : list Point)
  (color : Pixel) : outcome PPM :=
  let n := List.length points in
  if (n <? 3)%nat then Ok ppm
  else
    img <- for_range (n - 1) 0 (fun i img =>
      DrawLine fzero fhalf fone img (nth (Z.to_nat i) points (mkPoint 0 0))
        (nth (Z.to_nat i + 1) points (mkPoint 0 0)) color) ppm ;;
    DrawLine fzero fhalf fone img (nth (n - 1) points (mkPoint 0 0))
      (nth 0 points (mkPoint 0 0)) color.

(** [DrawPolygon] of [part_002]: no guard; [points[len(points)-1]] panics
    on an empty slice. *)
Definition DrawPolygon_p2 (ppm : PPM) (points : list Point) (color : Pixel)
  : outcome PPM :=
  let n := List.length points in
  img <- for_range (n - 1) 0 (fun i img =>
    DrawLine_p2 img (nth (Z.to_nat i) points (mkPoint 0 0))
      (nth (Z.to_nat i + 1) points (mkPoint 0 0)) color) ppm ;;
  match n with
  | O => Panic "index out of range [-1]"
  | Datatypes.S _ =>
      DrawLine_p2 img (nth (n - 1) points (mkPoint 0 0)) (nth 0 points (mkPoint 0 0)) color
  end.

(** The positions of the pixels of [color] in a row, [ppm.go]. *)
Definition color_positions (img : PPM) (i : Z) (color : Pixel) : outcome (list Z) :=
  for_range (Z.to_nat (ppm_width img)) 0 (fun j pos =>
    c <- at2 (ppm_data img) j i ;;
    Ok (if pixel_eqb c color then pos ++ [j] else pos)) [].

(** [DrawFilledPolygon] of [ppm.go]: draw the outline, then fill each row
    between the first and the last pixel of [color]. *)
Definition DrawFilledPolygon (fzero fhalf fone : F) (ppm : PPM) (points : list Point)
  (color : Pixel) : outcome PPM :=
  img <- DrawPolygon fzero fhalf fone ppm points color ;;
  for_range (Z.to_nat (ppm_height img)) 0 (fun i img =>
    positions <- color_positions img i color ;;
    if (1 <? List.length positions)%nat then
      let first := nth 0 positions 0 in
      let last := nth (List.length positions - 1) positions 0 in
      for_range (iters_excl (first + 1) last) (first + 1) (fun k img =>
        d <- set2 (ppm_data img) k i color ;; Ok (with_data img d)) img
    else Ok img) img.

(** The crossing of edge [i -> j] with the row [y], [part_002]:
    [int(float64(Xi) + (float64(y-Yi)/float64(Yj-Yi))*float64(Xj-Xi))]. *)
Definition crossing_x (pi pj : Point) (y : Z) : Z :=
  ftrunc (fadd (float64 (X pi))
                (fmul (fdiv (float64 (y - Y pi)) (float64 (Y pj - Y pi)))
                      (float64 (X pj - X pi)))).

(** The half-open crossing test of [part_002]. *)
Definition edge_crosses (pi pj : Point) (y : Z) : bool :=
  ((Y pi <? y) && (y <=? Y pj)) || ((Y pj <? y) && (y <=? Y pi)).

(** Edge [i] of the closed vertex list: from [points[i]] to
    [points[(i+1) % len(points)]]. *)
Definition edge_start (points : list Point) (i : nat) : Point :=
  nth i points (mkPoint 0 0).
Definition edge_end (points : list Point) (i : nat) : Point :=
  nth (Nat.modulo (i + 1) (List.length points)) points (mkPoint 0 0).

(** [intersections] of row [y], in the order the loop appends them. *)
Definition intersections (points : list Point) (y : Z) : list Z :=
  flat_map (fun i =>
    let pi := edge_start points i in
    let pj := edge_end points i in
    if edge_crosses pi pj y then [crossing_x pi pj y] else [])
    (seq 0 (List.length points)).

(** [for i := 0; i < len(xs); i += 2]: the pairs [(xs[i], xs[i+1])]; a
    missing [xs[i+1]] is an index panic. *)
Fixpoint spans (xs : list Z) : outcome (list (Z * Z)) :=
  match xs with
  | [] => Ok []
  | [_] => Panic "index out of range"
  | a :: b :: rest => s <- spans rest ;; Ok ((a, b) :: s)
  end.

(** [DrawFilledPolygon] of [part_002]: even-odd scanline fill. *)
Definition DrawFilledPolygon_p2 (ppm : PPM) (points : list Point) (color : Pixel)
  : outcome PPM :=
  match points with
  | [] => Panic "index out of range [0]"
  | p0 :: _ =>
      let minY := fold_left (fun m p => if Y p <? m then Y p else m) points (Y p0) in
      let maxY := fold_left (fun m p => if m <? Y p then Y p else m) points (Y p0) in
      for_range (iters_incl minY maxY) minY (fun y img =>
        sp <- spans (sort_Ints (intersections points y)) ;;
        fold_left (fun acc ab =>
          img <- acc ;;
          for_range (iters_incl (fst ab) (snd ab)) (fst ab)
            (fun x img => PPM_Set_p2 img x y color) img) sp (Ok img)) ppm
  end.

End Float.

(** ** [ReadPPM] of [part_002]

    A [bufio.Scanner] split by [bufio.ScanWords] yields the
    whitespace-separated words of the file ([Fields] of the whole input, for
    an ASCII input). *)

Definition next_word (ws : list (list Z)) (what : string)
  : outcome (list Z * list (list Z)) :=
  match ws with
  | [] => Error ("unable to read " ++ what)
  | w :: ws => Ok (w, ws)
  end.

(** [scanner.Scan()] then [fmt.Sscanf(scanner.Text(), "%d", &v)], [v : int]. *)
Definition next_int (ws : list (list Z)) (what : string) : outcome (Z * list (list Z)) :=
  ww <- next_word ws what ;;
  match Sscanf_d (fst ww) with
  | Some v => Ok (v, snd ww)
  | None => Error "expected integer"
  end.

(** The same with [v : uint8]. *)
Definition next_u8 (ws : list (list Z)) : outcome (Z * list (list Z)) :=
  ww <- next_word ws "pixel data" ;;
  match Sscanf_d_u8 (fst ww) with
  | Some v => Ok (v, snd ww)
  | None => Error "expected integer"
  end.

Definition ReadPPM_p2 (file : list Z) : outcome PPM :=
  let ws := Fields file in
  mw <- next_word ws "magic number" ;;
  let '(magicNumber, ws) := mw in
  if negb (bytes_eqb magicNumber P3 || bytes_eqb magicNumber P6)
  then Error "unsupported PPM format"
  else
    wr <- next_int ws "width" ;;
    let '(width, ws) := wr in
    hr <- next_int ws "height" ;;
    let '(height, ws) := hr in
    mr <- next_int ws "max value" ;;
    let '(maxVal, ws) := mr in
    if height <? 0 then Panic "makeslice: len out of range"
    else
      res <- for_range (Z.to_nat height) 0 (fun i st =>
        let '(data, ws) := st in
        if width <? 0 then Panic "makeslice: len out of range"
        else
          rowr <- for_range (Z.to_nat width) 0 (fun j st =>
            let '(row, ws) := st in
            r <- next_u8 ws ;;
            g <- next_u8 (snd r) ;;
            b <- next_u8 (snd g) ;;
            Ok (row ++ [mkPixel (fst r) (fst g) (fst b)], snd b)) ([], ws) ;;
          Ok (data ++ [fst rowr], snd rowr)) ([], ws) ;;
      Ok (mkPPM (fst res) width height magicNumber (wrap8 maxVal)).

(** [fmt.Fprintf(writer, "%d %d %d ", pixel.R, pixel.G, pixel.B)]. *)
Definition pixel_text (pixel : Pixel) : list Z :=
  itoa (R pixel) ++ [SP] ++ itoa (G pixel) ++ [SP] ++ itoa (B pixel) ++ [SP].

(** [PPM.Save] of [part_002]: the bytes written.  Every image is written in
    the text form, whatever its magic number; each pixel is followed by a
    space and each row by a newline. *)
Definition PPM_Save_p2 (ppm : PPM) : list Z :=
  (ppm_magicNumber ppm ++ [NL])
  ++ (itoa (ppm_width ppm) ++ [SP] ++ itoa (ppm_height ppm) ++ [NL])
  ++ (itoa (ppm_max ppm) ++ [NL])
  ++ flat_map (fun row => flat_map pixel_text row ++ [NL]) (ppm_data ppm).

(** ** [ReadPPM] and [PPM.Save] of [ppm.go] *)

(** [PPM.Save] of [ppm.go]: the header for [P3] and [P6], then the pixels of
    [data[y][x]] as bytes ([P6]) or as text with a newline after each row
    ([P3]); any other magic number is an error. *)
Definition PPM_Save (ppm : PPM) : outcome (list Z) :=
  let magic := ppm_magicNumber ppm in
  if bytes_eqb magic P6 || bytes_eqb magic P3 then
    let header := magic ++ [NL] ++ itoa (ppm_width ppm) ++ [SP] ++ itoa (ppm_height ppm)
                  ++ [NL] ++ itoa (ppm_max ppm) ++ [NL] in
    body <- for_range (Z.to_nat (ppm_height ppm)) 0 (fun y out =>
      row <- for_range (Z.to_nat (ppm_width ppm)) 0 (fun x out =>
        pixel <- at2 (ppm_data ppm) x y ;;
        Ok (if bytes_eqb magic P6 then out ++ [R pixel; G pixel; B pixel]
            else if bytes_eqb magic P3 then out ++ pixel_text pixel
            else out)) out ;;
      Ok (if bytes_eqb magic P3 then row ++ [NL] else row)) [] ;;
    Ok (header ++ body)
  else Error "magic number error".

(** The pixel loop of a [P3] row of [ReadPPM]: [None] is the [return nil, err]
    on a row with too few fields, where [err] is [nil]. *)
Fixpoint read_p3_row (n : nat) (x : Z) (fields : list (list Z)) (row : list Pixel)
  : outcome (option (list Pixel)) :=
  match n with
  | O => Ok (Some row)
  | Datatypes.S n' =>
      if Z.of_nat (List.length fields) <=? x * 3 + 2 then Ok None
      else match Sscanf_d (nth (Z.to_nat (x * 3)) fields []) with
           | None => Error "expected integer"
           | Some r =>
               match Sscanf_d (nth (Z.to_nat (x * 3 + 1)) fields []) with
               | None => Error "expected integer"
               | Some g =>
                   match Sscanf_d (nth (Z.to_nat (x * 3 + 2)) fields []) with
                   | None => Error "expected integer"
                   | Some b =>
                       match set_nth row (Z.to_nat x) (mkPixel (wrap8 r) (wrap8 g) (wrap8 b)) with
                       | None => Panic "index out of range"
                       | Some row' => read_p3_row n' (x + 1) fields row'
                       end
                   end
               end
           end
  end.

(** [for y := 0; y < height; y++] over the rows, which may return early. *)
Fixpoint read_rows (n : nat) (y : Z)
  (row_of : Z -> Reader -> outcome (option (list Pixel * Reader)))
  (data : list (list Pixel)) (r : Reader) : outcome (option (list (list Pixel))) :=
  match n with
  | O => Ok (Some data)
  | Datatypes.S n' =>
      o <- row_of y r ;;
      match o with
      | None => Ok None
      | Some (row, r') => read_rows n' (y + 1) row_of (data ++ [row]) r'
      end
  end.

(** One row of [P6]: [reader.Read(row)] fills a prefix of the zeroed slice of
    [3 width] bytes, and its count is not checked. *)
Definition read_p6_row (width : Z) (r : Reader) : outcome (option (list Pixel * Reader)) :=
  if width * 3 <? 0 then Panic "makeslice: len out of range"
  else
    nr <- Read (Z.to_nat (width * 3)) r ;;
    let '(got, r') := nr in
    let row := got ++ repeat 0 (Z.to_nat (width * 3) - List.length got) in
    Ok (Some (map (fun x => mkPixel (nth (x * 3) row 0) (nth (x * 3 + 1) row 0)
                                    (nth (x * 3 + 2) row 0))
                  (seq 0 (Z.to_nat width)), r')).

(** The body loops of [ReadPPM]. *)
Definition ReadPPM_body (magic : list Z) (width height : Z) (r : Reader)
  : outcome (option (list (list Pixel))) :=
  if bytes_eqb magic P3 then
    read_rows (Z.to_nat height) 0 (fun y r =>
      lr <- ReadString r ;;
      let '(line, r') := lr in
      if width <? 0 then Panic "makeslice: len out of range"
      else
        rowo <- read_p3_row (Z.to_nat width) 0 (Fields line)
                  (repeat (mkPixel 0 0 0) (Z.to_nat width)) ;;
        Ok (match rowo with Some row => Some (row, r') | None => None end)) [] r
  else if bytes_eqb magic P6 then
    read_rows (Z.to_nat height) 0 (fun y r => read_p6_row width r) [] r
  else Ok (Some (repeat [] (Z.to_nat height))).

(** [ReadPPM] of [ppm.go]: [Ok None] is a [nil] image returned with a [nil]
    error. *)
Definition ReadPPM (file : list Z) : outcome (option PPM) :=
  let r := NewReader file in
  l1 <- ReadString r ;;
  let '(line1, r) := l1 in
  let magic := TrimSpace line1 in
  if negb (bytes_eqb magic P3 || bytes_eqb magic P6) then Ok None
  else
  l2 <- ReadString r ;;
  let '(line2, r) := l2 in
  match Sscanf_dd (TrimSpace line2) with
  | None => Error "invalid dimensions"
  | Some (width, height) =>
      l3 <- ReadString r ;;
      let '(line3, r) := l3 in
      match Sscanf_d (TrimSpace line3) with
      | None => Error "invalid max value"
      | Some max =>
          if height <? 0 then Panic "makeslice: len out of range"
          else
            body <- ReadPPM_body magic width height r ;;
            match body with
            | None => Ok None
            | Some data => Ok (Some (mkPPM data width height magic (wrap8 max)))
            end
      end
  end.

(** The bytes [PPM.Save] writes for a pixel of a [P6] image. *)
Definition pixel_raw (p : Pixel) : list Z := [R p; G p; B p].

(** A 3 x 2 binary pixmap. *)
Definition p6x2 : PPM :=
  mkPPM [[mkPixel 1 2 3; mkPixel 4 5 6; mkPixel 7 8 9];
         [mkPixel 200 100 50; mkPixel 0 0 0; mkPixel 255 255 255]] 3 2 P6 255.

(** ** An exact instance of [float64]

    Rationals: [float64(n)] of an integer is exact, and every operation is
    exact; on values that are doubles themselves (small integers, halves,
    the slopes [0], [1/2], [1] of short lines) it agrees with IEEE
    arithmetic.  [x / 0] is [0] in [Q] where IEEE gives an infinity or NaN;
    [DrawLine] of [ppm.go] divides by zero only for a single-point line,
    where NaN and [0] both fail [error >= 0.5]. *)
Definition q_float64 (z : Z) : Q := inject_Z z.
Definition q_gt (a b : Q) : bool := negb (Qle_bool a b).
Definition q_ge (a b : Q) : bool := Qle_bool b a.
Definition q_trunc (q : Q) : Z := Z.quot (Qnum q) (Zpos (Qden q)).

Definition DrawPolygon_Q :=
  DrawPolygon Q q_float64 Qabs Qplus Qminus Qdiv q_gt q_ge 0%Q (1 # 2) 1%Q.
Definition DrawPolygon_p2_Q := DrawPolygon_p2 Q q_float64 Qabs q_ge.
Definition DrawFilledPolygon_Q :=
  DrawFilledPolygon Q q_float64 Qabs Qplus Qminus Qdiv q_gt q_ge 0%Q (1 # 2) 1%Q.
Definition DrawFilledPolygon_p2_Q := DrawFilledPolygon_p2 Q q_float64 Qplus Qmult Qdiv q_trunc.

(** ** Sample images *)

Definition black : Pixel := mkPixel 0 0 0.
Definition white : Pixel := mkPixel 255 255 255.

(** A [width] x [height] black pixmap built by direct construction. *)
Definition blank_ppm (width height : Z) : PPM :=
  mkPPM (repeat (repeat black (Z.to_nat width)) (Z.to_nat height)) width height P3 255.

(** The pixels of colour [c] in an image, as [(x, y)]. *)
Definition pixels_of (c : Pixel) (img : PPM) : list (Z * Z) :=
  flat_map (fun y =>
    flat_map (fun x =>
      match nth_error (ppm_data img) y with
      | Some row => match nth_error row x with
                    | Some p => if pixel_eqb p c then [(Z.of_nat x, Z.of_nat y)] else []
                    | None => []
                    end
      | None => []
      end) (seq 0 (Z.to_nat (ppm_width img)))) (seq 0 (Z.to_nat (ppm_height img))).

(** A simple non-convex pentagon: a square with a notch cut into its top
    edge down to [(4,4)]. *)
Definition notched : list Point :=
  [mkPoint 0 0; mkPoint 8 0; mkPoint 8 8; mkPoint 4 4; mkPoint 0 8].

(** A one-row P4 bitmap of width 10: [1,0,1,0,1,0,1,0,1,1]. *)
Definition b10 : PBM :=
  mkPBM [[true; false; true; false; true; false; true; false; true; true]] 10 1 P4.

(** A 2100 x 2 binary graymap built by direct construction. *)
Definition big_p5 : PGM := mkPGM (repeat (repeat 0 2100) 2) 2100 2 P5 255.

(** A 1 x 1 graymap and a 4 x 1 graymap [[0;127;128;255]]. *)
Definition g1 : PGM := mkPGM [[7]] 1 1 P2 255.
Definition g4 : PGM := mkPGM [[0; 127; 128; 255]] 4 1 P2 255.

(** 3 x 2 images of each kind. *)
Definition b3x2 : PBM := mkPBM [[true; false; false]; [false; true; true]] 3 2 P1.
Definition g3x2 : PGM := mkPGM [[1; 2; 3]; [40; 50; 60]] 3 2 P2 255.
Definition p3x2 : PPM :=
  mkPPM [[mkPixel 1 2 3; mkPixel 4 5 6; mkPixel 7 8 9];
         [mkPixel 200 100 50; mkPixel 0 0 0; mkPixel 255 255 255]] 3 2 P3 255.

(** The bit [j] (counted from the least significant one) of byte [i] of a
    packed P4 row of [k] pixels: pixel [8 i + 7 - j] if it lies in the row. *)
Definition packed_bit (data_row : list bool) (k i j : nat) : bool :=
  (j <? 8)%nat && (i * 8 + (7 - j) <? k)%nat && nth (i * 8 + (7 - j)) data_row false.

(** The invariant of the P4 row loop after [k] pixels. *)
Definition pack_inv (data_row : list bool) (k : nat) (acc : list Z) : Prop :=
  List.length acc = ((k + 7) / 8)%nat /\
  forall i j, Z.testbit (nth i acc 0) (Z.of_nat j) = packed_bit data_row k i j.

(** [0] or [1], for counting. *)
Definition b2n (b : bool) : nat := if b then 1%nat else 0%nat.

(** ** Whole-image operations *)

(** [v := s[i]] on a slice; out of range is a panic. *)
Definition get_at {A} (l : list A) (i : Z) : outcome A :=
  if i <? 0 then Panic "index out of range"
  else match nth_error l (Z.to_nat i) with
       | Some v => Ok v
       | None => Panic "index out of range"
       end.

(** [s[i] = v]. *)
Definition set_at {A} (l : list A) (i : Z) (v : A) : outcome (list A) :=
  if i <? 0 then Panic "index out of range"
  else match set_nth l (Z.to_nat i) v with
       | Some l' => Ok l'
       | None => Panic "index out of range"
       end.

(** [s[i], s[j] = s[j], s[i]]: both right-hand operands are read, then the
    assignments are carried out from left to right. *)
Definition swap_at {A} (l : list A) (i j : Z) : outcome (list A) :=
  vj <- get_at l j ;;
  vi <- get_at l i ;;
  l' <- set_at l i vj ;;
  set_at l' j vi.

(** The loops of [Flip]: for each of the first [rows] rows,
    [for j := 0; j < width/2; j++ { data[i][j], data[i][width-j-1] =
    data[i][width-j-1], data[i][j] }]. *)
Definition flip_rows {A} (data : list (list A)) (rows width : Z) : outcome (list (list A)) :=
  for_range (Z.to_nat rows) 0 (fun i d =>
    for_range (iters_excl 0 (Z.quot width 2)) 0 (fun j d =>
      row <- get_at d i ;;
      row' <- swap_at row j (width - j - 1) ;;
      set_at d i row') d) data.

(** The loop of [Flop]: [for i := 0; i < height/2; i++ { data[i],
    data[height-i-1] = data[height-i-1], data[i] }]. *)
Definition flop_rows {A} (data : list A) (height : Z) : outcome (list A) :=
  for_range (iters_excl 0 (Z.quot height 2)) 0 (fun i d =>
    swap_at d i (height - i - 1)) data.

(** [PBM.Flip] of [pbm.go]: [for y := range pbm.data], over all rows. *)
Definition PBM_Flip (pbm : PBM) : outcome PBM :=
  d <- flip_rows (pbm_data pbm) (Z.of_nat (List.length (pbm_data pbm))) (pbm_width pbm) ;;
  Ok (mkPBM d (pbm_width pbm) (pbm_height pbm) (pbm_magicNumber pbm)).

Definition PBM_Flop (pbm : PBM) : outcome PBM :=
  d <- flop_rows (pbm_data pbm) (pbm_height pbm) ;;
  Ok (mkPBM d (pbm_width pbm) (pbm_height pbm) (pbm_magicNumber pbm)).

(** [PBM.Invert]: two [range] loops, [!v] on every pixel. *)
Definition PBM_Invert (pbm : PBM) : PBM :=
  mkPBM (map (map negb) (pbm_data pbm)) (pbm_width pbm) (pbm_height pbm)
    (pbm_magicNumber pbm).

(** [Flip] and [Flop] of [PGM] (both versions, [pgm.go] and [pbm.go]). *)
Definition PGM_Flip (pgm : PGM) : outcome PGM :=
  d <- flip_rows (pgm_data pgm) (pgm_height pgm) (pgm_width pgm) ;;
  Ok (mkPGM d (pgm_width pgm) (pgm_height pgm) (pgm_magicNumber pgm) (pgm_max pgm)).

Definition PGM_Flop (pgm : PGM) : outcome PGM :=
  d <- flop_rows (pgm_data pgm) (pgm_height pgm) ;;
  Ok (mkPGM d (pgm_width pgm) (pgm_height pgm) (pgm_magicNumber pgm) (pgm_max pgm)).

(** [Flip] and [Flop] of [PPM] (the same code in [ppm.go] and [part_002]). *)
Definition PPM_Flip (ppm : PPM) : outcome PPM :=
  d <- flip_rows (ppm_data ppm) (ppm_height ppm) (ppm_width ppm) ;; Ok (with_data ppm d).

Definition PPM_Flop (ppm : PPM) : outcome PPM :=
  d <- flop_rows (ppm_data ppm) (ppm_height ppm) ;; Ok (with_data ppm d).

(** [for i := 0; i < height; i++ { for j := 0; j < width; j++ {
    data[i][j] = f(data[i][j]) } }]. *)
Definition update_grid {A} (f : A -> A) (data : list (list A)) (width height : Z)
  : outcome (list (list A)) :=
  for_range (Z.to_nat height) 0 (fun i d =>
    for_range (Z.to_nat width) 0 (fun j d =>
      v <- at2 d j i ;; set2 d j i (f v)) d) data.

(** [PGM.Invert] (both versions): [data[i][j] = max - data[i][j]] in
    [uint8]. *)
Definition PGM_Invert (pgm : PGM) : outcome PGM :=
  d <- update_grid (fun v => wrap8 (pgm_max pgm - v)) (pgm_data pgm)
         (pgm_width pgm) (pgm_height pgm) ;;
  Ok (mkPGM d (pgm_width pgm) (pgm_height pgm) (pgm_magicNumber pgm) (pgm_max pgm)).

(** [PPM.Invert] (both versions): [uint8(max) - c] on each channel; the three
    assignments of a pixel read and write the same [data[i][j]]. *)
Definition PPM_Invert (ppm : PPM) : outcome PPM :=
  let m := ppm_max ppm in
  d <- update_grid (fun p => mkPixel (wrap8 (m - R p)) (wrap8 (m - G p)) (wrap8 (m - B p)))
         (ppm_data ppm) (ppm_width ppm) (ppm_height ppm) ;;
  Ok (with_data ppm d).

(** [make([][]T, n)] and [make([]T, m)] for each row, zero filled. *)
Definition make_grid {A} (zero : A) (m n : Z) : outcome (list (list A)) :=
  if n <? 0 then Panic "makeslice: len out of range"
  else if (0 <? n) && (m <? 0) then Panic "makeslice: len out of range"
  else Ok (repeat (repeat zero (Z.to_nat m)) (Z.to_nat n)).

(** The body of [Rotate90CW]: a [width] x [height] grid, then
    [newData[j][height-i-1] = data[i][j]]. *)
Definition rotate_grid {A} (zero : A) (data : list (list A)) (width height : Z)
  : outcome (list (list A)) :=
  newData <- make_grid zero height width ;;
  for_range (Z.to_nat height) 0 (fun i nd =>
    for_range (Z.to_nat width) 0 (fun j nd =>
      v <- at2 data j i ;;
      set2 nd (height - i - 1) j v) nd) newData.

(** [Rotate90CW]: the new data, then width and height are swapped. *)
Definition PGM_Rotate90CW (pgm : PGM) : outcome PGM :=
  d <- rotate_grid 0 (pgm_data pgm) (pgm_width pgm) (pgm_height pgm) ;;
  Ok (mkPGM d (pgm_height pgm) (pgm_width pgm) (pgm_magicNumber pgm) (pgm_max pgm)).

Definition PPM_Rotate90CW (ppm : PPM) : outcome PPM :=
  d <- rotate_grid (mkPixel 0 0 0) (ppm_data ppm) (ppm_width ppm) (ppm_height ppm) ;;
  Ok (mkPPM d (ppm_height ppm) (ppm_width ppm) (ppm_magicNumber ppm) (ppm_max ppm)).

(** [PPM.ToPGM] of [ppm.go]: the mean of the three channels,
    [uint8((int(R) + int(G) + int(B)) / 3)]. *)
Definition PPM_ToPGM (ppm : PPM) : outcome PGM :=
  d0 <- make_grid 0 (ppm_width ppm) (ppm_height ppm) ;;
  d <- for_range (Z.to_nat (ppm_height ppm)) 0 (fun y d =>
         for_range (Z.to_nat (ppm_width ppm)) 0 (fun x d =>
           p <- at2 (ppm_data ppm) x y ;;
           set2 d x y (wrap8 (Z.quot (R p + G p + B p) 3))) d) d0 ;;
  Ok (mkPGM d (ppm_width ppm) (ppm_height ppm) P2 (ppm_max ppm)).

(** [PPM.ToPBM] of [ppm.go]: [threshold := uint8(ppm.max / 2)], the mean in
    [uint16], and [average < uint16(threshold)]. *)
Definition PPM_ToPBM (ppm : PPM) : outcome PBM :=
  d0 <- make_bool_grid (ppm_width ppm) (ppm_height ppm) ;;
  let threshold := ppm_max ppm / 2 in
  d <- for_range (Z.to_nat (ppm_height ppm)) 0 (fun y d =>
         for_range (Z.to_nat (ppm_width ppm)) 0 (fun x d =>
           p <- at2 (ppm_data ppm) x y ;;
           let average := Z.quot ((R p + G p + B p) mod 65536) 3 in
           set2 d x y (average <? threshold)) d) d0 ;;
  Ok (mkPBM d (ppm_width ppm) (ppm_height ppm) P1).

(** A grid of [height] rows of [width] entries each: the shape every
    constructor and decoder of the package produces. *)
Definition grid_wf {A} (d : list (list A)) (width height : Z) : bool :=
  (Z.of_nat (List.length d) =? height)
  && forallb (fun row => Z.of_nat (List.length row) =? width) d.

Definition is_byte (v : Z) : bool := (0 <=? v) && (v <? 256).

Definition pixel_bytes (p : Pixel) : bool := is_byte (R p) && is_byte (G p) && is_byte (B p).

(** The [rows] x [cols] grid whose entry [y][x] is [c y x]. *)
Definition tab {A} (rows cols : nat) (c : nat -> nat -> A) : list (list A) :=
  map (fun y => map (fun x => c y x) (seq 0 cols)) (seq 0 rows).

(** ** Filled shapes *)

(** The pixels [(x, y)] a double loop [for a, for b] (outer from [A0], inner
    over [[B0, B0 + NB)]) that writes pixel [(fx a b, fy a b)] when
    [cond a b] has written before iteration [(a, b)]; [ga] and [gb] map a
    pixel back to its loop indices. *)
Definition painted_before (A0 B0 : Z) (NB : nat) (cond : Z -> Z -> bool)
    (ga gb : Z -> Z -> Z) (a b : Z) (x y : nat) : bool :=
  let a' := ga (Z.of_nat x) (Z.of_nat y) in
  let b' := gb (Z.of_nat x) (Z.of_nat y) in
  (A0 <=? a') && (B0 <=? b') && (b' <? B0 + Z.of_nat NB) && cond a' b'
  && ((a' <? a) || ((a' =? a) && (b' <? b))).

(** [DrawFilledRectangle] of ppm.go: the sums [p1.X+width] and
    [p1.Y+height] wrap around as Go's [int]; both loops run up to the clipped
    bound inclusive, and each pixel is written through the bounds-checked
    [Set]. *)
Definition DrawFilledRectangle (ppm : PPM) (p1 : Point) (width height : Z)
    (color : Pixel) : outcome PPM :=
  let maxX := Z.min (wrap64 (X p1 + width)) (ppm_width ppm) in
  let maxY := Z.min (wrap64 (Y p1 + height)) (ppm_height ppm) in
  for_range (iters_incl (X p1) maxX) (X p1) (fun x ppm =>
    for_range (iters_incl (Y p1) maxY) (Y p1) (fun y ppm =>
      if (0 <=? x) && (0 <=? y) && (x <? ppm_width ppm) && (y <? ppm_height ppm)
      then PPM_Set ppm x y color
      else Ok ppm) ppm) ppm.

(** [DrawFilledRectangle] of part_002: rows outer, columns inner, half-open
    bounds, unchecked [Set]. *)
Definition DrawFilledRectangle_p2 (ppm : PPM) (p1 : Point) (width height : Z)
    (color : Pixel) : outcome PPM :=
  for_range (iters_excl (Y p1) (Y p1 + height)) (Y p1) (fun y ppm =>
    for_range (iters_excl (X p1) (X p1 + width)) (X p1) (fun x ppm =>
      PPM_Set_p2 ppm x y color) ppm) ppm.

(** [DrawCircle] of part_002. *)
Definition DrawCircle_p2 (ppm : PPM) (center : Point) (radius : Z)
    (color : Pixel) : outcome PPM :=
  for_range (iters_incl (- radius) radius) (- radius) (fun x ppm =>
    for_range (iters_incl (- radius) radius) (- radius) (fun y ppm =>
      if x * x + y * y <=? radius * radius
      then PPM_Set_p2 ppm (X center + x) (Y center + y) color
      else Ok ppm) ppm) ppm.

(** [DrawFilledCircle] of part_002. *)
Definition DrawFilledCircle_p2 (ppm : PPM) (center : Point) (radius : Z)
    (color : Pixel) : outcome PPM :=
  for_range (iters_incl (- radius) radius) (- radius) (fun x ppm =>
    for_range (iters_incl (- radius) radius) (- radius) (fun y ppm =>
      if x * x + y * y <=? radius * radius
      then PPM_Set_p2 ppm (X center + x) (Y center + y) color
      else Ok ppm) ppm) ppm.

Section Shapes.

Variable F : Type.
Variable float64 : Z -> F.
Variable fabs : F -> F.
Variables fadd fsub fmul fdiv : F -> F -> F.
Variables fgt fge : F -> F -> bool.

(** [DrawRectangle] of [ppm.go]: corners in the order p1, p2, p3, p4. *)
Definition DrawRectangle (fzero fhalf fone : F) (ppm : PPM) (p1 : Point) (width height : Z)
  (color : Pixel) : outcome PPM :=
  let p2 := mkPoint (X p1 + width) (Y p1) in
  let p3 := mkPoint (X p1 + width) (Y p1 + height) in
  let p4 := mkPoint (X p1) (Y p1 + height) in
  img <- DrawLine F float64 fabs fadd fsub fdiv fgt fge fzero fhalf fone ppm p1 p2 color ;;
  img <- DrawLine F float64 fabs fadd fsub fdiv fgt fge fzero fhalf fone img p2 p3 color ;;
  img <- DrawLine F float64 fabs fadd fsub fdiv fgt fge fzero fhalf fone img p3 p4 color ;;
  DrawLine F float64 fabs fadd fsub fdiv fgt fge fzero fhalf fone img p4 p1 color.

(** [DrawTriangle] of [ppm.go]. *)
Definition DrawTriangle (fzero fhalf fone : F) (ppm : PPM) (p1 p2 p3 : Point)
  (color : Pixel) : outcome PPM :=
  img <- DrawLine F float64 fabs fadd fsub fdiv fgt fge fzero fhalf fone ppm p1 p2 color ;;
  img <- DrawLine F float64 fabs fadd fsub fdiv fgt fge fzero fhalf fone img p2 p3 color ;;
  DrawLine F float64 fabs fadd fsub fdiv fgt fge fzero fhalf fone img p3 p1 color.

(** [DrawRectangle] of [part_002]: p3 is the bottom-left corner and p4 the
    bottom-right one; the sides are drawn p1p2, p2p4, p4p3, p3p1. *)
Definition DrawRectangle_p2 (ppm : PPM) (p1 : Point) (width height : Z) (color : Pixel)
  : outcome PPM :=
  let p2 := mkPoint (X p1 + width) (Y p1) in
  let p3 := mkPoint (X p1) (Y p1 + height) in
  let p4 := mkPoint (X p2) (Y p3) in
  img <- DrawLine_p2 F float64 fabs fge ppm p1 p2 color ;;
  img <- DrawLine_p2 F float64 fabs fge img p2 p4 color ;;
  img <- DrawLine_p2 F float64 fabs fge img p4 p3 color ;;
  DrawLine_p2 F float64 fabs fge img p3 p1 color.

(** [DrawTriangle] of [part_002]. *)
Definition DrawTriangle_p2 (ppm : PPM) (p1 p2 p3 : Point) (color : Pixel) : outcome PPM :=
  img <- DrawLine_p2 F float64 fabs fge ppm p1 p2 color ;;
  img <- DrawLine_p2 F float64 fabs fge img p2 p3 color ;;
  DrawLine_p2 F float64 fabs fge img p3 p1 color.

End Shapes.

(** ** Text lines of the encoders *)

(** A reader whose buffer holds at most [defaultBufSize] bytes and whose file
    is drained once it has hit the end. *)
Definition reader_wf (r : Reader) : Prop :=
  (List.length (rbuf r) <= defaultBufSize)%nat /\ (reof r = true -> rfile r = []).

(** Decreases with every refill of the buffer. *)
Definition reader_measure (r : Reader) : nat :=
  (2 * List.length (rfile r) + (if Nat.eqb (List.length (rbuf r)) defaultBufSize then 1 else 0))%nat.

(** A run of digits ends before [rest]. *)
Definition ends_token (rest : list Z) : Prop :=
  match rest with [] => True | b :: _ => is_digit b = false end.

(** Tokens separated by single spaces. *)
Fixpoint join_sp (toks : list (list Z)) : list Z :=
  match toks with
  | [] => []
  | [t] => t
  | t :: ts => t ++ SP :: join_sp ts
  end.

(** A non-empty run of decimal digits. *)
Definition token_ok (t : list Z) : Prop := t <> [] /\ forall b, In b t -> is_digit b = true.

(** The text line of one row of a [P2] body. *)
Definition p2_line (row : list Z) : list Z := join_sp (map itoa row) ++ [NL].

(** The bytes [PBM.Save] writes for one [P1] pixel and one [P1] row. *)
Definition p1_pixel (pixel : bool) : list Z := bytes_of_string (if pixel then "1 " else "0 ").

Definition p1_line (row : list bool) : list Z := flat_map p1_pixel row ++ [NL].

(** A byte that the [P1] decoder skips. *)
Definition not_bit (b : Z) : Prop := b <> 48 /\ b <> 49.

(** The row being decoded after its first [k] pixels are known. *)
Definition p4_prefix (row : list bool) (k : nat) : list bool :=
  map (fun j => if (j <? k)%nat then nth j row false else false) (seq 0 (List.length row)).

(** The words [bufio.ScanWords] yields for one pixel written by [PPM_Save_p2]. *)
Definition pixel_words (p : Pixel) : list (list Z) := [itoa (R p); itoa (G p); itoa (B p)].

(** ** Filled circles and triangles; [SetMaxValue] *)

(** [a < b] on [float64]. *)
Definition q_lt (a b : Q) : bool := negb (Qle_bool b a).

(** [uint8(f)] of a [float64]: the truncation; Go leaves the result of an
    out-of-range conversion to the implementation, taken here as its low
    byte. *)
Definition q_uint8 (q : Q) : Z := wrap8 (q_trunc q).

(** [DrawFilledCircle] of [ppm.go]: every pixel of the image whose squared
    distance to the centre, in [float64], is below [float64(radius*radius)]
    is written through the bounds-checked [Set]; [radius*radius] is an [int]
    product and wraps around. The [float64] values are taken exact, which
    IEEE arithmetic matches while every intermediate is an integer of
    magnitude at most [2^53]. *)
Definition DrawFilledCircle (ppm : PPM) (center : Point) (radius : Z) (color : Pixel)
  : outcome PPM :=
  for_range (iters_excl 0 (ppm_height ppm)) 0 (fun y ppm =>
    for_range (iters_excl 0 (ppm_width ppm)) 0 (fun x ppm =>
      let dx := (q_float64 x - q_float64 (X center))%Q in
      let dy := (q_float64 y - q_float64 (Y center))%Q in
      let distanceSquared := (dx * dx + dy * dy)%Q in
      if q_lt distanceSquared (q_float64 (wrap64 (radius * radius)))
      then PPM_Set ppm x y color else Ok ppm) ppm) ppm.

(** [isInsideTriangle] (both versions): the barycentric test. The [int]
    negations [-p2.Y] and [-p2.X] wrap around; the [float64] values are
    taken exact, which IEEE arithmetic matches while every intermediate is
    an integer of magnitude at most [2^53] (as for the area when all
    coordinates are within [2^24]). *)
Definition isInsideTriangle (p p1 p2 p3 : Point) : bool :=
  let f := q_float64 in
  let area := ((1 # 2) * (f (wrap64 (Z.opp (Y p2))) * f (X p3)
                          + f (Y p1) * (f (wrap64 (Z.opp (X p2))) + f (X p3))
                          + f (X p1) * (f (Y p2) - f (Y p3)) + f (X p2) * f (Y p3)))%Q in
  if Qeq_bool area 0 then false
  else
    let s := (1 / (2 * area) * (f (Y p1) * f (X p3) - f (X p1) * f (Y p3)
               + (f (Y p3) - f (Y p1)) * f (X p) + (f (X p1) - f (X p3)) * f (Y p)))%Q in
    let t := (1 / (2 * area) * (f (X p1) * f (Y p2) - f (Y p1) * f (X p2)
               + (f (Y p1) - f (Y p2)) * f (X p) + (f (X p2) - f (X p1)) * f (Y p)))%Q in
    q_ge s 0 && q_ge t 0 && q_ge 1 (s + t).

(** [DrawFilledTriangle] of [ppm.go]: the bounding box from the built-in
    [min] and [max], columns outer, both bounds included, bounds-checked
    [Set]. *)
Definition DrawFilledTriangle (ppm : PPM) (p1 p2 p3 : Point) (color : Pixel) : outcome PPM :=
  let minX := Z.min (Z.min (X p1) (X p2)) (X p3) in
  let minY := Z.min (Z.min (Y p1) (Y p2)) (Y p3) in
  let maxX := Z.max (Z.max (X p1) (X p2)) (X p3) in
  let maxY := Z.max (Z.max (Y p1) (Y p2)) (Y p3) in
  for_range (iters_incl minX maxX) minX (fun x ppm =>
    for_range (iters_incl minY maxY) minY (fun y ppm =>
      if isInsideTriangle (mkPoint x y) p1 p2 p3 then PPM_Set ppm x y color else Ok ppm) ppm) ppm.

(** [min] and [max] of [part_002]. *)
Definition min_p2 (a b : Z) : Z := if a <? b then a else b.
Definition max_p2 (a b : Z) : Z := if a >? b then a else b.

(** [DrawFilledTriangle] of [part_002]: the same loops with its own [min]
    and [max] and the unchecked [Set]. *)
Definition DrawFilledTriangle_p2 (ppm : PPM) (p1 p2 p3 : Point) (color : Pixel) : outcome PPM :=
  let minX := min_p2 (min_p2 (X p1) (X p2)) (X p3) in
  let minY := min_p2 (min_p2 (Y p1) (Y p2)) (Y p3) in
  let maxX := max_p2 (max_p2 (X p1) (X p2)) (X p3) in
  let maxY := max_p2 (max_p2 (Y p1) (Y p2)) (Y p3) in
  for_range (iters_incl minX maxX) minX (fun x ppm =>
    for_range (iters_incl minY maxY) minY (fun y ppm =>
      if isInsideTriangle (mkPoint x y) p1 p2 p3 then PPM_Set_p2 ppm x y color else Ok ppm) ppm) ppm.

(** [PGM.SetMaxValue] of [pgm.go]: [maxValue <= 0] panics; otherwise each
    value becomes [uint8(float64(v) * scaleFactor)] with
    [scaleFactor = float64(maxValue) / float64(max)]. *)
Definition PGM_SetMaxValue (pgm : PGM) (maxValue : Z) : outcome PGM :=
  if maxValue <=? 0 then Panic "Invalid maximum value"
  else
    let scaleFactor := (q_float64 maxValue / q_float64 (pgm_max pgm))%Q in
    d <- update_grid (fun v => q_uint8 (q_float64 v * scaleFactor)%Q)
           (pgm_data pgm) (pgm_width pgm) (pgm_height pgm) ;;
    Ok (mkPGM d (pgm_width pgm) (pgm_height pgm) (pgm_magicNumber pgm) maxValue).

(** [PPM.SetMaxValue] of [ppm.go]: each channel becomes
    [uint8(float64(c) * float64(maxValue) / float64(max))]; the three
    assignments of a pixel touch different channels.  On [uint8] operands the
    product is exact, and the truncation of the rounded quotient is that of
    the exact one. *)
Definition PPM_SetMaxValue (ppm : PPM) (maxValue : Z) : outcome PPM :=
  let conv c := q_uint8 (q_float64 c * q_float64 maxValue / q_float64 (ppm_max ppm))%Q in
  d <- update_grid (fun p => mkPixel (conv (R p)) (conv (G p)) (conv (B p)))
         (ppm_data ppm) (ppm_width ppm) (ppm_height ppm) ;;
  Ok (mkPPM d (ppm_width ppm) (ppm_height ppm) (ppm_magicNumber ppm) maxValue).

(** Every channel of the pixel lies in [[0, mx]]. *)
Definition pixel_le (mx : Z) (p : Pixel) : bool :=
  (0 <=? R p) && (R p <=? mx) && (0 <=? G p) && (G p <=? mx) && (0 <=? B p) && (B p <=? mx).

(** * Properties *)

(** ** Packing of P4 rows *)

Lemma nth_app_zero (l : list Z) i : nth i (l ++ [0]) 0 = nth i l 0.
Proof.
  destruct (Nat.lt_ge_cases i (List.length l)).
  - now rewrite app_nth1.
  - rewrite app_nth2 by lia. rewrite (nth_overflow l) by lia.
    destruct (i - List.length l)%nat as [|[|n]]; reflexivity.
Qed.

Lemma or_nth_length l n m : List.length (or_nth l n m) = List.length l.
Proof. revert n; induction l; intros [|n]; simpl; auto. Qed.

Lemma nth_or_nth l n m i :
  (n < List.length l)%nat ->
  nth i (or_nth l n m) 0 = if Nat.eqb i n then Z.lor (nth i l 0) m else nth i l 0.
Proof.
  revert n i; induction l as [|b l IH]; intros n i Hn; simpl in *; [lia|].
  destruct n, i; simpl; auto.
  rewrite IH by lia. reflexivity.
Qed.

Section PackRow.
Variable data_row : list bool.

Lemma pack_inv_step k acc :
  pack_inv data_row k acc -> pack_inv data_row (S k) (pack_step data_row acc k).
Proof.
  intros [Hlen Hbits].
  pose proof (Nat.div_mod_eq k 8) as Hdm. pose proof (Nat.mod_upper_bound k 8 ltac:(lia)) as Hmb.
  set (acc1 := if Nat.eqb (k mod 8) 0 then acc ++ [0] else acc).
  assert (Hlen1 : List.length acc1 = ((S k + 7) / 8)%nat).
  { subst acc1. replace (S k + 7)%nat with (k + 8)%nat by lia.
    pose proof (Nat.div_mod_eq (k + 8) 8).
    pose proof (Nat.mod_upper_bound (k + 8) 8 ltac:(lia)).
    pose proof (Nat.div_mod_eq (k + 7) 8).
    pose proof (Nat.mod_upper_bound (k + 7) 8 ltac:(lia)).
    destruct (Nat.eqb_spec (k mod 8) 0).
    - rewrite length_app; cbn [List.length]. lia.
    - lia. }
  assert (Hnth1 : forall i, nth i acc1 0 = nth i acc 0).
  { intros i; subst acc1. destruct (Nat.eqb (k mod 8) 0); auto using nth_app_zero. }
  assert (Hspec : forall i j, packed_bit data_row (S k) i j =
            packed_bit data_row k i j || ((Nat.eqb i (k / 8)) && (Nat.eqb j (7 - k mod 8))
                                 && nth k data_row false)).
  { intros i j. unfold packed_bit.
    destruct (Nat.ltb_spec j 8) as [Hj|Hj]; cbn [andb orb].
    2:{ replace (Nat.eqb j (7 - k mod 8)) with false by (symmetry; apply Nat.eqb_neq; lia).
        now rewrite andb_false_r. }
    assert (Hp : Nat.eqb (i * 8 + (7 - j)) k = Nat.eqb i (k / 8) && Nat.eqb j (7 - k mod 8)).
    { destruct (Nat.eqb_spec (i * 8 + (7 - j)) k); destruct (Nat.eqb_spec i (k / 8));
        destruct (Nat.eqb_spec j (7 - k mod 8)); simpl; lia. }
    rewrite <- Hp.
    destruct (Nat.ltb_spec (i * 8 + (7 - j)) (S k));
      destruct (Nat.ltb_spec (i * 8 + (7 - j)) k);
      destruct (Nat.eqb_spec (i * 8 + (7 - j)) k) as [He|He]; cbn [andb orb]; try lia;
      rewrite ?orb_false_r; try rewrite He; reflexivity. }
  unfold pack_step; fold acc1. split.
  - destruct (nth k data_row false); [rewrite or_nth_length|]; exact Hlen1.
  - intros i j. rewrite Hspec.
    destruct (nth k data_row false) eqn:Hk.
    + rewrite nth_or_nth.
      2:{ rewrite Hlen1. pose proof (Nat.div_mod_eq (S k + 7) 8).
          pose proof (Nat.mod_upper_bound (S k + 7) 8 ltac:(lia)). nia. }
      destruct (Nat.eqb_spec i (k / 8)).
      * rewrite Z.lor_spec, Hnth1, Hbits, Z.shiftl_1_l, Z.pow2_bits_eqb by lia.
        subst i. f_equal. rewrite andb_true_r. cbn [andb].
        destruct (Nat.eqb_spec j (7 - k mod 8));
          destruct (Z.eqb_spec (Z.of_nat (7 - k mod 8)) (Z.of_nat j)); try reflexivity; lia.
      * rewrite Hnth1, Hbits.
        replace (Nat.eqb i (k / 8)) with false by (symmetry; apply Nat.eqb_neq; lia).
        cbn [andb]. now rewrite orb_false_r.
    + rewrite Hnth1, Hbits, !andb_false_r, orb_false_r. reflexivity.
Qed.

Lemma pack_inv_seq n : forall k acc, pack_inv data_row k acc ->
  pack_inv data_row (k + n) (fold_left (pack_step data_row) (seq k n) acc).
Proof.
  induction n as [|n IH]; intros k acc H; simpl.
  - now rewrite Nat.add_0_r.
  - replace (k + S n)%nat with (S k + n)%nat by lia. apply IH, pack_inv_step, H.
Qed.

Lemma pack_row_inv w : pack_inv data_row (Z.to_nat w) (pack_row data_row w).
Proof.
  unfold pack_row. apply (pack_inv_seq (Z.to_nat w) 0 []).
  split; [reflexivity|]. intros i j. unfold packed_bit.
  replace (nth i [] 0) with 0 by (destruct i; reflexivity).
  rewrite Z.testbit_0_l. destruct (j <? 8)%nat; simpl; [|reflexivity].
  destruct (Nat.ltb_spec (i * 8 + (7 - j)) 0); [lia|reflexivity].
Qed.

Lemma pack_row_byte_range w i : 0 <= nth i (pack_row data_row w) 0 < 256.
Proof.
  set (v := nth i (pack_row data_row w) 0).
  assert (Hv : v = v mod 2 ^ 8).
  { apply Z.bits_inj'. intros n Hn.
    rewrite <- (Z2Nat.id n Hn).
    destruct (Nat.ltb_spec (Z.to_nat n) 8).
    - rewrite Z.mod_pow2_bits_low by lia. reflexivity.
    - rewrite Z.mod_pow2_bits_high by lia. unfold v.
      rewrite (proj2 (pack_row_inv w)). unfold packed_bit.
      destruct (Nat.ltb_spec (Z.to_nat n) 8); [lia|reflexivity]. }
  rewrite Hv. pose proof (Z.mod_pos_bound v (2 ^ 8) ltac:(lia)).
  change (2 ^ 8) with 256 in *. lia.
Qed.

End PackRow.

(** C2: [PBM.Save] of the 10-pixel P4 row [1,0,1,0,1,0,1,0,1,1] writes the
    header and then exactly two bytes, [170 = 0b10101010] and
    [192 = 0b11000000].  In general a row of [w] pixels is packed into
    [(w+7)/8] bytes, most significant bit first: bit [j] of byte [i] is the
    pixel [8 i + 7 - j] when that pixel lies within the width, and [0]
    otherwise (so the padding bits of the last byte are [0]); every byte is
    in [0,256). *)
Theorem C2_pbm_save_packs_bits_msb_first :
  PBM_Save b10 = Ok (P4 ++ [NL] ++ bytes_of_string "10 1" ++ [NL] ++ [170; 192]) /\
  (forall data_row w,
     List.length (pack_row data_row w) = ((Z.to_nat w + 7) / 8)%nat) /\
  (forall data_row w i j,
     Z.testbit (nth i (pack_row data_row w) 0) (Z.of_nat j)
     = packed_bit data_row (Z.to_nat w) i j) /\
  (forall data_row w i, 0 <= nth i (pack_row data_row w) 0 < 256).
Proof.
  split; [vm_compute; reflexivity|].
  split; [intros; apply (pack_row_inv data_row w)|].
  split; [intros; apply (pack_row_inv data_row w)|].
  exact pack_row_byte_range.
Qed.

(** ** Round trip of binary graymaps *)

(** C1 (counterexample): the 2100 x 2 P5 graymap [big_p5] is encoded to a
    14-byte header and its 4200 samples, but decoding those bytes fails: the
    header lines fill the 4096-byte buffer of the [bufio.Reader], the first
    row is served from it, and the second [Read] returns only the 1982 bytes
    left in the buffer, which [ReadPGM] reports as an unexpected end of
    file. *)
Lemma C1_p5_roundtrip_fails :
  (exists bytes, PGM_Save big_p5 = Ok bytes /\ List.length bytes = 4214%nat) /\
  bind (PGM_Save big_p5) ReadPGM = Error "unexpected end of file at row".
Proof.
  split.
  - eexists; split; vm_compute; reflexivity.
  - vm_compute. reflexivity.
Qed.

(** ** Pixel access outside the image *)

(** [PBM.At] and [PBM.Set] of [pbm.go] and [PPM.Set] of [ppm.go] are
    bounds checked. *)
Lemma PBM_At_Set_outside pbm x y v :
  ~ (0 <= x < pbm_width pbm /\ 0 <= y < pbm_height pbm) ->
  PBM_At pbm x y = Ok false /\ PBM_Set pbm x y v = Ok pbm.
Proof.
  intros Hout. unfold PBM_At, PBM_Set.
  destruct (0 <=? x) eqn:H1, (x <? pbm_width pbm) eqn:H2,
           (0 <=? y) eqn:H3, (y <? pbm_height pbm) eqn:H4; cbn [andb]; auto.
  exfalso; apply Hout; lia.
Qed.

Lemma PPM_Set_outside ppm x y c :
  ~ (0 <= x < ppm_width ppm /\ 0 <= y < ppm_height ppm) -> PPM_Set ppm x y c = Ok ppm.
Proof.
  intros Hout. unfold PPM_Set.
  destruct (0 <=? x) eqn:H1, (x <? ppm_width ppm) eqn:H2,
           (0 <=? y) eqn:H3, (y <? ppm_height ppm) eqn:H4; cbn [andb]; auto.
  exfalso; apply Hout; lia.
Qed.

(** C3 (counterexample): [PGM.At] and [PGM.Set] of [pgm.go] and [PPM.At]
    and [PPM.Set] of [part_002] index the slices directly: on a 1 x 1 image
    the coordinates [(1, 0)] make them panic instead of returning [0] /
    black or doing nothing. *)
Lemma C3_out_of_bounds_access_panics :
  PGM_At g1 1 0 = Panic "index out of range" /\
  PGM_Set g1 1 0 9 = Panic "index out of range" /\
  PPM_At (blank_ppm 1 1) 1 0 = Panic "index out of range" /\
  PPM_Set_p2 (blank_ppm 1 1) 1 0 white = Panic "index out of range" /\
  PPM_At (blank_ppm 1 1) 0 (-1) = Panic "index out of range".
Proof. vm_compute. repeat split. Qed.

(** ** Graymap to bitmap *)

(** C5 (counterexample): with [max = 255] and samples [[0;127;128;255]],
    [ToPBM] of [pgm.go] ([value < max/2]) gives [[true;false;false;false]],
    not [[false;false;true;true]]; the older [ToPBM] of [pbm.go]
    ([value > max/2]) gives [[false;false;true;true]] with the threshold
    [max/2 = 127] off, whereas the policy [value >= max/2] turns [127] on and
    gives [[false;true;true;true]]: neither conversion follows that policy. *)
Lemma C5_topbm_threshold :
  PGM_ToPBM g4 = Ok (mkPBM [[true; false; false; false]] 4 1 P1) /\
  PGM_ToPBM_pbm_go g4 = Ok (mkPBM [[false; false; true; true]] 4 1 P1) /\
  pgm_max g4 / 2 = 127 /\
  map (fun v => pgm_max g4 / 2 <=? v) [0; 127; 128; 255] = [false; true; true; true].
Proof. vm_compute. repeat split. Qed.

(** ** Header values out of range *)

(** C6 (counterexample): a max value of [300] is accepted by [ReadPGM] of
    [pgm.go] and by [ReadPPM] of [part_002], and stored as
    [uint8(300) = 44]. *)
Lemma C6_max_value_wraps :
  ReadPGM (bytes_of_string "P2
1 1
300
0
") = Ok (mkPGM [[0]] 1 1 P2 44) /\
  ReadPPM_p2 (bytes_of_string "P3 1 1 300 0 0 0")
    = Ok (mkPPM [[black]] 1 1 P3 44).
Proof. vm_compute. split; reflexivity. Qed.

(** C7 (counterexample): [ReadPBM] of [pbm.go] and [ReadPPM] of [part_002]
    do not check the dimensions: a width of [0] decodes to an image of
    width [0], and a negative one makes [make] panic. *)
Lemma C7_nonpositive_dimensions_accepted :
  ReadPBM (bytes_of_string "P4
0 3
") = Ok (mkPBM [[]; []; []] 0 3 P4) /\
  ReadPBM (bytes_of_string "P1
-1 1
") = Panic "makeslice: len out of range" /\
  ReadPPM_p2 (bytes_of_string "P3 0 0 255") = Ok (mkPPM [] 0 0 P3 255) /\
  ReadPPM_p2 (bytes_of_string "P3 -1 1 255") = Panic "makeslice: len out of range".
Proof. vm_compute. repeat split. Qed.

(** ** Polygons *)

(** C8 (counterexample): on the notched pentagon [notched] in a black
    9 x 9 pixmap, [DrawFilledPolygon] of [ppm.go] fills each row between
    its first and last pixel of the drawing colour, so the pixel [(4, 7)],
    inside the notch and outside the pentagon, is painted; the scanline
    fill of [part_002] leaves it black. *)
Lemma C8_color_matching_fill_leaks :
  (exists img, DrawFilledPolygon_Q (blank_ppm 9 9) notched white = Ok img /\
               PPM_At img 4 7 = Ok white) /\
  (exists img, DrawFilledPolygon_p2_Q (blank_ppm 9 9) notched white = Ok img /\
               PPM_At img 4 7 = Ok black).
Proof. split; eexists; split; vm_compute; reflexivity. Qed.

(** C9 (counterexample): [DrawPolygon] of [part_002] has no guard for
    fewer than three vertices: with none, [points[len(points)-1]] panics;
    with one, the closing line from the vertex to itself divides by zero. *)
Lemma C9_short_polygon_panics :
  DrawPolygon_p2_Q (blank_ppm 4 4) [] white = Panic "index out of range [-1]" /\
  DrawPolygon_p2_Q (blank_ppm 4 4) [mkPoint 1 1] white = Panic "integer divide by zero".
Proof. vm_compute. split; reflexivity. Qed.

(** [DrawPolygon] of [ppm.go] is a no-op below three vertices. *)
Lemma DrawPolygon_short F float64 fabs fadd fsub fdiv fgt fge fzero fhalf fone
  ppm points color :
  (List.length points < 3)%nat ->
  DrawPolygon F float64 fabs fadd fsub fdiv fgt fge fzero fhalf fone ppm points color = Ok ppm.
Proof.
  intros H. unfold DrawPolygon. apply Nat.ltb_lt in H. now rewrite H.
Qed.

(** ** Symmetry of [DrawLine] *)

Lemma for_range_ext {S} n : forall x (f g : Z -> S -> outcome S) s,
  (forall x s, f x s = g x s) -> for_range n x f s = for_range n x g s.
Proof.
  induction n as [|n IH]; intros x f g s H; simpl; [reflexivity|].
  rewrite H. destruct (g x s); simpl; auto.
Qed.



Section LineSym.
Variable F : Type.
Variable float64 : Z -> F.
Variable fabs : F -> F.
Variables fgt fge : F -> F -> bool.
Hypothesis fabs_opp : forall z, fabs (float64 (- z)) = fabs (float64 z).
Hypothesis fabs_pos : forall z, z <> 0 -> fgt (fabs (float64 z)) (fabs (float64 0)) = true.
Hypothesis fabs_zero : forall z, fgt (fabs (float64 0)) (fabs (float64 z)) = false.



End LineSym.






(** ** Crossings of the scanline fill *)

Lemma length_flat_map_cond {A B} (c : A -> bool) (g : A -> B) l :
  List.length (flat_map (fun i => if c i then [g i] else []) l) = list_sum (map (fun i => b2n (c i)) l).
Proof. induction l as [|a l IH]; simpl; [reflexivity|]. destruct (c a); simpl; lia. Qed.

Lemma list_sum_map_add {A} (f g : A -> nat) l :
  list_sum (map (fun i => (f i + g i)%nat) l) = (list_sum (map f l) + list_sum (map g l))%nat.
Proof. induction l; simpl; lia. Qed.

Lemma list_sum_map_ext {A} (f g : A -> nat) l :
  (forall i, In i l -> f i = g i) -> list_sum (map f l) = list_sum (map g l).
Proof. intros H. now rewrite (map_ext_in f g l H). Qed.

Lemma sum_rotate (g : nat -> nat) n :
  list_sum (map (fun i => g ((i + 1) mod n)%nat) (seq 0 n)) = list_sum (map g (seq 0 n)).
Proof.
  destruct n as [|m]; [reflexivity|].
  rewrite seq_S at 1. rewrite map_app, list_sum_app. cbn [map list_sum].
  rewrite Nat.add_0_l. replace ((m + 1) mod Datatypes.S m)%nat with 0%nat
    by (replace (m + 1)%nat with (1 * Datatypes.S m)%nat by lia; now rewrite Nat.Div0.mod_mul).
  cbn [seq map list_sum]. rewrite <- seq_shift, map_map.
  rewrite (list_sum_map_ext (fun i => g ((i + 1) mod Datatypes.S m)%nat) (fun x => g (Datatypes.S x))).
  - unfold list_sum; simpl. lia.
  - intros i Hi. apply in_seq in Hi. f_equal. rewrite Nat.mod_small; lia.
Qed.

Lemma list_sum_cons' x l : list_sum (x :: l) = (x + list_sum l)%nat.
Proof. reflexivity. Qed.

Lemma list_sum_map_double {A} (h : A -> nat) l :
  list_sum (map (fun i => (2 * h i)%nat) l) = (2 * list_sum (map h l))%nat.
Proof. induction l as [|a l IH]; [reflexivity|]. cbn [map]. rewrite !list_sum_cons'. lia. Qed.

Lemma xor_cycle_even (f : nat -> bool) n :
  Nat.Even (list_sum (map (fun i => b2n (xorb (f i) (f ((i + 1) mod n)%nat))) (seq 0 n))).
Proof.
  assert (H1 : list_sum (map (fun i => (b2n (xorb (f i) (f ((i + 1) mod n)%nat))
                                        + 2 * b2n (f i && f ((i + 1) mod n)%nat))%nat) (seq 0 n))
             = list_sum (map (fun i => (b2n (f i) + b2n (f ((i + 1) mod n)%nat))%nat) (seq 0 n))).
  { apply list_sum_map_ext. intros i _. destruct (f i), (f ((i + 1) mod n)%nat); reflexivity. }
  rewrite !list_sum_map_add, list_sum_map_double in H1.
  pose proof (sum_rotate (fun k => b2n (f k)) n) as R. cbn beta in R. rewrite R in H1.
  match type of H1 with (?sx + 2 * ?sa = ?sf + ?sf)%nat => exists (sf - sa)%nat; lia end.
Qed.

Lemma edge_crosses_xorb pi pj y :
  edge_crosses pi pj y = xorb (Y pi <? y) (Y pj <? y).
Proof.
  unfold edge_crosses.
  destruct (Z.ltb_spec (Y pi) y), (Z.ltb_spec (Y pj) y), (Z.leb_spec y (Y pj)), (Z.leb_spec y (Y pi));
    simpl; reflexivity || lia.
Qed.

Lemma insert_sorted_length v l : List.length (insert_sorted v l) = Datatypes.S (List.length l).
Proof. induction l as [|a l IH]; simpl; [reflexivity|]. destruct (v <=? a); simpl; auto. Qed.

Lemma sort_Ints_length l : List.length (sort_Ints l) = List.length l.
Proof. induction l as [|a l IH]; simpl; [reflexivity|]. now rewrite insert_sorted_length, IH. Qed.

Lemma spans_even l :
  (Nat.Even (List.length l) -> exists s, spans l = Ok s) /\
  (forall a, Nat.Even (List.length (a :: l)) -> exists s, spans (a :: l) = Ok s).
Proof.
  induction l as [|b l [IH1 IH2]].
  - split.
    + intros _. exists []. reflexivity.
    + intros a [k Hk]. simpl in Hk. lia.
  - split.
    + apply IH2.
    + intros a He. destruct IH1 as [s Hs].
      * destruct He as [k Hk]. simpl in Hk. exists (k - 1)%nat. lia.
      * exists ((a, b) :: s). simpl. now rewrite Hs.
Qed.

(** C10: in the scanline [DrawFilledPolygon] of [part_002], for every
    closed vertex list (empty or not) and every row [y], whatever the
    [float64] arithmetic: the half-open test counts an even number of
    crossings (an edge counts when exactly one end lies below [y], and going
    round the cycle changes sides an even number of times); an edge that
    counts has end points of distinct [Y], so its interpolation never divides
    by zero; and the pairing [intersections[i], intersections[i+1]] of the
    sorted crossings is always in range. *)
Theorem C10_scanline_crossings_pair_up F float64 fadd fmul fdiv ftrunc
  (points : list Point) (y : Z) :
  Nat.Even (List.length (intersections F float64 fadd fmul fdiv ftrunc points y)) /\
  (forall i, implb (edge_crosses (edge_start points i) (edge_end points i) y)
                   (negb (Y (edge_start points i) =? Y (edge_end points i))) = true) /\
  exists sp, spans (sort_Ints (intersections F float64 fadd fmul fdiv ftrunc points y)) = Ok sp.
Proof.
  assert (He : Nat.Even (List.length (intersections F float64 fadd fmul fdiv ftrunc points y))).
  { unfold intersections. rewrite length_flat_map_cond.
    rewrite (list_sum_map_ext _ (fun i => b2n (xorb ((fun k => Y (nth k points (mkPoint 0 0)) <? y) i)
               ((fun k => Y (nth k points (mkPoint 0 0)) <? y) ((i + 1) mod List.length points)%nat)))).
    - exact (xor_cycle_even (fun k => Y (nth k points (mkPoint 0 0)) <? y) (List.length points)).
    - intros i _. now rewrite edge_crosses_xorb. }
  split; [exact He|]. split.
  - intros i. rewrite edge_crosses_xorb.
    destruct (Z.ltb_spec (Y (edge_start points i)) y), (Z.ltb_spec (Y (edge_end points i)) y),
      (Z.eqb_spec (Y (edge_start points i)) (Y (edge_end points i))); simpl; reflexivity || lia.
  - apply spans_even. now rewrite sort_Ints_length.
Qed.

Lemma C10_witness :
  sort_Ints (intersections Q q_float64 Qplus Qmult Qdiv q_trunc notched 5) = [0; 3; 5; 8] /\
  exists sp, spans (sort_Ints (intersections Q q_float64 Qplus Qmult Qdiv q_trunc notched 5)) = Ok sp.
Proof.
  split; [vm_compute; reflexivity|].
  exact (proj2 (proj2 (C10_scanline_crossings_pair_up Q q_float64 Qplus Qmult Qdiv q_trunc notched 5))).
Defined.

(** ** Whole-image operations *)

Lemma for_range_inv {S} (P : Z -> S -> Prop) n : forall x (body : Z -> S -> outcome S) s,
  P x s ->
  (forall k s, x <= k < x + Z.of_nat n -> P k s ->
     exists s', body k s = Ok s' /\ P (k + 1) s') ->
  exists s', for_range n x body s = Ok s' /\ P (x + Z.of_nat n) s'.
Proof.
  induction n as [|n IH]; intros x body s H0 Hb; cbn [for_range].
  - exists s. split; [reflexivity|]. now rewrite Z.add_0_r.
  - destruct (Hb x s ltac:(lia) H0) as [s1 [E1 H1]]. rewrite E1; cbn [bind].
    destruct (IH (x + 1) body s1 H1) as [s' [E P']].
    + intros k s2 Hk Hs2. apply Hb; [lia|exact Hs2].
    + exists s'. split; [exact E|].
      replace (x + Z.of_nat (Datatypes.S n)) with (x + 1 + Z.of_nat n) by lia. exact P'.
Qed.

Lemma set_nth_spec {A} (l : list A) i v : (i < List.length l)%nat ->
  exists l', set_nth l i v = Some l' /\ List.length l' = List.length l /\
    forall j, nth_error l' j = if Nat.eqb j i then Some v else nth_error l j.
Proof.
  revert i; induction l as [|a l IH]; intros i Hi; simpl in Hi; [lia|].
  destruct i as [|i]; simpl.
  - exists (v :: l). split; [reflexivity|]. split; [reflexivity|].
    intros [|j]; reflexivity.
  - destruct (IH i ltac:(lia)) as [l' [E [L N]]]. rewrite E.
    exists (a :: l'). split; [reflexivity|]. split; [simpl; lia|].
    intros [|j]; simpl; [reflexivity|]. apply N.
Qed.

Lemma get_at_spec {A} (l : list A) (i : nat) : (i < List.length l)%nat ->
  exists v, nth_error l i = Some v /\ get_at l (Z.of_nat i) = Ok v.
Proof.
  intros Hi. destruct (nth_error l i) as [v|] eqn:E.
  - exists v. split; [reflexivity|]. unfold get_at.
    replace (Z.of_nat i <? 0) with false by lia. rewrite Nat2Z.id, E. reflexivity.
  - apply nth_error_None in E. lia.
Qed.

Lemma set_at_spec {A} (l : list A) (i : nat) v : (i < List.length l)%nat ->
  exists l', set_at l (Z.of_nat i) v = Ok l' /\ List.length l' = List.length l /\
    forall j, nth_error l' j = if Nat.eqb j i then Some v else nth_error l j.
Proof.
  intros Hi. destruct (set_nth_spec l i v Hi) as [l' [E H]].
  exists l'. split; [|exact H]. unfold set_at.
  replace (Z.of_nat i <? 0) with false by lia. rewrite Nat2Z.id, E. reflexivity.
Qed.

(** [s[i], s[j] = s[j], s[i]] exchanges the two entries. *)
Lemma swap_at_spec {A} (l : list A) (i j : nat) :
  (i < List.length l)%nat -> (j < List.length l)%nat ->
  exists l', swap_at l (Z.of_nat i) (Z.of_nat j) = Ok l' /\
    List.length l' = List.length l /\
    forall k, nth_error l' k =
      nth_error l (if Nat.eqb k j then i else if Nat.eqb k i then j else k).
Proof.
  intros Hi Hj. unfold swap_at.
  destruct (get_at_spec l j Hj) as [vj [Ej Gj]]. rewrite Gj; simpl.
  destruct (get_at_spec l i Hi) as [vi [Ei Gi]]. rewrite Gi; simpl.
  destruct (set_at_spec l i vj Hi) as [l1 [S1 [L1 N1]]]. rewrite S1; simpl.
  destruct (set_at_spec l1 j vi ltac:(lia)) as [l2 [S2 [L2 N2]]]. rewrite S2.
  exists l2. split; [reflexivity|]. split; [lia|].
  intros k. rewrite N2, N1.
  destruct (Nat.eqb_spec k j); destruct (Nat.eqb_spec k i); subst; congruence.
Qed.

Ltac bool_facts H :=
  repeat (rewrite ?Bool.orb_true_iff, ?Bool.orb_false_iff, ?Bool.andb_true_iff,
            ?Bool.andb_false_iff, ?Z.ltb_lt, ?Z.ltb_ge, ?Z.leb_le, ?Z.leb_gt,
            ?Z.eqb_eq, ?Z.eqb_neq, ?Nat.ltb_lt, ?Nat.ltb_ge, ?Nat.leb_le,
            ?Nat.leb_gt, ?Nat.eqb_eq, ?Nat.eqb_neq in H).

Ltac case_ifs :=
  repeat match goal with
         | |- context [if ?c then _ else _] =>
             let H := fresh "C" in destruct c eqn:H; bool_facts H
         end.

Lemma iters_half (N : nat) : iters_excl 0 (Z.quot (Z.of_nat N) 2) = (N / 2)%nat.
Proof.
  unfold iters_excl. rewrite Z.sub_0_r, Z.quot_div_nonneg by lia.
  change 2 with (Z.of_nat 2). rewrite <- Nat2Z.inj_div. apply Nat2Z.id.
Qed.

(** The half-length swap loop of [Flip] and [Flop] reverses a slice. *)
Lemma swap_loop_rev {A} (l : list A) :
  for_range (iters_excl 0 (Z.quot (Z.of_nat (List.length l)) 2)) 0
    (fun j s => swap_at s j (Z.of_nat (List.length l) - j - 1)) l = Ok (rev l).
Proof.
  set (N := List.length l). rewrite iters_half.
  pose proof (Nat.div_mod N 2 ltac:(lia)) as HD.
  pose proof (Nat.mod_upper_bound N 2 ltac:(lia)) as HM.
  set (sigma := fun (k : Z) (i : nat) =>
         if (Z.of_nat i <? k) || (Z.of_nat N - k <=? Z.of_nat i) then (N - 1 - i)%nat else i).
  destruct (for_range_inv (fun k s => List.length s = N /\
              forall i, (i < N)%nat -> nth_error s i = nth_error l (sigma k i))
              (N / 2) 0
              (fun j s => swap_at s j (Z.of_nat N - j - 1)) l) as [s' [E [L' H']]].
  - split; [reflexivity|]. intros i Hi. unfold sigma.
    replace ((Z.of_nat i <? 0) || (Z.of_nat N - 0 <=? Z.of_nat i)) with false by lia.
    reflexivity.
  - intros k s Hk [Ls Hs].
    set (a := Z.to_nat k). set (b := (N - 1 - a)%nat).
    replace k with (Z.of_nat a) in * by (unfold a; lia).
    replace (Z.of_nat N - Z.of_nat a - 1) with (Z.of_nat b) by (unfold b, a; lia).
    destruct (swap_at_spec s a b ltac:(unfold a; lia) ltac:(unfold b, a; lia))
      as [s2 [E2 [L2 N2]]].
    exists s2. split; [exact E2|]. split; [lia|].
    intros i Hi. rewrite N2. unfold sigma in *.
    destruct (Nat.eqb_spec i b); [|destruct (Nat.eqb_spec i a)].
    + rewrite Hs by (unfold a; lia). subst i. f_equal. unfold b, a in *.
      case_ifs; lia.
    + rewrite Hs by lia. subst i. unfold b, a in *.
      case_ifs; f_equal; lia.
    + rewrite Hs by lia. unfold b, a in *.
      case_ifs; f_equal; lia.
  - rewrite E. f_equal. apply nth_error_ext. intros i.
    rewrite nth_error_rev. fold N.
    destruct (Nat.ltb_spec i N).
    + rewrite H' by lia. unfold sigma.
      case_ifs; f_equal; lia.
    + apply nth_error_None. lia.
Qed.

Lemma set_nth_twice {A} (l l1 : list A) i a b :
  set_nth l i a = Some l1 -> set_nth l1 i b = set_nth l i b.
Proof.
  revert i l1; induction l as [|x l IH]; intros i l1 E; [discriminate|].
  destruct i as [|i]; simpl in *.
  - inversion E; reflexivity.
  - destruct (set_nth l i a) as [l2|] eqn:E2; [|discriminate].
    inversion E; subst; simpl. rewrite (IH i l2 E2). reflexivity.
Qed.

Lemma set_nth_same {A} (l : list A) i a :
  nth_error l i = Some a -> set_nth l i a = Some l.
Proof.
  revert i; induction l as [|x l IH]; intros i E; [destruct i; discriminate|].
  destruct i as [|i]; simpl in *.
  - inversion E; reflexivity.
  - rewrite (IH i E). reflexivity.
Qed.

Lemma get_at_nth {A} (l : list A) i v : nth_error l i = Some v -> get_at l (Z.of_nat i) = Ok v.
Proof.
  intros E. unfold get_at. replace (Z.of_nat i <? 0) with false by lia.
  rewrite Nat2Z.id, E. reflexivity.
Qed.

(** [data[y][x]] reads the row, then the entry. *)
Lemma at2_get {A} (d : list (list A)) x y :
  at2 d x y = (row <- get_at d y ;; get_at row x).
Proof.
  unfold at2, get_at.
  destruct (y <? 0); simpl; [reflexivity|].
  destruct (nth_error d (Z.to_nat y)); simpl; [|destruct (x <? 0); reflexivity].
  destruct (x <? 0); reflexivity.
Qed.

(** [data[y][x] = v] writes the entry of the row. *)
Lemma set2_get {A} (d : list (list A)) x y v :
  set2 d x y v = (row <- get_at d y ;; row' <- set_at row x v ;; set_at d y row').
Proof.
  unfold set2, get_at, set_at.
  destruct (y <? 0) eqn:Hy; simpl; [reflexivity|].
  destruct (nth_error d (Z.to_nat y)) eqn:E; simpl; [|destruct (x <? 0); reflexivity].
  destruct (x <? 0); simpl; [reflexivity|].
  destruct (set_nth l (Z.to_nat x) v); simpl; [|reflexivity].
  destruct (set_nth d (Z.to_nat y) l0); reflexivity.
Qed.

(** A loop that rewrites row [i] through [get_at]/[set_at] computes the
    row loop on that row alone. *)
Lemma for_range_row {A} n : forall x (body : Z -> list A -> outcome (list A))
  (d : list (list A)) i r,
  nth_error d i = Some r ->
  for_range n x (fun j d => row <- get_at d (Z.of_nat i) ;; row' <- body j row ;;
                            set_at d (Z.of_nat i) row') d
  = (r' <- for_range n x body r ;; set_at d (Z.of_nat i) r').
Proof.
  induction n as [|n IH]; intros x body d i r E; cbn [for_range].
  - simpl. unfold set_at. replace (Z.of_nat i <? 0) with false by lia.
    rewrite Nat2Z.id, (set_nth_same d i r E). reflexivity.
  - rewrite (get_at_nth d i r E). cbn [bind].
    destruct (body x r) as [r1| |]; cbn [bind]; [|reflexivity|reflexivity].
    assert (Hi : (i < List.length d)%nat)
      by (apply nth_error_Some; rewrite E; discriminate).
    destruct (set_at_spec d i r1 Hi) as [d1 [S1 [L1 N1]]]. rewrite S1. cbn [bind].
    rewrite (IH (x + 1) body d1 i r1) by (rewrite N1, Nat.eqb_refl; reflexivity).
    destruct (for_range n (x + 1) body r1) as [r'| |]; cbn [bind]; try reflexivity.
    unfold set_at in *. replace (Z.of_nat i <? 0) with false in * by lia.
    rewrite Nat2Z.id in *.
    destruct (set_nth d i r1) as [d2|] eqn:E2; [|discriminate].
    inversion S1; subst d2. rewrite (set_nth_twice d d1 i r1 r' E2). reflexivity.
Qed.

(** Running a row loop on each row of the grid. *)
Lemma for_rows {A} (g : list A -> list A) (body : Z -> list A -> outcome (list A)) n
  (data : list (list A)) :
  (forall r, In r data -> for_range n 0 body r = Ok (g r)) ->
  for_range (List.length data) 0 (fun i d =>
    for_range n 0 (fun j d => row <- get_at d i ;; row' <- body j row ;;
                              set_at d i row') d) data
  = Ok (map g data).
Proof.
  intros Hg.
  destruct (for_range_inv (fun i d => List.length d = List.length data /\
              forall k, nth_error d k =
                if (Z.of_nat k <? i) then option_map g (nth_error data k) else nth_error data k)
              (List.length data) 0 (fun i d =>
                 for_range n 0 (fun j d => row <- get_at d i ;; row' <- body j row ;;
                                           set_at d i row') d) data)
    as [d' [E [L' H']]].
  - split; [reflexivity|]. intros k. replace (Z.of_nat k <? 0) with false by lia. reflexivity.
  - intros k d Hk [Ld Hd].
    set (i := Z.to_nat k). replace k with (Z.of_nat i) in * by (unfold i; lia).
    destruct (nth_error data i) as [r|] eqn:Er;
      [|apply nth_error_None in Er; lia].
    assert (Edi : nth_error d i = Some r)
      by (rewrite Hd; replace (Z.of_nat i <? Z.of_nat i) with false by lia; exact Er).
    rewrite (for_range_row n 0 body d i r Edi).
    rewrite (Hg r (nth_error_In data i Er)). cbn [bind].
    destruct (set_at_spec d i (g r) ltac:(lia)) as [d1 [S1 [L1 N1]]].
    exists d1. split; [exact S1|]. split; [lia|].
    intros m. rewrite N1. destruct (Nat.eqb_spec m i).
    + subst m. rewrite Er. replace (Z.of_nat i <? Z.of_nat i + 1) with true by lia.
      reflexivity.
    + rewrite Hd. case_ifs; try lia; reflexivity.
  - rewrite E. f_equal. apply nth_error_ext. intros k.
    rewrite H', nth_error_map. case_ifs; [reflexivity|].
    rewrite (proj2 (nth_error_None data k)) by lia. reflexivity.
Qed.

Lemma grid_wf_spec {A} (d : list (list A)) w h : grid_wf d w h = true ->
  Z.of_nat (List.length d) = h /\ forall row, In row d -> Z.of_nat (List.length row) = w.
Proof.
  unfold grid_wf. rewrite Bool.andb_true_iff, Z.eqb_eq, forallb_forall.
  intros [H1 H2]. split; [exact H1|]. intros row Hr. apply Z.eqb_eq, H2, Hr.
Qed.

Lemma flip_rows_rev {A} (data : list (list A)) w :
  (forall row, In row data -> Z.of_nat (List.length row) = w) ->
  flip_rows data (Z.of_nat (List.length data)) w = Ok (map (@rev A) data).
Proof.
  intros Hw. unfold flip_rows. rewrite Nat2Z.id.
  apply for_rows. intros r Hr. rewrite <- (Hw r Hr). apply swap_loop_rev.
Qed.

Lemma flop_rows_rev {A} (data : list A) :
  flop_rows data (Z.of_nat (List.length data)) = Ok (rev data).
Proof. apply swap_loop_rev. Qed.

Lemma map_row_loop {A} (f : A -> A) (r : list A) :
  for_range (List.length r) 0 (fun j row => v <- get_at row j ;; set_at row j (f v)) r
  = Ok (map f r).
Proof.
  destruct (for_range_inv (fun k row => List.length row = List.length r /\
              forall m, nth_error row m =
                if (Z.of_nat m <? k) then option_map f (nth_error r m) else nth_error r m)
              (List.length r) 0 (fun j row => v <- get_at row j ;; set_at row j (f v)) r)
    as [r' [E [L' H']]].
  - split; [reflexivity|]. intros m. replace (Z.of_nat m <? 0) with false by lia. reflexivity.
  - intros k row Hk [Lr Hr].
    set (i := Z.to_nat k). replace k with (Z.of_nat i) in * by (unfold i; lia).
    destruct (nth_error r i) as [a|] eqn:Ea; [|apply nth_error_None in Ea; lia].
    assert (Ei : nth_error row i = Some a)
      by (rewrite Hr; replace (Z.of_nat i <? Z.of_nat i) with false by lia; exact Ea).
    rewrite (get_at_nth row i a Ei). cbn [bind].
    destruct (set_at_spec row i (f a) ltac:(lia)) as [row1 [S1 [L1 N1]]].
    exists row1. split; [exact S1|]. split; [lia|].
    intros m. rewrite N1. destruct (Nat.eqb_spec m i).
    + subst m. rewrite Ea. replace (Z.of_nat i <? Z.of_nat i + 1) with true by lia.
      reflexivity.
    + rewrite Hr. case_ifs; try lia; reflexivity.
  - rewrite E. f_equal. apply nth_error_ext. intros m.
    rewrite H', nth_error_map. case_ifs; [reflexivity|].
    rewrite (proj2 (nth_error_None r m)) by lia. reflexivity.
Qed.

Lemma update_grid_map {A} (f : A -> A) (data : list (list A)) w h :
  grid_wf data w h = true -> update_grid f data w h = Ok (map (map f) data).
Proof.
  intros Hwf. destruct (grid_wf_spec data w h Hwf) as [Hh Hw].
  unfold update_grid. rewrite <- Hh, Nat2Z.id.
  rewrite (for_range_ext _ 0 _ (fun i d =>
    for_range (Z.to_nat w) 0 (fun j d => row <- get_at d i ;;
      row' <- (v <- get_at row j ;; set_at row j (f v)) ;; set_at d i row') d)).
  - apply (for_rows (map f)). intros r Hr. rewrite <- (Hw r Hr), Nat2Z.id.
    apply map_row_loop.
  - intros i d. apply for_range_ext. intros j d'.
    rewrite at2_get.
    destruct (get_at d' i) as [row| |] eqn:E; cbn [bind]; [|reflexivity|reflexivity].
    destruct (get_at row j) as [v| |]; cbn [bind]; [|reflexivity|reflexivity].
    rewrite set2_get, E. reflexivity.
Qed.

Lemma wrap8_invert_twice m v : is_byte v = true -> wrap8 (m - wrap8 (m - v)) = v.
Proof.
  unfold is_byte, wrap8. intros H. rewrite Zminus_mod_idemp_r.
  replace (m - (m - v)) with v by lia. apply Z.mod_small. lia.
Qed.

Lemma grid_wf_map_rev {A} (d : list (list A)) w h :
  grid_wf d w h = true -> grid_wf (map (@rev A) d) w h = true.
Proof.
  unfold grid_wf. rewrite length_map.
  intros H. rewrite Bool.andb_true_iff in *. destruct H as [H1 H2]. split; [exact H1|].
  rewrite forallb_forall in *. intros row Hr. apply in_map_iff in Hr.
  destruct Hr as [r [<- Hr]]. rewrite length_rev. apply H2, Hr.
Qed.

Lemma grid_wf_rev {A} (d : list (list A)) w h :
  grid_wf d w h = true -> grid_wf (rev d) w h = true.
Proof.
  unfold grid_wf. rewrite length_rev.
  intros H. rewrite Bool.andb_true_iff in *. destruct H as [H1 H2]. split; [exact H1|].
  rewrite forallb_forall in *. intros row Hr. apply H2, in_rev, Hr.
Qed.

Lemma map_rev_involutive {A} (d : list (list A)) : map (@rev A) (map (@rev A) d) = d.
Proof. rewrite map_map. erewrite map_ext; [apply map_id|]. intros a. apply rev_involutive. Qed.

(** [Flip] mirrors every row, [Flop] reverses the order of the rows, and
    [Invert] negates every pixel of a bitmap; each of them undoes itself. *)
(** [PBM.Flip], [PBM.Flop] and [PBM.Invert] of [pbm.go]: on a well-formed
    bitmap ([height] rows of [width] pixels) [Flip] reverses every row and
    [Flop] reverses the order of the rows, neither panics, and each of the
    three operations undoes itself. *)
Theorem PBM_flip_flop_invert (pbm : PBM) :
  grid_wf (pbm_data pbm) (pbm_width pbm) (pbm_height pbm) = true ->
  PBM_Flip pbm = Ok (mkPBM (map (@rev bool) (pbm_data pbm)) (pbm_width pbm)
                       (pbm_height pbm) (pbm_magicNumber pbm)) /\
  PBM_Flop pbm = Ok (mkPBM (rev (pbm_data pbm)) (pbm_width pbm)
                       (pbm_height pbm) (pbm_magicNumber pbm)) /\
  bind (PBM_Flip pbm) PBM_Flip = Ok pbm /\
  bind (PBM_Flop pbm) PBM_Flop = Ok pbm /\
  PBM_Invert (PBM_Invert pbm) = pbm.
Proof.
  destruct pbm as [d w h m]; simpl. intros Hwf.
  destruct (grid_wf_spec d w h Hwf) as [Hh Hw].
  assert (F1 : PBM_Flip (mkPBM d w h m) = Ok (mkPBM (map (@rev bool) d) w h m))
    by (unfold PBM_Flip; simpl; rewrite (flip_rows_rev d w Hw); reflexivity).
  assert (F2 : PBM_Flop (mkPBM d w h m) = Ok (mkPBM (rev d) w h m))
    by (unfold PBM_Flop; simpl; rewrite <- Hh, flop_rows_rev; reflexivity).
  split; [exact F1|]. split; [exact F2|]. split; [|split].
  - rewrite F1; cbn [bind]. unfold PBM_Flip; simpl.
    destruct (grid_wf_spec _ w h (grid_wf_map_rev d w h Hwf)) as [_ Hw'].
    rewrite (flip_rows_rev _ w Hw'), map_rev_involutive. reflexivity.
  - rewrite F2; cbn [bind]. unfold PBM_Flop; simpl.
    replace h with (Z.of_nat (List.length (rev d))) by (rewrite length_rev; exact Hh).
    rewrite flop_rows_rev, rev_involutive. reflexivity.
  - unfold PBM_Invert; simpl. rewrite map_map.
    erewrite map_ext; [rewrite map_id; reflexivity|].
    intros row. rewrite map_map. erewrite map_ext; [apply map_id|].
    intros b. apply negb_involutive.
Qed.

Lemma PBM_flip_flop_invert_witness :
  PBM_Flip b3x2 = Ok (mkPBM [[false; false; true]; [true; true; false]] 3 2 P1) /\
  bind (PBM_Flop b3x2) PBM_Flop = Ok b3x2.
Proof.
  destruct (PBM_flip_flop_invert b3x2 eq_refl) as [E1 [_ [_ [E4 _]]]].
  split; [exact E1 | exact E4].
Defined.

(** The same for graymaps, [pgm.go] and the older [PGM] of [pbm.go]. *)
(** [PGM.Flip] and [PGM.Flop] (the same code in [pgm.go] and [pbm.go]): on a
    well-formed graymap [Flip] reverses every row, [Flop] reverses the order
    of the rows, neither panics, and each undoes itself. *)
Theorem PGM_flip_flop (pgm : PGM) :
  grid_wf (pgm_data pgm) (pgm_width pgm) (pgm_height pgm) = true ->
  PGM_Flip pgm = Ok (mkPGM (map (@rev Z) (pgm_data pgm)) (pgm_width pgm)
                       (pgm_height pgm) (pgm_magicNumber pgm) (pgm_max pgm)) /\
  PGM_Flop pgm = Ok (mkPGM (rev (pgm_data pgm)) (pgm_width pgm)
                       (pgm_height pgm) (pgm_magicNumber pgm) (pgm_max pgm)) /\
  bind (PGM_Flip pgm) PGM_Flip = Ok pgm /\
  bind (PGM_Flop pgm) PGM_Flop = Ok pgm.
Proof.
  destruct pgm as [d w h m mx]; simpl. intros Hwf.
  destruct (grid_wf_spec d w h Hwf) as [Hh Hw].
  assert (F1 : PGM_Flip (mkPGM d w h m mx) = Ok (mkPGM (map (@rev Z) d) w h m mx))
    by (unfold PGM_Flip; simpl; rewrite <- Hh, (flip_rows_rev d w Hw); reflexivity).
  assert (F2 : PGM_Flop (mkPGM d w h m mx) = Ok (mkPGM (rev d) w h m mx))
    by (unfold PGM_Flop; simpl; rewrite <- Hh, flop_rows_rev; reflexivity).
  split; [exact F1|]. split; [exact F2|]. split.
  - rewrite F1; cbn [bind]. unfold PGM_Flip; simpl.
    destruct (grid_wf_spec _ w h (grid_wf_map_rev d w h Hwf)) as [Hh' Hw'].
    rewrite <- Hh', (flip_rows_rev _ w Hw'), map_rev_involutive. reflexivity.
  - rewrite F2; cbn [bind]. unfold PGM_Flop; simpl.
    replace h with (Z.of_nat (List.length (rev d))) by (rewrite length_rev; exact Hh).
    rewrite flop_rows_rev, rev_involutive. reflexivity.
Qed.

Lemma PGM_flip_flop_witness :
  PGM_Flop g3x2 = Ok (mkPGM [[40; 50; 60]; [1; 2; 3]] 3 2 P2 255) /\
  bind (PGM_Flip g3x2) PGM_Flip = Ok g3x2.
Proof.
  destruct (PGM_flip_flop g3x2 eq_refl) as [_ [E2 [E3 _]]].
  split; [exact E2 | exact E3].
Defined.

(** The same for pixmaps, [ppm.go] and [part_002]. *)
(** [PPM.Flip] and [PPM.Flop] (the same code in [ppm.go] and [part_002]): on
    a well-formed pixmap [Flip] reverses every row, [Flop] reverses the order
    of the rows, neither panics, and each undoes itself. *)
Theorem PPM_flip_flop (ppm : PPM) :
  grid_wf (ppm_data ppm) (ppm_width ppm) (ppm_height ppm) = true ->
  PPM_Flip ppm = Ok (with_data ppm (map (@rev Pixel) (ppm_data ppm))) /\
  PPM_Flop ppm = Ok (with_data ppm (rev (ppm_data ppm))) /\
  bind (PPM_Flip ppm) PPM_Flip = Ok ppm /\
  bind (PPM_Flop ppm) PPM_Flop = Ok ppm.
Proof.
  destruct ppm as [d w h m mx]; unfold with_data; simpl. intros Hwf.
  destruct (grid_wf_spec d w h Hwf) as [Hh Hw].
  assert (F1 : PPM_Flip (mkPPM d w h m mx) = Ok (mkPPM (map (@rev Pixel) d) w h m mx))
    by (unfold PPM_Flip; simpl; rewrite <- Hh, (flip_rows_rev d w Hw); reflexivity).
  assert (F2 : PPM_Flop (mkPPM d w h m mx) = Ok (mkPPM (rev d) w h m mx))
    by (unfold PPM_Flop; simpl; rewrite <- Hh, flop_rows_rev; reflexivity).
  split; [exact F1|]. split; [exact F2|]. split.
  - rewrite F1; cbn [bind]. unfold PPM_Flip; simpl.
    destruct (grid_wf_spec _ w h (grid_wf_map_rev d w h Hwf)) as [Hh' Hw'].
    rewrite <- Hh', (flip_rows_rev _ w Hw'), map_rev_involutive. reflexivity.
  - rewrite F2; cbn [bind]. unfold PPM_Flop; simpl.
    replace h with (Z.of_nat (List.length (rev d))) by (rewrite length_rev; exact Hh).
    rewrite flop_rows_rev, rev_involutive. reflexivity.
Qed.

Lemma PPM_flip_flop_witness :
  bind (PPM_Flip p3x2) PPM_Flip = Ok p3x2 /\ bind (PPM_Flop p3x2) PPM_Flop = Ok p3x2.
Proof.
  destruct (PPM_flip_flop p3x2 eq_refl) as [_ [_ [E3 E4]]].
  split; [exact E3 | exact E4].
Defined.

Lemma grid_wf_map {A} (f : A -> A) (d : list (list A)) w h :
  grid_wf d w h = true -> grid_wf (map (map f) d) w h = true.
Proof.
  unfold grid_wf. rewrite length_map.
  intros H. rewrite Bool.andb_true_iff in *. destruct H as [H1 H2]. split; [exact H1|].
  rewrite forallb_forall in *. intros row Hr. apply in_map_iff in Hr.
  destruct Hr as [r [<- Hr]]. rewrite length_map. apply H2, Hr.
Qed.

(** [Invert] of a graymap replaces each sample [v] by [uint8(max - v)]; on
    samples that are bytes, inverting twice gives back the image. *)
(** [PGM.Invert]: on a well-formed graymap every sample [v] becomes
    [uint8(max - v)]; when every sample is a byte, inverting twice gives the
    image back, whatever [max] is. *)
Theorem PGM_invert_involutive (pgm : PGM) :
  grid_wf (pgm_data pgm) (pgm_width pgm) (pgm_height pgm) = true ->
  PGM_Invert pgm = Ok (mkPGM (map (map (fun v => wrap8 (pgm_max pgm - v))) (pgm_data pgm))
                        (pgm_width pgm) (pgm_height pgm) (pgm_magicNumber pgm) (pgm_max pgm)) /\
  (forallb (forallb is_byte) (pgm_data pgm) = true ->
   bind (PGM_Invert pgm) PGM_Invert = Ok pgm).
Proof.
  destruct pgm as [d w h m mx]; simpl. intros Hwf.
  assert (I1 : PGM_Invert (mkPGM d w h m mx) =
               Ok (mkPGM (map (map (fun v => wrap8 (mx - v))) d) w h m mx))
    by (unfold PGM_Invert; simpl; rewrite (update_grid_map _ d w h Hwf); reflexivity).
  split; [exact I1|]. intros Hb. rewrite I1; cbn [bind].
  unfold PGM_Invert; simpl.
  rewrite (update_grid_map _ _ w h (grid_wf_map _ d w h Hwf)). cbn [bind].
  rewrite map_map. erewrite map_ext_in; [rewrite map_id; reflexivity|].
  intros row Hr. rewrite map_map. erewrite map_ext_in; [apply map_id|].
  intros v Hv. apply wrap8_invert_twice.
  rewrite forallb_forall in Hb. specialize (Hb row Hr).
  rewrite forallb_forall in Hb. apply Hb, Hv.
Qed.

Lemma PGM_invert_involutive_witness :
  PGM_Invert g3x2 = Ok (mkPGM [[254; 253; 252]; [215; 205; 195]] 3 2 P2 255) /\
  bind (PGM_Invert g3x2) PGM_Invert = Ok g3x2.
Proof.
  destruct (PGM_invert_involutive g3x2 eq_refl) as [E1 E2].
  split; [exact E1 | exact (E2 eq_refl)].
Defined.

(** [Invert] of a pixmap replaces each channel [c] by [uint8(max) - c]; on
    channels that are bytes, inverting twice gives back the image. *)
(** [PPM.Invert]: on a well-formed pixmap every component [c] becomes
    [uint8(max - c)]; when every component is a byte, inverting twice gives
    the image back. *)
Theorem PPM_invert_involutive (ppm : PPM) :
  grid_wf (ppm_data ppm) (ppm_width ppm) (ppm_height ppm) = true ->
  PPM_Invert ppm = Ok (with_data ppm (map (map (fun p =>
      mkPixel (wrap8 (ppm_max ppm - R p)) (wrap8 (ppm_max ppm - G p))
              (wrap8 (ppm_max ppm - B p)))) (ppm_data ppm))) /\
  (forallb (forallb pixel_bytes) (ppm_data ppm) = true ->
   bind (PPM_Invert ppm) PPM_Invert = Ok ppm).
Proof.
  destruct ppm as [d w h m mx]; unfold with_data; simpl. intros Hwf.
  set (f := fun p => mkPixel (wrap8 (mx - R p)) (wrap8 (mx - G p)) (wrap8 (mx - B p))).
  assert (I1 : PPM_Invert (mkPPM d w h m mx) = Ok (mkPPM (map (map f) d) w h m mx))
    by (unfold PPM_Invert; simpl; rewrite (update_grid_map _ d w h Hwf); reflexivity).
  split; [exact I1|]. intros Hb. rewrite I1; cbn [bind].
  unfold PPM_Invert; simpl.
  rewrite (update_grid_map _ _ w h (grid_wf_map _ d w h Hwf)). cbn [bind].
  unfold with_data; simpl.
  rewrite map_map. erewrite map_ext_in; [rewrite map_id; reflexivity|].
  intros row Hr. rewrite map_map. erewrite map_ext_in; [apply map_id|].
  intros [r g b] Hv. rewrite forallb_forall in Hb. specialize (Hb row Hr).
  rewrite forallb_forall in Hb. specialize (Hb _ Hv). unfold pixel_bytes in Hb.
  simpl in Hb. rewrite !Bool.andb_true_iff in Hb. destruct Hb as [[Hr' Hg'] Hb'].
  unfold f; simpl. rewrite !wrap8_invert_twice by assumption. reflexivity.
Qed.

Lemma PPM_invert_involutive_witness :
  bind (PPM_Invert p3x2) PPM_Invert = Ok p3x2.
Proof.
  exact (proj2 (PPM_invert_involutive p3x2 eq_refl) eq_refl).
Defined.

(** ** Grids given by their entries *)

Lemma nth_error_tab {A} rows cols (c : nat -> nat -> A) y :
  nth_error (tab rows cols c) y =
  if (y <? rows)%nat then Some (map (fun x => c y x) (seq 0 cols)) else None.
Proof.
  unfold tab. rewrite nth_error_map, nth_error_seq.
  destruct (y <? rows)%nat; reflexivity.
Qed.

Lemma nth_error_tab_row {A} cols (f : nat -> A) x :
  nth_error (map f (seq 0 cols)) x = if (x <? cols)%nat then Some (f x) else None.
Proof.
  rewrite nth_error_map, nth_error_seq. destruct (x <? cols)%nat; reflexivity.
Qed.

Lemma length_tab {A} rows cols (c : nat -> nat -> A) : List.length (tab rows cols c) = rows.
Proof. unfold tab. rewrite length_map, length_seq. reflexivity. Qed.

Lemma nth_tab {A} rows cols (c : nat -> nat -> A) y x dflt :
  (y < rows)%nat -> (x < cols)%nat -> nth x (nth y (tab rows cols c) []) dflt = c y x.
Proof.
  intros Hy Hx. pose proof (nth_error_tab rows cols c y) as E.
  apply Nat.ltb_lt in Hy, Hx. rewrite Hy in E. rewrite (nth_error_nth _ _ _ E).
  apply nth_error_nth. rewrite nth_error_tab_row, Hx. reflexivity.
Qed.

Lemma tab_ext {A} rows cols (c c' : nat -> nat -> A) :
  (forall y x, (y < rows)%nat -> (x < cols)%nat -> c y x = c' y x) ->
  tab rows cols c = tab rows cols c'.
Proof.
  intros H. unfold tab. apply map_ext_in. intros y Hy. apply in_seq in Hy.
  apply map_ext_in. intros x Hx. apply in_seq in Hx. apply H; lia.
Qed.

Lemma at2_tab {A} rows cols (c : nat -> nat -> A) x y :
  (y < rows)%nat -> (x < cols)%nat ->
  at2 (tab rows cols c) (Z.of_nat x) (Z.of_nat y) = Ok (c y x).
Proof.
  intros Hy Hx. rewrite at2_get.
  rewrite (get_at_nth _ y (map (fun x => c y x) (seq 0 cols)))
    by (rewrite nth_error_tab; replace (y <? rows)%nat with true by lia; reflexivity).
  cbn [bind]. apply get_at_nth. rewrite nth_error_tab_row.
  replace (x <? cols)%nat with true by lia. reflexivity.
Qed.

Lemma set2_tab {A} rows cols (c : nat -> nat -> A) x y v :
  (y < rows)%nat -> (x < cols)%nat ->
  set2 (tab rows cols c) (Z.of_nat x) (Z.of_nat y) v =
  Ok (tab rows cols (fun y' x' => if Nat.eqb y' y && Nat.eqb x' x then v else c y' x')).
Proof.
  intros Hy Hx. rewrite set2_get.
  rewrite (get_at_nth _ y (map (fun x => c y x) (seq 0 cols)))
    by (rewrite nth_error_tab; replace (y <? rows)%nat with true by lia; reflexivity).
  cbn [bind].
  destruct (set_at_spec (map (fun x => c y x) (seq 0 cols)) x v)
    as [row' [S1 [L1 N1]]]; [rewrite length_map, length_seq; lia|].
  rewrite S1. cbn [bind].
  destruct (set_at_spec (tab rows cols c) y row') as [d' [S2 [L2 N2]]];
    [rewrite length_tab; lia|].
  rewrite S2. f_equal. apply nth_error_ext. intros k.
  rewrite N2, !nth_error_tab. destruct (Nat.eqb_spec k y).
  - subst k. replace (y <? rows)%nat with true by lia. f_equal.
    apply nth_error_ext. intros m. rewrite N1, !nth_error_tab_row.
    destruct (Nat.eqb_spec m x).
    + subst m. replace (x <? cols)%nat with true by lia. rewrite ?Nat.eqb_refl. reflexivity.
    + destruct (m <? cols)%nat; [|reflexivity].
      rewrite ?Nat.eqb_refl. simpl. reflexivity.
  - destruct (k <? rows)%nat; [|reflexivity].
    reflexivity.
Qed.

Lemma grid_tab {A} (d : list (list A)) w h dflt :
  grid_wf d w h = true -> 0 <= w ->
  d = tab (Z.to_nat h) (Z.to_nat w) (fun y x => nth x (nth y d []) dflt).
Proof.
  intros Hwf Hw0. destruct (grid_wf_spec d w h Hwf) as [Hh Hw].
  apply nth_error_ext. intros y. rewrite nth_error_tab.
  destruct (Nat.ltb_spec y (Z.to_nat h)).
  - destruct (nth_error d y) as [row|] eqn:E; [|apply nth_error_None in E; lia].
    rewrite (nth_error_nth d y [] E). f_equal.
    apply nth_error_ext. intros x. rewrite nth_error_tab_row.
    pose proof (Hw row (nth_error_In d y E)).
    destruct (Nat.ltb_spec x (Z.to_nat w)).
    + apply nth_error_nth'. lia.
    + apply nth_error_None. lia.
  - apply nth_error_None. lia.
Qed.

Lemma make_grid_tab {A} (zero : A) m n : 0 <= m -> 0 <= n ->
  make_grid zero m n = Ok (tab (Z.to_nat n) (Z.to_nat m) (fun _ _ => zero)).
Proof.
  intros Hm Hn. unfold make_grid.
  replace (n <? 0) with false by lia. replace (m <? 0) with false by lia.
  rewrite Bool.andb_false_r. unfold tab. f_equal.
  rewrite map_const, map_const, !length_seq. reflexivity.
Qed.

Lemma grid_wf_tab {A} rows cols (c : nat -> nat -> A) :
  grid_wf (tab rows cols c) (Z.of_nat cols) (Z.of_nat rows) = true.
Proof.
  unfold grid_wf. rewrite length_tab, Z.eqb_refl. simpl.
  apply forallb_forall. intros row Hr. unfold tab in Hr. apply in_map_iff in Hr.
  destruct Hr as [y [<- _]]. rewrite length_map, length_seq. apply Z.eqb_refl.
Qed.

Ltac solve_cells :=
  case_ifs; first [reflexivity | lia | (f_equal; lia) | (f_equal; f_equal; lia)].

(** [Rotate90CW] on a grid: entry [j][k] of the result is entry
    [rows-1-k][j] of the source. *)
Lemma rotate_tab {A} (zero : A) rows cols (c : nat -> nat -> A) :
  rotate_grid zero (tab rows cols c) (Z.of_nat cols) (Z.of_nat rows) =
  Ok (tab cols rows (fun j k => c (rows - 1 - k)%nat j)).
Proof.
  unfold rotate_grid. rewrite make_grid_tab by lia. rewrite !Nat2Z.id. cbn [bind].
  destruct (for_range_inv (fun i nd => nd = tab cols rows (fun j k =>
              if Z.of_nat (rows - 1 - k) <? i then c (rows - 1 - k)%nat j else zero))
              rows 0 (fun i nd => for_range cols 0 (fun j nd =>
                        v <- at2 (tab rows cols c) j i ;;
                        set2 nd (Z.of_nat rows - i - 1) j v) nd)
              (tab cols rows (fun _ _ => zero))) as [nd [E Hnd]].
  - apply tab_ext. intros j k Hj Hk. solve_cells.
  - intros i nd Hi ->.
    set (ii := Z.to_nat i). replace i with (Z.of_nat ii) in * by (unfold ii; lia).
    destruct (for_range_inv (fun jj nd => nd = tab cols rows (fun j k =>
                if (Z.of_nat (rows - 1 - k) <? Z.of_nat ii)
                   || ((Z.of_nat (rows - 1 - k) =? Z.of_nat ii) && (Z.of_nat j <? jj))
                then c (rows - 1 - k)%nat j else zero))
                cols 0 (fun j nd =>
                  v <- at2 (tab rows cols c) j (Z.of_nat ii) ;;
                  set2 nd (Z.of_nat rows - Z.of_nat ii - 1) j v)
                (tab cols rows (fun j k =>
                  if Z.of_nat (rows - 1 - k) <? Z.of_nat ii
                  then c (rows - 1 - k)%nat j else zero))) as [nd' [E' Hnd']].
    + apply tab_ext. intros j k Hj Hk. solve_cells.
    + intros jz nd Hj ->.
      set (jj := Z.to_nat jz). replace jz with (Z.of_nat jj) in * by (unfold jj; lia).
      rewrite at2_tab by lia. cbn [bind].
      replace (Z.of_nat rows - Z.of_nat ii - 1) with (Z.of_nat (rows - 1 - ii)) by lia.
      rewrite set2_tab by lia. eexists. split; [reflexivity|].
      apply tab_ext. intros j k Hj' Hk. solve_cells.
    + exists nd'. split; [exact E'|]. rewrite Hnd'.
      apply tab_ext. intros j k Hj' Hk. solve_cells.
  - rewrite E, Hnd. f_equal. apply tab_ext. intros j k Hj Hk. solve_cells.
Qed.

Lemma PGM_rotate_tab rows cols c m mx :
  PGM_Rotate90CW (mkPGM (tab rows cols c) (Z.of_nat cols) (Z.of_nat rows) m mx) =
  Ok (mkPGM (tab cols rows (fun j k => c (rows - 1 - k)%nat j))
        (Z.of_nat rows) (Z.of_nat cols) m mx).
Proof. unfold PGM_Rotate90CW; simpl. rewrite rotate_tab. reflexivity. Qed.

Lemma PPM_rotate_tab rows cols c m mx :
  PPM_Rotate90CW (mkPPM (tab rows cols c) (Z.of_nat cols) (Z.of_nat rows) m mx) =
  Ok (mkPPM (tab cols rows (fun j k => c (rows - 1 - k)%nat j))
        (Z.of_nat rows) (Z.of_nat cols) m mx).
Proof. unfold PPM_Rotate90CW; simpl. rewrite rotate_tab. reflexivity. Qed.

(** [Rotate90CW] of a graymap: the sample at column [k] of row [j] of the
    result is the sample at column [j] of row [height-1-k] of the source, width
    and height are exchanged, and four rotations give back the image. *)
(** [PGM.Rotate90CW]: on a well-formed graymap the result has [width] rows
    of [height] samples, row [j] of the result holds column [j] of the image
    read from the bottom row up, width and height are swapped, and four
    rotations give the image back. *)
Theorem PGM_rotate90cw (pgm : PGM) :
  grid_wf (pgm_data pgm) (pgm_width pgm) (pgm_height pgm) = true ->
  0 <= pgm_width pgm ->
  PGM_Rotate90CW pgm =
    Ok (mkPGM (tab (Z.to_nat (pgm_width pgm)) (Z.to_nat (pgm_height pgm)) (fun j k =>
                 nth j (nth (Z.to_nat (pgm_height pgm) - 1 - k) (pgm_data pgm) []) 0))
              (pgm_height pgm) (pgm_width pgm) (pgm_magicNumber pgm) (pgm_max pgm)) /\
  bind (bind (bind (PGM_Rotate90CW pgm) PGM_Rotate90CW) PGM_Rotate90CW) PGM_Rotate90CW
    = Ok pgm.
Proof.
  destruct pgm as [d w h m mx]; simpl. intros Hwf Hw0.
  pose proof (grid_tab d w h 0 Hwf Hw0) as Ed.
  destruct (grid_wf_spec d w h Hwf) as [Hh _].
  set (W := Z.to_nat w) in *. set (H := Z.to_nat h) in *.
  set (c := fun y x => nth x (nth y d []) 0) in *.
  replace w with (Z.of_nat W) by (unfold W; lia).
  replace h with (Z.of_nat H) by (unfold H; lia).
  assert (R1 : PGM_Rotate90CW (mkPGM d (Z.of_nat W) (Z.of_nat H) m mx) =
    Ok (mkPGM (tab W H (fun j k => c (H - 1 - k)%nat j)) (Z.of_nat H) (Z.of_nat W) m mx))
    by (rewrite <- (PGM_rotate_tab H W c m mx), <- Ed; reflexivity).
  split; [exact R1|]. rewrite R1.
  cbn [bind]. rewrite PGM_rotate_tab. cbn [bind]. rewrite PGM_rotate_tab.
  cbn [bind]. rewrite PGM_rotate_tab. do 2 f_equal.
  rewrite Ed. apply tab_ext. intros y x Hy Hx. f_equal; lia.
Qed.

Lemma PGM_rotate90cw_witness :
  PGM_Rotate90CW g3x2 = Ok (mkPGM [[40; 1]; [50; 2]; [60; 3]] 2 3 P2 255) /\
  bind (bind (bind (PGM_Rotate90CW g3x2) PGM_Rotate90CW) PGM_Rotate90CW) PGM_Rotate90CW
    = Ok g3x2.
Proof.
  exact (PGM_rotate90cw g3x2 eq_refl ltac:(simpl; lia)).
Defined.

(** The same for pixmaps ([ppm.go] and [part_002]). *)
(** [PPM.Rotate90CW]: on a well-formed pixmap the result has [width] rows of
    [height] pixels, row [j] of the result holds column [j] of the image read
    from the bottom row up, width and height are swapped, and four rotations
    give the image back. *)
Theorem PPM_rotate90cw (ppm : PPM) :
  grid_wf (ppm_data ppm) (ppm_width ppm) (ppm_height ppm) = true ->
  0 <= ppm_width ppm ->
  PPM_Rotate90CW ppm =
    Ok (mkPPM (tab (Z.to_nat (ppm_width ppm)) (Z.to_nat (ppm_height ppm)) (fun j k =>
                 nth j (nth (Z.to_nat (ppm_height ppm) - 1 - k) (ppm_data ppm) []) black))
              (ppm_height ppm) (ppm_width ppm) (ppm_magicNumber ppm) (ppm_max ppm)) /\
  bind (bind (bind (PPM_Rotate90CW ppm) PPM_Rotate90CW) PPM_Rotate90CW) PPM_Rotate90CW
    = Ok ppm.
Proof.
  destruct ppm as [d w h m mx]; simpl. intros Hwf Hw0.
  pose proof (grid_tab d w h black Hwf Hw0) as Ed.
  destruct (grid_wf_spec d w h Hwf) as [Hh _].
  set (W := Z.to_nat w) in *. set (H := Z.to_nat h) in *.
  set (c := fun y x => nth x (nth y d []) black) in *.
  replace w with (Z.of_nat W) by (unfold W; lia).
  replace h with (Z.of_nat H) by (unfold H; lia).
  assert (R1 : PPM_Rotate90CW (mkPPM d (Z.of_nat W) (Z.of_nat H) m mx) =
    Ok (mkPPM (tab W H (fun j k => c (H - 1 - k)%nat j)) (Z.of_nat H) (Z.of_nat W) m mx))
    by (rewrite <- (PPM_rotate_tab H W c m mx), <- Ed; reflexivity).
  split; [exact R1|]. rewrite R1.
  cbn [bind]. rewrite PPM_rotate_tab. cbn [bind]. rewrite PPM_rotate_tab.
  cbn [bind]. rewrite PPM_rotate_tab. do 2 f_equal.
  rewrite Ed. apply tab_ext. intros y x Hy Hx. f_equal; lia.
Qed.

Lemma PPM_rotate90cw_witness :
  bind (bind (bind (PPM_Rotate90CW p3x2) PPM_Rotate90CW) PPM_Rotate90CW) PPM_Rotate90CW
    = Ok p3x2.
Proof.
  exact (proj2 (PPM_rotate90cw p3x2 eq_refl ltac:(simpl; lia))).
Defined.

(** The pixel loops that write [f(src[y][x])] into a fresh grid. *)
Lemma fill_tab {A B} (f : A -> B) rows cols (c : nat -> nat -> A) (z : nat -> nat -> B) :
  for_range rows 0 (fun y d => for_range cols 0 (fun x d =>
      p <- at2 (tab rows cols c) x y ;; set2 d x y (f p)) d) (tab rows cols z)
  = Ok (tab rows cols (fun y x => f (c y x))).
Proof.
  destruct (for_range_inv (fun i d => d = tab rows cols (fun y x =>
              if Z.of_nat y <? i then f (c y x) else z y x))
              rows 0 (fun y d => for_range cols 0 (fun x d =>
                 p <- at2 (tab rows cols c) x y ;; set2 d x y (f p)) d)
              (tab rows cols z)) as [d [E Hd]].
  - apply tab_ext. intros y x Hy Hx. solve_cells.
  - intros i d Hi ->.
    set (ii := Z.to_nat i). replace i with (Z.of_nat ii) in * by (unfold ii; lia).
    destruct (for_range_inv (fun jj d => d = tab rows cols (fun y x =>
                if (Z.of_nat y <? Z.of_nat ii)
                   || ((Z.of_nat y =? Z.of_nat ii) && (Z.of_nat x <? jj))
                then f (c y x) else z y x))
                cols 0 (fun x d =>
                  p <- at2 (tab rows cols c) x (Z.of_nat ii) ;; set2 d x (Z.of_nat ii) (f p))
                (tab rows cols (fun y x =>
                  if Z.of_nat y <? Z.of_nat ii then f (c y x) else z y x)))
      as [d' [E' Hd']].
    + apply tab_ext. intros y x Hy Hx. solve_cells.
    + intros jz d Hj ->.
      set (jj := Z.to_nat jz). replace jz with (Z.of_nat jj) in * by (unfold jj; lia).
      rewrite at2_tab by lia. cbn [bind].
      rewrite set2_tab by lia. eexists. split; [reflexivity|].
      apply tab_ext. intros y x Hy Hx. solve_cells.
    + exists d'. split; [exact E'|]. rewrite Hd'.
      apply tab_ext. intros y x Hy Hx. solve_cells.
  - rewrite E, Hd. f_equal. apply tab_ext. intros y x Hy Hx. solve_cells.
Qed.

Lemma seq_S_app n : seq 0 (Datatypes.S n) = seq 0 n ++ [n].
Proof. rewrite seq_S. reflexivity. Qed.

(** The appending loops of [map_pixels] build the grid of [f] of the
    samples. *)
Lemma map_pixels_tab rows cols c (f : Z -> bool) m mx :
  map_pixels (mkPGM (tab rows cols c) (Z.of_nat cols) (Z.of_nat rows) m mx) f
  = Ok (tab rows cols (fun y x => f (c y x))).
Proof.
  unfold map_pixels; simpl. rewrite !Nat2Z.id.
  replace (Z.of_nat rows <? 0) with false by lia.
  replace (Z.of_nat cols <? 0) with false by lia.
  destruct (for_range_inv (fun i acc => acc = tab (Z.to_nat i) cols (fun y x => f (c y x)))
              rows 0 (fun y rows0 =>
                 row <- for_range cols 0 (fun x row =>
                   v <- at2 (tab rows cols c) x y ;; Ok (row ++ [f v])) [] ;;
                 Ok (rows0 ++ [row])) []) as [acc [E Hacc]].
  - reflexivity.
  - intros i acc Hi ->.
    set (ii := Z.to_nat i). replace i with (Z.of_nat ii) in * by (unfold ii; lia).
    destruct (for_range_inv (fun jj row => row = map (fun x => f (c ii x)) (seq 0 (Z.to_nat jj)))
                cols 0 (fun x row =>
                   v <- at2 (tab rows cols c) x (Z.of_nat ii) ;; Ok (row ++ [f v])) [])
      as [row [E' Hrow]].
    + reflexivity.
    + intros jz row Hj ->.
      set (jj := Z.to_nat jz). replace jz with (Z.of_nat jj) in * by (unfold jj; lia).
      rewrite at2_tab by lia. cbn [bind]. eexists. split; [reflexivity|].
      replace (Z.to_nat (Z.of_nat jj + 1)) with (Datatypes.S jj) by lia.
      rewrite seq_S_app, map_app. reflexivity.
    + rewrite E'. cbn [bind]. eexists. split; [reflexivity|].
      replace (Z.to_nat (Z.of_nat ii + 1)) with (Datatypes.S ii) by lia.
      unfold tab. rewrite seq_S_app, map_app. simpl.
      rewrite Hrow. replace (Z.to_nat (0 + Z.of_nat cols)) with cols by lia. reflexivity.
  - rewrite E, Hacc. replace (Z.to_nat (0 + Z.of_nat rows)) with rows by lia. reflexivity.
Qed.

Lemma make_bool_grid_tab m n : 0 <= m -> 0 <= n ->
  make_bool_grid m n = Ok (tab (Z.to_nat n) (Z.to_nat m) (fun _ _ => false)).
Proof.
  intros Hm Hn. unfold make_bool_grid.
  replace (n <? 0) with false by lia. replace (m <? 0) with false by lia.
  rewrite Bool.andb_false_r. unfold tab. f_equal.
  rewrite map_const, map_const, !length_seq. reflexivity.
Qed.

Lemma map_map_tab {A B} (g : A -> B) rows cols c :
  map (map g) (tab rows cols c) = tab rows cols (fun y x => g (c y x)).
Proof. unfold tab. rewrite map_map. apply map_ext. intros y. apply map_map. Qed.

(** C5 (amended): on a well-formed graymap, [ToPBM] of [pgm.go] turns a
    sample on exactly when it is below [max/2] (integer division), as its
    comment documents, and the older [ToPBM] of [pbm.go] exactly when it is
    above [max/2]; with [max = 255] and samples [[0;127;128;255]] they give
    [[true;false;false;false]] and [[false;false;true;true]]. *)
Theorem C5_topbm_rule (pgm : PGM) :
  grid_wf (pgm_data pgm) (pgm_width pgm) (pgm_height pgm) = true -> 0 <= pgm_width pgm ->
  PGM_ToPBM pgm =
    Ok (mkPBM (map (map (fun v => v <? pgm_max pgm / 2)) (pgm_data pgm))
          (pgm_width pgm) (pgm_height pgm) P1) /\
  PGM_ToPBM_pbm_go pgm =
    Ok (mkPBM (map (map (fun v => pgm_max pgm / 2 <? v)) (pgm_data pgm))
          (pgm_width pgm) (pgm_height pgm) P1).
Proof.
  destruct pgm as [d w h m mx]; simpl. intros Hwf Hw.
  assert (Hh : 0 <= h) by (destruct (grid_wf_spec d w h Hwf) as [Hh _]; lia).
  rewrite (grid_tab d w h 0 Hwf Hw).
  set (c := fun y x => nth x (nth y d []) 0). clearbody c.
  set (W := Z.to_nat w). set (H := Z.to_nat h).
  assert (EW : w = Z.of_nat W) by (unfold W; lia).
  assert (EH : h = Z.of_nat H) by (unfold H; lia).
  clearbody W H. subst w h.
  unfold PGM_ToPBM, PGM_ToPBM_pbm_go.
  rewrite !map_pixels_tab, !map_map_tab. split; reflexivity.
Qed.

Lemma C5_topbm_rule_witness :
  PGM_ToPBM g4 = Ok (mkPBM [[true; false; false; false]] 4 1 P1) /\
  PGM_ToPBM_pbm_go g4 = Ok (mkPBM [[false; false; true; true]] 4 1 P1).
Proof. exact (C5_topbm_rule g4 eq_refl ltac:(simpl; lia)). Defined.

(** Every entry of a well-formed grid lies in the grid. *)
Lemma tab_entry_In {A} (d : list (list A)) w h dflt y x :
  grid_wf d w h = true -> (y < Z.to_nat h)%nat -> (x < Z.to_nat w)%nat ->
  exists row, In row d /\ In (nth x (nth y d []) dflt) row.
Proof.
  intros Hwf Hy Hx. destruct (grid_wf_spec d w h Hwf) as [Hh Hw].
  exists (nth y d []). split; [apply nth_In; lia|].
  apply nth_In. pose proof (Hw _ (nth_In d [] (ltac:(lia) : (y < List.length d)%nat))). lia.
Qed.

(** [ToPGM] of [ppm.go] turns each pixel into the integer mean of its
    channels, and [ToPBM] of [ppm.go] is [ToPGM] followed by [ToPBM] of
    [pgm.go]: both test [mean < max/2]. *)
(** [PPM.ToPGM] and [PPM.ToPBM] of [ppm.go]: on a well-formed pixmap of byte
    components, [ToPGM] maps each pixel to the integer mean of its three
    components (magic number P2, same max), and [ToPBM] gives exactly the
    bitmap [ToPBM] of [pgm.go] gives for that graymap. *)
Theorem PPM_ToPBM_via_ToPGM (ppm : PPM) :
  grid_wf (ppm_data ppm) (ppm_width ppm) (ppm_height ppm) = true ->
  0 <= ppm_width ppm ->
  forallb (forallb pixel_bytes) (ppm_data ppm) = true ->
  PPM_ToPGM ppm =
    Ok (mkPGM (map (map (fun p => (R p + G p + B p) / 3)) (ppm_data ppm))
          (ppm_width ppm) (ppm_height ppm) P2 (ppm_max ppm)) /\
  PPM_ToPBM ppm = bind (PPM_ToPGM ppm) PGM_ToPBM.
Proof.
  destruct ppm as [d w h m mx]; simpl. intros Hwf Hw0 Hb.
  pose proof (grid_tab d w h black Hwf Hw0) as Ed.
  destruct (grid_wf_spec d w h Hwf) as [Hh _].
  set (W := Z.to_nat w) in *. set (H := Z.to_nat h) in *.
  set (c := fun y x => nth x (nth y d []) black) in *.
  assert (Hc : forall y x, (y < H)%nat -> (x < W)%nat -> pixel_bytes (c y x) = true).
  { intros y x Hy Hx. destruct (tab_entry_In d w h black y x Hwf Hy Hx) as [row [Hr Hp]].
    rewrite forallb_forall in Hb. specialize (Hb row Hr). rewrite forallb_forall in Hb.
    apply Hb, Hp. }
  assert (Hmean : forall y x, (y < H)%nat -> (x < W)%nat ->
            wrap8 (Z.quot (R (c y x) + G (c y x) + B (c y x)) 3)
            = (R (c y x) + G (c y x) + B (c y x)) / 3 /\
            Z.quot ((R (c y x) + G (c y x) + B (c y x)) mod 65536) 3
            = (R (c y x) + G (c y x) + B (c y x)) / 3).
  { intros y x Hy Hx. specialize (Hc y x Hy Hx). unfold pixel_bytes, is_byte in Hc.
    destruct (c y x) as [r g b]; simpl in *.
    rewrite !Bool.andb_true_iff, !Z.leb_le, !Z.ltb_lt in Hc.
    rewrite Z.quot_div_nonneg by lia. rewrite (Z.mod_small _ 65536) by lia.
    rewrite Z.quot_div_nonneg by lia. split; [|reflexivity].
    unfold wrap8. apply Z.mod_small. split; [apply Z.div_pos; lia|].
    apply Z.div_lt_upper_bound; lia. }
  assert (EW : w = Z.of_nat W) by (unfold W; lia).
  assert (EH : h = Z.of_nat H) by (unfold H; lia).
  clearbody c W H. clear Hh. subst w h.
  assert (G1 : PPM_ToPGM (mkPPM d (Z.of_nat W) (Z.of_nat H) m mx) =
    Ok (mkPGM (tab H W (fun y x => wrap8 (Z.quot (R (c y x) + G (c y x) + B (c y x)) 3)))
          (Z.of_nat W) (Z.of_nat H) P2 mx)).
  { unfold PPM_ToPGM; simpl. rewrite make_grid_tab by lia. cbn [bind].
    rewrite !Nat2Z.id. rewrite Ed.
    rewrite (fill_tab (fun p => wrap8 (Z.quot (R p + G p + B p) 3))). reflexivity. }
  rewrite G1. split.
  - do 2 f_equal. rewrite Ed, map_map_tab. apply tab_ext. intros y x Hy Hx.
    apply (Hmean y x Hy Hx).
  - cbn [bind]. unfold PGM_ToPBM, PPM_ToPBM; simpl.
    rewrite map_pixels_tab, make_bool_grid_tab by lia. cbn [bind].
    rewrite !Nat2Z.id. rewrite Ed.
    rewrite (fill_tab (fun p => Z.quot ((R p + G p + B p) mod 65536) 3 <? mx / 2)).
    cbn [bind]. do 2 f_equal. apply tab_ext. intros y x Hy Hx.
    destruct (Hmean y x Hy Hx) as [M1 M2]. rewrite M1, M2. reflexivity.
Qed.

Lemma PPM_ToPBM_via_ToPGM_witness :
  PPM_ToPGM p3x2 = Ok (mkPGM [[2; 5; 8]; [116; 0; 255]] 3 2 P2 255) /\
  PPM_ToPBM p3x2 = bind (PPM_ToPGM p3x2) PGM_ToPBM.
Proof.
  exact (PPM_ToPBM_via_ToPGM p3x2 eq_refl ltac:(simpl; lia) eq_refl).
Defined.

(** ** Painting loops *)

Section Paint.
Context {A : Type}.
Variables (rows cols : nat) (color : A) (c0 : nat -> nat -> A).
Variables (A0 B0 : Z) (NA NB : nat) (cond : Z -> Z -> bool).
(** The pixel drawn at loop indices [(a, b)], and back. *)
Variables (fx fy ga gb : Z -> Z -> Z).
Hypothesis Hg : forall a b, ga (fx a b) (fy a b) = a /\ gb (fx a b) (fy a b) = b.
Hypothesis Hf : forall x y, fx (ga x y) (gb x y) = x /\ fy (ga x y) (gb x y) = y.
Hypothesis Hin : forall a b, A0 <= a < A0 + Z.of_nat NA -> B0 <= b < B0 + Z.of_nat NB ->
  cond a b = true -> 0 <= fx a b < Z.of_nat cols /\ 0 <= fy a b < Z.of_nat rows.


Lemma paint_step a b (x y : nat) :
  cond a b = true ->
  fx a b = Z.of_nat x -> fy a b = Z.of_nat y ->
  A0 <= a -> B0 <= b < B0 + Z.of_nat NB ->
  forall x' y',
  (if Nat.eqb y' y && Nat.eqb x' x then color
   else if painted_before A0 B0 NB cond ga gb a b x' y' then color else c0 y' x')
  = (if painted_before A0 B0 NB cond ga gb a (b + 1) x' y' then color else c0 y' x').
Proof.
  intros Hc Ex Ey Ha Hb x' y'. unfold painted_before.
  destruct (Nat.eqb_spec y' y); destruct (Nat.eqb_spec x' x); simpl.
  - subst x' y'. rewrite <- Ex, <- Ey. destruct (Hg a b) as [-> ->]. rewrite Hc.
    case_ifs; try reflexivity; lia.
  - case_ifs; try reflexivity; try lia.
    destruct (Hf (Z.of_nat x') (Z.of_nat y')) as [F1 F2].
    assert (ga (Z.of_nat x') (Z.of_nat y') = a) as G1 by lia.
    assert (gb (Z.of_nat x') (Z.of_nat y') = b) as G2 by lia.
    rewrite G1, G2, Ex in F1. lia.
  - case_ifs; try reflexivity; try lia.
    destruct (Hf (Z.of_nat x') (Z.of_nat y')) as [F1 F2].
    assert (ga (Z.of_nat x') (Z.of_nat y') = a) as G1 by lia.
    assert (gb (Z.of_nat x') (Z.of_nat y') = b) as G2 by lia.
    rewrite G1, G2, Ey in F2. lia.
  - case_ifs; try reflexivity; try lia.
    destruct (Hf (Z.of_nat x') (Z.of_nat y')) as [F1 F2].
    assert (ga (Z.of_nat x') (Z.of_nat y') = a) as G1 by lia.
    assert (gb (Z.of_nat x') (Z.of_nat y') = b) as G2 by lia.
    rewrite G1, G2, Ey in F2. lia.
Qed.

Lemma paint_loop :
  for_range NA A0 (fun a d => for_range NB B0 (fun b d =>
      if cond a b then set2 d (fx a b) (fy a b) color else Ok d) d) (tab rows cols c0)
  = Ok (tab rows cols (fun y x =>
      if painted_before A0 B0 NB cond ga gb (A0 + Z.of_nat NA) B0 x y then color else c0 y x)).
Proof.
  destruct (for_range_inv (fun a d => d = tab rows cols (fun y x =>
              if painted_before A0 B0 NB cond ga gb a B0 x y then color else c0 y x))
              NA A0 (fun a d => for_range NB B0 (fun b d =>
                 if cond a b then set2 d (fx a b) (fy a b) color else Ok d) d)
              (tab rows cols c0)) as [d [E Hd]].
  - apply tab_ext. intros y x _ _. unfold painted_before. case_ifs; try reflexivity; lia.
  - intros a d Ha ->.
    destruct (for_range_inv (fun b d => d = tab rows cols (fun y x =>
                if painted_before A0 B0 NB cond ga gb a b x y then color else c0 y x))
                NB B0 (fun b d =>
                  if cond a b then set2 d (fx a b) (fy a b) color else Ok d)
                (tab rows cols (fun y x =>
                  if painted_before A0 B0 NB cond ga gb a B0 x y then color else c0 y x))) as [d' [E' Hd']].
    + reflexivity.
    + intros b d Hb ->. destruct (cond a b) eqn:Hc.
      * destruct (Hin a b Ha Hb Hc) as [Hx Hy].
        set (x0 := Z.to_nat (fx a b)). set (y0 := Z.to_nat (fy a b)).
        assert (Ex : fx a b = Z.of_nat x0) by (unfold x0; lia).
        assert (Ey : fy a b = Z.of_nat y0) by (unfold y0; lia).
        rewrite Ex, Ey, set2_tab by lia. eexists. split; [reflexivity|].
        apply tab_ext. intros y x _ _. apply (paint_step a b x0 y0 Hc Ex Ey ltac:(lia) Hb).
      * eexists. split; [reflexivity|]. apply tab_ext. intros y x _ _.
        unfold painted_before. case_ifs; try reflexivity; try lia.
        all: assert (ga (Z.of_nat x) (Z.of_nat y) = a) as G1 by lia.
        all: assert (gb (Z.of_nat x) (Z.of_nat y) = b) as G2 by lia.
        all: rewrite G1, G2, Hc in *; intuition congruence.
    + exists d'. split; [exact E'|]. rewrite Hd'. apply tab_ext. intros y x _ _.
      unfold painted_before. case_ifs; try reflexivity; lia.
  - rewrite E, Hd. reflexivity.
Qed.

End Paint.

Lemma for_range_lift (ppm : PPM) n : forall x (body : Z -> PPM -> outcome PPM)
    (body' : Z -> list (list Pixel) -> outcome (list (list Pixel))) d0,
  (forall k d, body k (with_data ppm d) = (d' <- body' k d ;; Ok (with_data ppm d'))) ->
  for_range n x body (with_data ppm d0) = (d <- for_range n x body' d0 ;; Ok (with_data ppm d)).
Proof.
  induction n as [|n IH]; intros x body body' d0 Hb; cbn [for_range].
  - reflexivity.
  - rewrite Hb. destruct (body' x d0) as [d1|e|e]; cbn [bind]; [|reflexivity|reflexivity].
    apply IH. exact Hb.
Qed.

Lemma with_data_twice ppm d d' : with_data (with_data ppm d) d' = with_data ppm d'.
Proof. destruct ppm; reflexivity. Qed.

Lemma with_data_self ppm : with_data ppm (ppm_data ppm) = ppm.
Proof. destruct ppm; reflexivity. Qed.

Lemma PPM_Set_p2_lift ppm d x y c :
  PPM_Set_p2 (with_data ppm d) x y c = (d' <- set2 d x y c ;; Ok (with_data ppm d')).
Proof.
  unfold PPM_Set_p2. simpl. destruct (set2 d x y c); cbn [bind]; try reflexivity.
  all: rewrite ?with_data_twice; reflexivity.
Qed.

Lemma for_range_lift_start (ppm : PPM) n x (body : Z -> PPM -> outcome PPM)
    (body' : Z -> list (list Pixel) -> outcome (list (list Pixel))) :
  (forall k d, body k (with_data ppm d) = (d' <- body' k d ;; Ok (with_data ppm d'))) ->
  for_range n x body ppm = (d <- for_range n x body' (ppm_data ppm) ;; Ok (with_data ppm d)).
Proof.
  intros Hb. transitivity (for_range n x body (with_data ppm (ppm_data ppm))).
  - now rewrite with_data_self.
  - apply for_range_lift. exact Hb.
Qed.

(** [DrawFilledRectangle] of [part_002]: for a rectangle that lies inside a
    well-formed pixmap, the pixels [(x, y)] with [X <= x < X + width] and
    [Y <= y < Y + height] get the colour and all others are unchanged. *)
Theorem DrawFilledRectangle_p2_fills (ppm : PPM) (p1 : Point) (w h : Z) (color : Pixel) :
  grid_wf (ppm_data ppm) (ppm_width ppm) (ppm_height ppm) = true ->
  0 <= w -> 0 <= h ->
  0 <= X p1 -> X p1 + w <= ppm_width ppm -> 0 <= Y p1 -> Y p1 + h <= ppm_height ppm ->
  DrawFilledRectangle_p2 ppm p1 w h color =
    Ok (with_data ppm (tab (Z.to_nat (ppm_height ppm)) (Z.to_nat (ppm_width ppm)) (fun y x =>
      if (X p1 <=? Z.of_nat x) && (Z.of_nat x <? X p1 + w)
         && (Y p1 <=? Z.of_nat y) && (Z.of_nat y <? Y p1 + h)
      then color else nth x (nth y (ppm_data ppm) []) black))).
Proof.
  intros Hwf Hw0 Hh0 Hx0 Hx1 Hy0 Hy1. unfold DrawFilledRectangle_p2.
  rewrite (for_range_lift_start ppm _ _ _
             (fun y d => for_range (iters_excl (X p1) (X p1 + w)) (X p1)
                           (fun x d => set2 d x y color) d)).
  2: { intros k d. apply for_range_lift. intros k' d'. apply PPM_Set_p2_lift. }
  destruct ppm as [d W H m mx]; simpl in *.
  pose proof (grid_tab d W H black Hwf ltac:(lia)) as Ed.
  set (c := fun y x => nth x (nth y d []) black) in *. clearbody c.
  rewrite Ed.
  pose proof (paint_loop (Z.to_nat H) (Z.to_nat W) color c (Y p1) (X p1)
                (iters_excl (Y p1) (Y p1 + h)) (iters_excl (X p1) (X p1 + w))
                (fun _ _ => true) (fun a b => b) (fun a b => a) (fun x y => y) (fun x y => x))
    as P.
  cbv beta iota in P. rewrite P; clear P.
  - cbn [bind]. do 2 f_equal. apply tab_ext. intros y x Hy Hx.
    rewrite nth_tab by assumption.
    unfold painted_before, iters_excl. case_ifs; try reflexivity; lia.
  - intros a b. split; reflexivity.
  - intros x y. split; reflexivity.
  - intros a b Ha Hb _. unfold iters_excl in *. lia.
Qed.

Lemma DrawFilledRectangle_p2_fills_witness :
  DrawFilledRectangle_p2 (blank_ppm 3 2) (mkPoint 1 0) 2 1 white =
    Ok (mkPPM [[black; white; white]; [black; black; black]] 3 2 P3 255).
Proof.
  exact (DrawFilledRectangle_p2_fills (blank_ppm 3 2) (mkPoint 1 0) 2 1 white eq_refl
           ltac:(lia) ltac:(lia) ltac:(simpl; lia) ltac:(simpl; lia) ltac:(simpl; lia)
           ltac:(simpl; lia)).
Defined.

Lemma wrap64_id v : int64_min <= v <= int64_max -> wrap64 v = v.
Proof.
  unfold int64_min, int64_max, wrap64. intros Hv.
  rewrite Z.mod_small by lia. lia.
Qed.

(** [DrawFilledRectangle] of [ppm.go]: on a well-formed pixmap it never
    panics, whatever the rectangle whose far corner [X + width],
    [Y + height] does not overflow [int]; it paints the pixels with
    [X <= x <= X + width] and [Y <= y <= Y + height] (both bounds included)
    that lie in the image and leaves all others unchanged. *)
Theorem DrawFilledRectangle_fills (ppm : PPM) (p1 : Point) (w h : Z) (color : Pixel) :
  grid_wf (ppm_data ppm) (ppm_width ppm) (ppm_height ppm) = true ->
  0 <= ppm_width ppm ->
  int64_min <= X p1 + w <= int64_max -> int64_min <= Y p1 + h <= int64_max ->
  DrawFilledRectangle ppm p1 w h color =
    Ok (with_data ppm (tab (Z.to_nat (ppm_height ppm)) (Z.to_nat (ppm_width ppm)) (fun y x =>
      if (X p1 <=? Z.of_nat x) && (Z.of_nat x <=? X p1 + w)
         && (Y p1 <=? Z.of_nat y) && (Z.of_nat y <=? Y p1 + h)
      then color else nth x (nth y (ppm_data ppm) []) black))).
Proof.
  intros Hwf Hw0 HX HY. unfold DrawFilledRectangle.
  rewrite (wrap64_id _ HX), (wrap64_id _ HY).
  set (NA := iters_incl (X p1) (Z.min (X p1 + w) (ppm_width ppm))).
  set (NB := iters_incl (Y p1) (Z.min (Y p1 + h) (ppm_height ppm))).
  set (cnd := fun a b => (0 <=? a) && (0 <=? b) && (a <? ppm_width ppm) && (b <? ppm_height ppm)).
  rewrite (for_range_lift_start ppm _ _ _
             (fun x d => for_range NB (Y p1)
                (fun y d => if cnd x y then set2 d x y color else Ok d) d)).
  2: { intros k d. apply for_range_lift. intros k' d'. unfold cnd. cbv beta. cbn [ppm_width ppm_height with_data].
       destruct ((0 <=? k) && (0 <=? k') && (k <? ppm_width ppm) && (k' <? ppm_height ppm)) eqn:C.
       - unfold PPM_Set. cbn [ppm_width ppm_height ppm_data with_data]. bool_facts C.
         case_ifs; try (exfalso; lia).
         destruct (set2 d' k k' color); cbn [bind]; rewrite ?with_data_twice; reflexivity.
       - reflexivity. }
  pose proof (paint_loop (Z.to_nat (ppm_height ppm)) (Z.to_nat (ppm_width ppm)) color
                (fun y x => nth x (nth y (ppm_data ppm) []) black) (X p1) (Y p1) NA NB
                cnd (fun a b => a) (fun a b => b) (fun x y => x) (fun x y => y)) as P.
  cbv beta iota in P. rewrite <- (grid_tab _ _ _ black Hwf Hw0) in P. rewrite P; clear P.
  - cbn [bind]. do 2 f_equal. apply tab_ext. intros y x Hy Hx.
    unfold painted_before, NA, NB, cnd, iters_incl. case_ifs; try reflexivity; lia.
  - intros a b. split; reflexivity.
  - intros x y. split; reflexivity.
  - intros a b Ha Hb C. unfold cnd in C. bool_facts C. lia.
Qed.

Lemma DrawFilledRectangle_fills_witness :
  DrawFilledRectangle (blank_ppm 3 2) (mkPoint 1 0) 5 0 white =
    Ok (mkPPM [[black; white; white]; [black; black; black]] 3 2 P3 255).
Proof.
  exact (DrawFilledRectangle_fills (blank_ppm 3 2) (mkPoint 1 0) 5 0 white eq_refl
           ltac:(simpl; lia) ltac:(unfold int64_min, int64_max; simpl; lia)
           ltac:(unfold int64_min, int64_max; simpl; lia)).
Defined.

Lemma sq_bound r u v : 0 <= r -> u * u + v * v <= r * r -> - r <= u <= r.
Proof. intros Hr H. nia. Qed.

(** [DrawCircle] and [DrawFilledCircle] of [part_002]: for a circle that
    lies inside a well-formed pixmap, both paint exactly the pixels at
    distance at most [radius] from the centre (a filled disc), and leave all
    others unchanged. *)
Theorem DrawCircle_p2_disc (ppm : PPM) (center : Point) (r : Z) (color : Pixel) :
  grid_wf (ppm_data ppm) (ppm_width ppm) (ppm_height ppm) = true ->
  0 <= r -> 0 <= X center - r -> X center + r < ppm_width ppm ->
  0 <= Y center - r -> Y center + r < ppm_height ppm ->
  let painted := Ok (with_data ppm (tab (Z.to_nat (ppm_height ppm)) (Z.to_nat (ppm_width ppm))
      (fun y x =>
         if (Z.of_nat x - X center) * (Z.of_nat x - X center)
            + (Z.of_nat y - Y center) * (Z.of_nat y - Y center) <=? r * r
         then color else nth x (nth y (ppm_data ppm) []) black))) in
  DrawCircle_p2 ppm center r color = painted /\
  DrawFilledCircle_p2 ppm center r color = painted.
Proof.
  intros Hwf Hr Hx0 Hx1 Hy0 Hy1 painted.
  assert (E : DrawCircle_p2 ppm center r color = painted).
  { unfold DrawCircle_p2, painted.
    set (N := iters_incl (- r) r).
    rewrite (for_range_lift_start ppm _ _ _
               (fun a d => for_range N (- r) (fun b d =>
                  if a * a + b * b <=? r * r
                  then set2 d (X center + a) (Y center + b) color else Ok d) d)).
    2: { intros k d. apply for_range_lift. intros k' d'.
         destruct (k * k + k' * k' <=? r * r); [apply PPM_Set_p2_lift | reflexivity]. }
    pose proof (paint_loop (Z.to_nat (ppm_height ppm)) (Z.to_nat (ppm_width ppm)) color
                  (fun y x => nth x (nth y (ppm_data ppm) []) black) (- r) (- r) N N
                  (fun a b => a * a + b * b <=? r * r)
                  (fun a b => X center + a) (fun a b => Y center + b)
                  (fun x y => x - X center) (fun x y => y - Y center)) as P.
    cbv beta iota in P. rewrite <- (grid_tab _ _ _ black Hwf ltac:(lia)) in P.
    rewrite P; clear P.
    - cbn [bind]. do 2 f_equal. apply tab_ext. intros y x Hy Hx.
      unfold painted_before, N, iters_incl. case_ifs; try reflexivity; try nia.
      all: pose proof (sq_bound r (Z.of_nat x - X center) (Z.of_nat y - Y center) Hr);
           pose proof (sq_bound r (Z.of_nat y - Y center) (Z.of_nat x - X center) Hr); lia.
    - intros a b. split; ring.
    - intros x y. split; ring.
    - intros a b Ha Hb _. unfold N, iters_incl in *. lia. }
  split; [exact E | exact E].
Qed.

Lemma DrawCircle_p2_disc_witness :
  let disc := Ok (mkPPM [[black; white; black]; [white; white; white]; [black; white; black]]
                   3 3 P3 255) in
  DrawCircle_p2 (blank_ppm 3 3) (mkPoint 1 1) 1 white = disc /\
  DrawFilledCircle_p2 (blank_ppm 3 3) (mkPoint 1 1) 1 white = disc.
Proof.
  exact (DrawCircle_p2_disc (blank_ppm 3 3) (mkPoint 1 1) 1 white eq_refl
           ltac:(lia) ltac:(simpl; lia) ltac:(simpl; lia) ltac:(simpl; lia) ltac:(simpl; lia)).
Defined.

Lemma bind_assoc {A B C} (m : outcome A) (f : A -> outcome B) (g : B -> outcome C) :
  bind (bind m f) g = bind m (fun x => bind (f x) g).
Proof. destruct m; reflexivity. Qed.

Lemma bind_ret {A} (m : outcome A) : bind m Ok = m.
Proof. destruct m; reflexivity. Qed.

Section ShapeProofs.
Variable F : Type.
Variable float64 : Z -> F.
Variable fabs : F -> F.
Variables fadd fsub fmul fdiv : F -> F -> F.
Variables fgt fge : F -> F -> bool.

(** [DrawRectangle] and [DrawTriangle] of [ppm.go] draw the same image as
    [DrawPolygon] of their corners (for a rectangle in the order p1, top
    right, bottom right, bottom left). *)
Theorem rectangle_triangle_polygon (fzero fhalf fone : F) (ppm : PPM)
    (p1 p2 p3 : Point) (w h : Z) (color : Pixel) :
  DrawRectangle F float64 fabs fadd fsub fdiv fgt fge fzero fhalf fone ppm p1 w h color =
    DrawPolygon F float64 fabs fadd fsub fdiv fgt fge fzero fhalf fone ppm
      [p1; mkPoint (X p1 + w) (Y p1); mkPoint (X p1 + w) (Y p1 + h); mkPoint (X p1) (Y p1 + h)]
      color /\
  DrawTriangle F float64 fabs fadd fsub fdiv fgt fge fzero fhalf fone ppm p1 p2 p3 color =
    DrawPolygon F float64 fabs fadd fsub fdiv fgt fge fzero fhalf fone ppm [p1; p2; p3] color.
Proof.
  split; unfold DrawRectangle, DrawTriangle, DrawPolygon;
    cbn -[DrawLine]; cbv [PosDef.Pos.to_nat PosDef.Pos.iter_op Nat.add]; cbn -[DrawLine];
    repeat match goal with |- context [DrawLine ?a ?b ?c ?d ?e ?f ?g ?h ?i ?j ?k ?l ?m ?n ?o] =>
      destruct (DrawLine a b c d e f g h i j k l m n o); cbn [bind] end;
    reflexivity.
Qed.

(** [DrawRectangle] and [DrawTriangle] of [part_002] draw the same image as
    [DrawPolygon] of their corners (for a rectangle in the order p1, top
    right, bottom right, bottom left). *)
Theorem rectangle_triangle_polygon_p2 (ppm : PPM) (p1 p2 p3 : Point) (w h : Z) (color : Pixel) :
  DrawRectangle_p2 F float64 fabs fge ppm p1 w h color =
    DrawPolygon_p2 F float64 fabs fge ppm
      [p1; mkPoint (X p1 + w) (Y p1); mkPoint (X p1 + w) (Y p1 + h); mkPoint (X p1) (Y p1 + h)]
      color /\
  DrawTriangle_p2 F float64 fabs fge ppm p1 p2 p3 color =
    DrawPolygon_p2 F float64 fabs fge ppm [p1; p2; p3] color.
Proof.
  split; unfold DrawRectangle_p2, DrawTriangle_p2, DrawPolygon_p2;
    cbn -[DrawLine_p2]; cbv [PosDef.Pos.to_nat PosDef.Pos.iter_op Nat.add]; cbn -[DrawLine_p2];
    repeat match goal with |- context [DrawLine_p2 ?a ?b ?c ?d ?e ?f ?g ?h] =>
      destruct (DrawLine_p2 a b c d e f g h); cbn [bind] end;
    reflexivity.
Qed.

End ShapeProofs.

(** ** Reading back the text encoding of graymaps *)

Lemma split_nl_some l a c : split_nl l = Some (a, c) -> l = a ++ NL :: c /\ ~ In NL a.
Proof.
  revert a c. induction l as [|b l IH]; intros a c H; simpl in H; [discriminate|].
  destruct (Z.eqb_spec b NL).
  - injection H as <- <-. subst b. split; [reflexivity | intros []].
  - destruct (split_nl l) as [[a' c']|]; [|discriminate].
    injection H as <- <-. destruct (IH a' c' eq_refl) as [-> Hn]. split; [reflexivity|].
    intros [E|E]; [congruence | exact (Hn E)].
Qed.

Lemma split_nl_none l : split_nl l = None -> ~ In NL l.
Proof.
  induction l as [|b l IH]; intros H; simpl in H; [intros []|].
  destruct (Z.eqb_spec b NL); [discriminate|].
  destruct (split_nl l) as [[a' c']|]; [discriminate|].
  intros [E|E]; [congruence | exact (IH eq_refl E)].
Qed.

Lemma first_nl_unique a c b d :
  ~ In NL a -> ~ In NL b -> a ++ NL :: c = b ++ NL :: d -> a = b /\ c = d.
Proof.
  revert b. induction a as [|x a IH]; intros b Ha Hb E; destruct b as [|y b]; simpl in E.
  - injection E as E. split; [reflexivity | exact E].
  - injection E as E1 E2. exfalso. apply Hb. left. congruence.
  - injection E as E1 E2. exfalso. apply Ha. left. congruence.
  - injection E as E1 E2. subst y.
    destruct (IH b (fun H => Ha (or_intror H)) (fun H => Hb (or_intror H)) E2) as [-> ->].
    split; reflexivity.
Qed.

Lemma no_nl_prefix l f pre rest :
  ~ In NL l -> l ++ f = pre ++ NL :: rest -> exists pre', pre = l ++ pre' /\ f = pre' ++ NL :: rest.
Proof.
  revert pre. induction l as [|x l IH]; intros pre Hl E.
  - exists pre. split; [reflexivity | exact E].
  - destruct pre as [|y pre]; simpl in E; injection E as E1 E2.
    + exfalso. apply Hl. left. congruence.
    + subst y. destruct (IH pre (fun H => Hl (or_intror H)) E2) as [p' [-> ->]].
      exists p'. split; reflexivity.
Qed.

Lemma ReadString_fuel_line fuel : forall acc r pre rest,
  reader_wf r -> ~ In NL pre -> rbuf r ++ rfile r = pre ++ NL :: rest ->
  (reader_measure r < fuel)%nat ->
  exists r', ReadString_fuel fuel acc r = Ok (acc ++ pre ++ [NL], r') /\
             rbuf r' ++ rfile r' = rest /\ reader_wf r'.
Proof.
  induction fuel as [|fuel IH]; intros acc r pre rest Hwf Hpre Hc Hm; [lia|].
  destruct r as [buf file eof]; destruct Hwf as [Hlen Heof]; cbn [rbuf rfile reof] in *.
  cbn [ReadString_fuel rbuf rfile reof].
  destruct (split_nl buf) as [[a c]|] eqn:Hs.
  - destruct (split_nl_some _ _ _ Hs) as [-> Ha].
    rewrite <- app_assoc in Hc. simpl in Hc.
    destruct (first_nl_unique _ _ _ _ Ha Hpre Hc) as [-> Ec].
    exists (mkReader c file eof). split; [reflexivity|]. split; [exact Ec|].
    unfold reader_wf; cbn [rbuf rfile reof]. split; [|exact Heof].
    rewrite length_app in Hlen. cbn [List.length] in Hlen. lia.
  - pose proof (split_nl_none _ Hs) as Hn.
    destruct eof.
    + exfalso. rewrite (Heof eq_refl), app_nil_r in Hc. apply Hn. rewrite Hc.
      apply in_or_app. right. left. reflexivity.
    + destruct (Nat.eqb_spec (List.length buf) defaultBufSize) as [Hfull|Hfull].
      * destruct (no_nl_prefix _ _ _ _ Hn Hc) as [p' [-> Ef]].
        destruct (IH (acc ++ buf) (mkReader [] file false) p' rest) as [r' [E [Ec Hw]]].
        -- split; cbn [rbuf rfile reof List.length]; [lia | discriminate].
        -- intros H. apply Hpre. apply in_or_app. right. exact H.
        -- exact Ef.
        -- unfold reader_measure in *; cbn [rbuf rfile reof List.length] in *.
           rewrite Hfull, Nat.eqb_refl in Hm. change (Nat.eqb 0 defaultBufSize) with false. change (if false then 1 else 0)%nat with 0%nat. lia.
        -- exists r'. split; [|split; assumption]. rewrite E, <- !app_assoc. reflexivity.
      * unfold fill; cbn [rbuf rfile reof]. destruct file as [|f0 file].
        -- exfalso. rewrite app_nil_r in Hc. apply Hn. rewrite Hc.
           apply in_or_app. right. left. reflexivity.
        -- set (k := (defaultBufSize - List.length buf)%nat).
           destruct (IH acc (mkReader (buf ++ firstn k (f0 :: file)) (skipn k (f0 :: file)) false)
                       pre rest) as [r' [E [Ec Hw]]].
           ++ split; cbn [rbuf rfile reof]; [|discriminate]. rewrite length_app, length_firstn. lia.
           ++ exact Hpre.
           ++ cbn [rbuf rfile reof]. rewrite <- app_assoc, firstn_skipn. exact Hc.
           ++ unfold reader_measure in *; cbn [rbuf rfile reof] in *.
              rewrite length_skipn. cbn [List.length] in *.
              destruct (Nat.eqb_spec (List.length buf) defaultBufSize); [contradiction|].
              destruct (Nat.eqb _ _); unfold k in *; lia.
           ++ exists r'. split; [exact E | split; assumption].
Qed.

Lemma ReadString_line r pre rest :
  reader_wf r -> ~ In NL pre -> rbuf r ++ rfile r = pre ++ NL :: rest ->
  exists r', ReadString r = Ok (pre ++ [NL], r') /\ rbuf r' ++ rfile r' = rest /\ reader_wf r'.
Proof.
  intros Hwf Hpre Hc. unfold ReadString.
  apply (ReadString_fuel_line _ [] r pre rest Hwf Hpre Hc).
  unfold reader_measure. destruct Hwf as [Hl _].
  destruct (Nat.eqb _ _); lia.
Qed.

(** ** Decimal digits *)

Lemma udigits_app fuel : forall n acc rest,
  udigits fuel n acc ++ rest = udigits fuel n (acc ++ rest).
Proof.
  induction fuel as [|f IH]; intros n acc rest; cbn [udigits]; [reflexivity|].
  destruct (n <? 10); [reflexivity|]. apply IH.
Qed.

Lemma udigits_digits fuel : forall n acc b,
  0 <= n -> In b (udigits fuel n acc) -> is_digit b = true \/ In b acc.
Proof.
  induction fuel as [|f IH]; intros n acc b Hn Hb; cbn [udigits] in Hb; [right; exact Hb|].
  assert (Hd : is_digit (48 + n mod 10) = true).
  { unfold is_digit. pose proof (Z.mod_pos_bound n 10 ltac:(lia)).
    apply andb_true_iff; split; apply Z.leb_le; lia. }
  destruct (n <? 10).
  - destruct Hb as [<-|Hb]; [left; exact Hd | right; exact Hb].
  - destruct (IH (n / 10) _ b ltac:(apply Z.div_pos; lia) Hb) as [H|[<-|H]];
      [left; exact H | left; exact Hd | right; exact H].
Qed.

Lemma take_udigits fuel : forall n acc a s,
  (0 < fuel)%nat -> 0 <= n < 10 ^ Z.of_nat fuel -> 0 <= a ->
  exists k, 0 <= k /\
    take_digits (udigits fuel n acc) a s = take_digits acc (a * 10 ^ k + n) true.
Proof.
  induction fuel as [|f IH]; intros n acc a s Hf Hn Ha; [lia|].
  cbn [udigits].
  assert (Hd : is_digit (48 + n mod 10) = true).
  { unfold is_digit. pose proof (Z.mod_pos_bound n 10 ltac:(lia)).
    apply andb_true_iff; split; apply Z.leb_le; lia. }
  destruct (Z.ltb_spec n 10).
  - exists 1. split; [lia|]. cbn [take_digits]. rewrite Hd. f_equal.
    rewrite Z.mod_small by lia. lia.
  - rewrite Nat2Z.inj_succ, Z.pow_succ_r in Hn by lia.
    destruct (IH (n / 10) ((48 + n mod 10) :: acc) a s) as [k [Hk E]].
    + destruct f; [simpl in Hn; lia | lia].
    + split; [apply Z.div_pos; lia|]. apply Z.div_lt_upper_bound; lia.
    + exact Ha.
    + exists (k + 1). split; [lia|]. rewrite E. cbn [take_digits]. rewrite Hd. f_equal.
      rewrite Z.pow_add_r by lia. pose proof (Z.div_mod n 10 ltac:(lia)). lia.
Qed.

Lemma itoa_nonneg n : 0 <= n -> itoa n = udigits 20 n [].
Proof. intros Hn. unfold itoa. destruct (Z.ltb_spec n 0); [lia | reflexivity]. Qed.

Lemma itoa_digits n b : 0 <= n -> In b (itoa n) -> is_digit b = true.
Proof.
  intros Hn Hb. rewrite itoa_nonneg in Hb by exact Hn.
  destruct (udigits_digits 20 n [] b Hn Hb) as [H|[]]. exact H.
Qed.

Lemma itoa_cons n : 0 <= n < 10 ^ 20 -> exists d ds, itoa n = d :: ds.
Proof.
  intros Hn. rewrite itoa_nonneg by lia.
  destruct (take_udigits 20 n [] 0 false ltac:(lia) ltac:(simpl; lia) ltac:(lia)) as [k [_ E]].
  destruct (udigits 20 n []) as [|d ds]; [discriminate | exists d, ds; reflexivity].
Qed.

Lemma take_itoa n rest s :
  0 <= n < 10 ^ 20 ->
  take_digits (itoa n ++ rest) 0 s = take_digits rest n true.
Proof.
  intros Hn. rewrite itoa_nonneg by lia. rewrite udigits_app. cbn [app].
  destruct (take_udigits 20 n rest 0 s ltac:(lia) ltac:(simpl; lia) ltac:(lia)) as [k [_ E]].
  rewrite E. f_equal.
Qed.

(** ** Scanning printed numbers *)

Lemma digit_range d : is_digit d = true -> 48 <= d <= 57.
Proof. unfold is_digit. intros H. apply andb_true_iff in H as [H1 H2]. lia. Qed.

Lemma digit_not_space d : is_digit d = true -> is_space d = false.
Proof.
  intros H. apply digit_range in H. unfold is_space.
  apply orb_false_iff. split; [apply Z.eqb_neq; lia|].
  apply andb_false_iff. right. apply Z.leb_gt. lia.
Qed.

Lemma sign_digit {B} d l (m p : list Z -> B) (o : B) :
  is_digit d = true ->
  match d :: l with 45 :: r => m r | 43 :: r => p r | _ => o end = o.
Proof.
  intros H. apply digit_range in H.
  assert (d = 48 \/ d = 49 \/ d = 50 \/ d = 51 \/ d = 52 \/ d = 53 \/ d = 54 \/ d = 55
          \/ d = 56 \/ d = 57) as Hd by lia.
  repeat destruct Hd as [->|Hd]; try reflexivity. subst d. reflexivity.
Qed.

Lemma take_end rest n : ends_token rest -> take_digits rest n true = (Some n, rest).
Proof. destruct rest as [|b rest]; simpl; [reflexivity|]. intros ->. reflexivity. Qed.

Lemma scan_int_itoa n rest :
  0 <= n <= int64_max -> ends_token rest -> scan_int (itoa n ++ rest) = Some (n, rest).
Proof.
  intros Hn Hr. unfold int64_max in Hn.
  destruct (itoa_cons n ltac:(lia)) as [d [ds Ed]].
  assert (Hd : is_digit d = true) by (apply (itoa_digits n); [lia | rewrite Ed; left; reflexivity]).
  unfold scan_int. rewrite Ed. cbn [app drop_spaces]. rewrite (digit_not_space d Hd).
  rewrite (sign_digit d (ds ++ rest) (fun r => (-1, r)) (fun r => (1, r)) _ Hd).
  replace (d :: ds ++ rest) with (itoa n ++ rest) by (rewrite Ed; reflexivity).
  rewrite take_itoa by lia. rewrite take_end by exact Hr.
  unfold int64_min, int64_max.
  replace ((- 2 ^ 63 <=? 1 * n) && (1 * n <=? 2 ^ 63 - 1)) with true
    by (symmetry; apply andb_true_iff; split; apply Z.leb_le; lia).
  f_equal. f_equal. lia.
Qed.

Lemma scan_int_space b l : is_space b = true -> scan_int (b :: l) = scan_int l.
Proof. intros H. unfold scan_int. cbn [drop_spaces]. rewrite H. reflexivity. Qed.

Lemma Sscanf_dd_itoa a b :
  0 <= a <= int64_max -> 0 <= b <= int64_max ->
  Sscanf_dd (itoa a ++ SP :: itoa b) = Some (a, b).
Proof.
  intros Ha Hb. unfold Sscanf_dd. rewrite scan_int_itoa by (simpl; auto).
  replace (is_space SP) with true by reflexivity.
  rewrite scan_int_space by reflexivity.
  rewrite <- (app_nil_r (itoa b)), scan_int_itoa by (simpl; auto). reflexivity.
Qed.

Lemma Sscanf_d_itoa a : 0 <= a <= int64_max -> Sscanf_d (itoa a) = Some a.
Proof.
  intros Ha. unfold Sscanf_d. rewrite <- (app_nil_r (itoa a)).
  rewrite scan_int_itoa by (simpl; auto). reflexivity.
Qed.

Lemma Sscanf_d_u8_itoa v : 0 <= v < 256 -> Sscanf_d_u8 (itoa v) = Some v.
Proof.
  intros Hv. unfold Sscanf_d_u8, scan_uint8.
  destruct (itoa_cons v ltac:(lia)) as [d [ds Ed]].
  assert (Hd : is_digit d = true) by (apply (itoa_digits v); [lia | rewrite Ed; left; reflexivity]).
  rewrite Ed. cbn [drop_spaces]. rewrite (digit_not_space d Hd). rewrite <- Ed.
  rewrite <- (app_nil_r (itoa v)), take_itoa by lia. cbn [take_digits].
  replace (v <? 256) with true by (symmetry; apply Z.ltb_lt; lia). reflexivity.
Qed.

Lemma TrimSpace_line l :
  l <> [] -> is_space (hd 0 l) = false -> is_space (last l 0) = false ->
  TrimSpace (l ++ [NL]) = l.
Proof.
  intros Hne Hh Hl. unfold TrimSpace.
  destruct l as [|a l]; [contradiction|]. cbn [hd app drop_spaces] in *. rewrite Hh.
  change (a :: l ++ [NL]) with ((a :: l) ++ [NL]). rewrite rev_app_distr.
  change (rev [NL]) with [NL]. cbn [app drop_spaces]. replace (is_space NL) with true by reflexivity.
  destruct (rev (a :: l)) as [|b m] eqn:Er.
  - apply (f_equal (@List.length Z)) in Er. rewrite length_rev in Er. simpl in Er. lia.
  - cbn [drop_spaces].
    assert (b = last (a :: l) 0) as ->.
    { rewrite <- (rev_involutive (a :: l)), Er. simpl. rewrite last_last. reflexivity. }
    rewrite Hl. rewrite <- Er, rev_involutive. reflexivity.
Qed.

(** ** Lines of tokens *)

Lemma fields_acc_tok t : forall l cur, (forall b, In b t -> is_space b = false) ->
  fields_acc (t ++ l) cur = fields_acc l (rev t ++ cur).
Proof.
  induction t as [|a t IH]; intros l cur Ht; [reflexivity|].
  cbn [app fields_acc]. rewrite (Ht a (or_introl eq_refl)).
  rewrite IH by (intros b Hb; apply Ht; right; exact Hb).
  cbn [rev]. rewrite <- app_assoc. reflexivity.
Qed.

Lemma Fields_join toks : Forall token_ok toks -> Fields (join_sp toks ++ [NL]) = toks.
Proof.
  unfold Fields. induction toks as [|t ts IH]; intros Hf; [reflexivity|].
  inversion Hf as [|? ? [Hne Hd] Hts]; subst.
  assert (Hs : forall b, In b t -> is_space b = false)
    by (intros b Hb; apply digit_not_space, Hd, Hb).
  assert (Hr : rev t <> []) by (intros E; apply Hne; rewrite <- (rev_involutive t), E; reflexivity).
  destruct ts as [|t' ts].
  - cbn [join_sp]. rewrite fields_acc_tok by exact Hs. rewrite app_nil_r.
    cbn [fields_acc]. replace (is_space NL) with true by reflexivity.
    destruct (rev t) as [|c cs] eqn:E; [contradiction|]. rewrite <- E, rev_involutive. reflexivity.
  - change (join_sp (t :: t' :: ts)) with (t ++ SP :: join_sp (t' :: ts)).
    rewrite <- app_assoc, fields_acc_tok by exact Hs. rewrite app_nil_r. cbn [app fields_acc].
    replace (is_space SP) with true by reflexivity.
    destruct (rev t) as [|c cs] eqn:E; [contradiction|]. rewrite <- E, rev_involutive.
    f_equal. apply IH. exact Hts.
Qed.

Lemma join_sp_in toks b :
  Forall token_ok toks -> In b (join_sp toks) -> is_digit b = true \/ b = SP.
Proof.
  induction toks as [|t ts IH]; intros Hf Hb; [destruct Hb|].
  inversion Hf as [|? ? [Hne Hd] Hts]; subst.
  destruct ts as [|t' ts].
  - left. apply Hd. exact Hb.
  - change (join_sp (t :: t' :: ts)) with (t ++ SP :: join_sp (t' :: ts)) in Hb.
    apply in_app_or in Hb as [Hb|[Hb|Hb]]; [left; apply Hd, Hb | right; congruence | ].
    apply IH; assumption.
Qed.

Lemma join_sp_no_nl toks : Forall token_ok toks -> ~ In NL (join_sp toks).
Proof.
  intros Hf Hb. destruct (join_sp_in toks NL Hf Hb) as [H|H]; [discriminate | discriminate].
Qed.

Lemma join_sp_snoc ts t :
  join_sp (ts ++ [t]) = join_sp ts ++ (match ts with [] => [] | _ => [SP] end) ++ t.
Proof.
  induction ts as [|a ts IH]; [reflexivity|].
  cbn [app]. destruct ts as [|b ts]; [reflexivity|].
  change (join_sp (a :: (b :: ts) ++ [t])) with (a ++ SP :: join_sp ((b :: ts) ++ [t])).
  rewrite IH. change (join_sp (a :: b :: ts)) with (a ++ SP :: join_sp (b :: ts)).
  rewrite <- !app_assoc. reflexivity.
Qed.

Lemma itoa_token n : 0 <= n < 10 ^ 20 -> token_ok (itoa n).
Proof.
  intros Hn. split.
  - destruct (itoa_cons n Hn) as [d [ds ->]]. discriminate.
  - intros b Hb. apply (itoa_digits n); [lia | exact Hb].
Qed.

Lemma token_hd_last t : token_ok t ->
  t <> [] /\ is_space (hd 0 t) = false /\ is_space (last t 0) = false.
Proof.
  intros [Hne Hd]. split; [exact Hne|]. split.
  - destruct t as [|a t]; [contradiction|]. apply digit_not_space, Hd. left. reflexivity.
  - apply digit_not_space, Hd. rewrite (app_removelast_last 0 Hne) at 2.
    apply in_or_app. right. left. reflexivity.
Qed.

(** ** Rows of samples *)

Lemma set_nth_app {A} (p q : list A) a v :
  set_nth (p ++ a :: q) (List.length p) v = Some (p ++ v :: q).
Proof.
  induction p as [|b p IH]; [reflexivity|]. cbn [app List.length set_nth]. rewrite IH. reflexivity.
Qed.

Lemma read_p2_fields_itoa s : forall p w,
  Forall (fun v => 0 <= v < 256) s ->
  w = Z.of_nat (List.length p + List.length s) ->
  read_p2_fields (map itoa s) (Z.of_nat (List.length p)) w (p ++ repeat 0 (List.length s))
  = Ok (p ++ s).
Proof.
  induction s as [|v s IH]; intros p w Hs Hw.
  - cbn. rewrite !app_nil_r. reflexivity.
  - inversion Hs as [|? ? Hv Hs']; subst. cbn [map read_p2_fields List.length repeat].
    replace (Z.of_nat (List.length p + Datatypes.S (List.length s)) <=? Z.of_nat (List.length p))
      with false by (symmetry; apply Z.leb_gt; lia).
    rewrite Sscanf_d_u8_itoa by exact Hv. rewrite Nat2Z.id, set_nth_app.
    replace (Z.of_nat (List.length p) + 1) with (Z.of_nat (List.length (p ++ [v])))
      by (rewrite length_app; simpl; lia).
    replace (p ++ v :: repeat 0 (List.length s)) with ((p ++ [v]) ++ repeat 0 (List.length s))
      by (rewrite <- app_assoc; reflexivity).
    rewrite IH; [rewrite <- app_assoc; reflexivity | exact Hs' | rewrite length_app; simpl; lia].
Qed.

Lemma firstn_snoc {A} (l : list A) n d : (n < List.length l)%nat ->
  firstn (Datatypes.S n) l = firstn n l ++ [nth n l d].
Proof.
  revert n; induction l as [|a l IH]; intros n Hn; simpl in Hn; [lia|].
  destruct n as [|n]; [reflexivity|].
  change (firstn (Datatypes.S (Datatypes.S n)) (a :: l)) with (a :: firstn (Datatypes.S n) l).
  rewrite IH by lia. reflexivity.
Qed.

Lemma skipn_nth {A} (l : list A) n d : (n < List.length l)%nat ->
  skipn n l = nth n l d :: skipn (Datatypes.S n) l.
Proof.
  revert n; induction l as [|a l IH]; intros n Hn; simpl in Hn; [lia|].
  destruct n as [|n]; [reflexivity|]. simpl. apply IH. lia.
Qed.

Lemma at2_nth (d : list (list Z)) x y :
  0 <= y < Z.of_nat (List.length d) -> 0 <= x < Z.of_nat (List.length (nth (Z.to_nat y) d [])) ->
  at2 d x y = Ok (nth (Z.to_nat x) (nth (Z.to_nat y) d []) 0).
Proof.
  intros Hy Hx. unfold at2.
  replace ((y <? 0) || (x <? 0)) with false by (symmetry; apply orb_false_iff; split; apply Z.ltb_ge; lia).
  rewrite (nth_error_nth' d [] (n := Z.to_nat y)) by lia.
  rewrite (nth_error_nth' _ 0 (n := Z.to_nat x)) by lia. reflexivity.
Qed.

Lemma savePGM_row (d : list (list Z)) w y out :
  0 <= y < Z.of_nat (List.length d) ->
  Z.of_nat (List.length (nth (Z.to_nat y) d [])) = w ->
  for_range (Z.to_nat w) 0 (fun x out =>
      v <- at2 d x y ;;
      let out := out ++ itoa v in
      Ok (if (x <? w - 1) && negb false then out ++ [SP] else out)) out
  = Ok (out ++ join_sp (map itoa (nth (Z.to_nat y) d []))).
Proof.
  intros Hy Hw. set (row := nth (Z.to_nat y) d []) in *.
  match goal with |- for_range _ _ ?b _ = _ => set (body := b) end.
  destruct (for_range_inv
    (fun k s => s = out ++ join_sp (map itoa (firstn (Z.to_nat k) row))
                    ++ (if (0 <? k) && (k <? w) then [SP] else []))
    (Z.to_nat w) 0 body out) as [s' [E Hs']].
  - simpl. rewrite app_nil_r. reflexivity.
  - intros k s Hk Hs. rewrite Z2Nat.id in Hk by lia.
    unfold body. rewrite (at2_nth d k y Hy) by (fold row; lia). cbn [bind]. eexists; split; [reflexivity|].
    fold row. subst s.
    replace (Z.to_nat (k + 1)) with (Datatypes.S (Z.to_nat k)) by lia.
    rewrite (firstn_snoc row (Z.to_nat k) 0) by lia. rewrite map_app. cbn [map]. rewrite join_sp_snoc.
    assert (Hm : (match map itoa (firstn (Z.to_nat k) row) with [] => [] | _ => [SP] end)
                 = if (0 <? k) && (k <? w) then [SP] else []).
    { destruct (Z.to_nat k) as [|k'] eqn:Ek.
      - replace ((0 <? k) && (k <? w)) with false by lia. reflexivity.
      - destruct row as [|a row']; [simpl in Hw; lia|].
        replace ((0 <? k) && (k <? w)) with true by lia. reflexivity. }
    rewrite Hm. rewrite <- !app_assoc.
    destruct ((k <? w - 1) && negb false) eqn:Ec;
      [replace ((0 <? k + 1) && (k + 1 <? w)) with true by lia
      |replace ((0 <? k + 1) && (k + 1 <? w)) with false by lia];
      rewrite <- ?app_assoc, ?app_nil_r; reflexivity.
  - rewrite E, Hs'. rewrite Z.add_0_l, Z2Nat.id by lia.
    replace ((0 <? w) && (w <? w)) with false by lia.
    rewrite <- Hw, Nat2Z.id, firstn_all, app_nil_r. reflexivity.
Qed.

Lemma savePGM_P2 pgm :
  grid_wf (pgm_data pgm) (pgm_width pgm) (pgm_height pgm) = true ->
  savePGM_body pgm false = Ok (flat_map p2_line (pgm_data pgm)).
Proof.
  intros Hwf. destruct (grid_wf_spec _ _ _ Hwf) as [Hh Hw].
  destruct pgm as [d w h m mx]; cbn [pgm_data pgm_width pgm_height] in *. unfold savePGM_body.
  cbn [pgm_data pgm_width pgm_height].
  match goal with |- for_range _ _ ?b _ = _ => set (body := b) end.
  destruct (for_range_inv (fun k s => s = flat_map p2_line (firstn (Z.to_nat k) d))
    (Z.to_nat h) 0 body []) as [s' [E Hs']].
  - reflexivity.
  - intros k s Hk Hs. rewrite Z2Nat.id in Hk by lia.
    unfold body. rewrite savePGM_row by (try apply Hw, nth_In; lia). cbn [bind]. eexists; split; [reflexivity|].
    subst s. replace (Z.to_nat (k + 1)) with (Datatypes.S (Z.to_nat k)) by lia.
    rewrite (firstn_snoc d (Z.to_nat k) []) by lia. rewrite flat_map_app. cbn [flat_map].
    unfold p2_line. rewrite ?app_nil_r, <- ?app_assoc. reflexivity.
  - rewrite E, Hs'. replace (Z.to_nat (0 + Z.of_nat (Z.to_nat h))) with (List.length d) by lia.
    rewrite firstn_all. reflexivity.
Qed.

Lemma row_tokens (row : list Z) : Forall (fun v => 0 <= v < 256) row -> Forall token_ok (map itoa row).
Proof.
  intros H. apply Forall_map. refine (Forall_impl _ _ H). intros v Hv. apply itoa_token. split; [lia | apply Z.lt_trans with 256; [lia | reflexivity]].
Qed.

Lemma ReadPGM_body_P2 (d : list (list Z)) w r rest :
  (forall row, In row d -> Z.of_nat (List.length row) = w /\ Forall (fun v => 0 <= v < 256) row) ->
  reader_wf r -> rbuf r ++ rfile r = flat_map p2_line d ++ rest ->
  exists r', ReadPGM_body P2 w (Z.of_nat (List.length d)) r = Ok (d, r').
Proof.
  intros Hd Hwf Hc. unfold ReadPGM_body. change (bytes_eqb P2 P2) with true. cbv iota.
  match goal with |- exists _, for_range _ _ ?b _ = _ => set (body := b) end.
  destruct (for_range_inv (fun k st => let '(acc, r) := st in
      acc = firstn (Z.to_nat k) d /\ rbuf r ++ rfile r = flat_map p2_line (skipn (Z.to_nat k) d) ++ rest
      /\ reader_wf r)
    (Z.to_nat (Z.of_nat (List.length d))) 0 body ([], r)) as [[acc r'] [E [Ha _]]].
  - split; [reflexivity|]. split; [exact Hc | exact Hwf].
  - intros k [acc rk] Hk [Hacc [Hrk Hwk]]. rewrite Nat2Z.id in Hk.
    set (row := nth (Z.to_nat k) d []).
    assert (Hin : In row d) by (apply nth_In; lia).
    destruct (Hd row Hin) as [Hw Hb].
    rewrite (skipn_nth d (Z.to_nat k) []) in Hrk by lia. fold row in Hrk.
    cbn [flat_map] in Hrk. unfold p2_line at 1 in Hrk. rewrite <- !app_assoc in Hrk.
    destruct (ReadString_line rk (join_sp (map itoa row)) _ Hwk
      (join_sp_no_nl _ (row_tokens row Hb)) Hrk) as [r2 [E2 [Hc2 Hwf2]]].
    unfold body. rewrite E2. cbn [bind].
    rewrite (Fields_join _ (row_tokens row Hb)).
    rewrite <- Hw. rewrite Nat2Z.id.
    pose proof (read_p2_fields_itoa row [] (Z.of_nat (List.length row)) Hb eq_refl) as Hr.
    cbn [app List.length Z.of_nat] in Hr. rewrite Hr. cbn [bind].
    eexists; split; [reflexivity|].
    replace (Z.to_nat (k + 1)) with (Datatypes.S (Z.to_nat k)) by lia.
    split; [|split; [exact Hc2 | exact Hwf2]].
    rewrite (firstn_snoc d (Z.to_nat k) []) by lia. rewrite Hacc. reflexivity.
  - exists r'. rewrite E. rewrite Ha. rewrite Z.add_0_l, !Nat2Z.id, firstn_all. reflexivity.
Qed.

Lemma last_app_cons (l m : list Z) a d : last (l ++ a :: m) d = last (a :: m) d.
Proof.
  induction l as [|b l IH]; [reflexivity|].
  cbn [app]. rewrite <- IH. destruct l; reflexivity.
Qed.

Lemma TrimSpace_join toks : Forall token_ok toks -> toks <> [] ->
  TrimSpace (join_sp toks ++ [NL]) = join_sp toks.
Proof.
  intros Hf Hne. apply TrimSpace_line.
  - destruct toks as [|t ts]; [contradiction|]. inversion Hf as [|? ? [Ht _] _]; subst.
    destruct ts; [exact Ht|]. cbn [join_sp]. destruct t; [contradiction | discriminate].
  - destruct toks as [|t ts]; [contradiction|]. inversion Hf as [|? ? Ht _]; subst.
    destruct (token_hd_last t Ht) as [Hn [Hh _]].
    destruct ts; [exact Hh|]. cbn [join_sp]. destruct t; [contradiction | exact Hh].
  - induction toks as [|t ts IH]; [contradiction|]. inversion Hf as [|? ? Ht Hts]; subst.
    destruct ts as [|t' ts].
    + apply (token_hd_last t Ht).
    + change (join_sp (t :: t' :: ts)) with (t ++ SP :: join_sp (t' :: ts)).
      rewrite last_app_cons.
      assert (Hj : join_sp (t' :: ts) <> []).
      { inversion Hts as [|? ? [Ht' _] _]; subst. destruct ts; [exact Ht'|].
        cbn [join_sp]. destruct t'; [contradiction | discriminate]. }
      destruct (join_sp (t' :: ts)) as [|c j] eqn:Ej; [contradiction|].
      change (last (SP :: c :: j) 0) with (last (c :: j) 0). apply IH; [exact Hts | discriminate].
Qed.

Lemma reader_wf_new file : reader_wf (NewReader file).
Proof. split; [apply Nat.le_0_l | discriminate]. Qed.

(** [PGM.Save] then [ReadPGM] on a well-formed [P2] graymap with positive
    dimensions and samples and maximum in [0, 255]: the bytes written read
    back as the same graymap. *)
Theorem PGM_P2_roundtrip pgm :
  pgm_magicNumber pgm = P2 ->
  0 < pgm_width pgm <= int64_max -> 0 < pgm_height pgm <= int64_max ->
  0 <= pgm_max pgm < 256 ->
  grid_wf (pgm_data pgm) (pgm_width pgm) (pgm_height pgm) = true ->
  forallb (forallb is_byte) (pgm_data pgm) = true ->
  (file <- PGM_Save pgm ;; ReadPGM file) = Ok pgm.
Proof.
  intros Hm Hw Hh Hmx Hwf Hb.
  destruct (grid_wf_spec _ _ _ Hwf) as [Hlen Hrows].
  unfold PGM_Save. rewrite (savePGM_P2 pgm Hwf), Hm.
  change (bytes_eqb P2 P2) with true. cbv iota. cbn [bind].
  destruct pgm as [d w h m mx]; cbn [pgm_data pgm_width pgm_height pgm_magicNumber pgm_max] in *.
  subst m.
  assert (Htw : token_ok (itoa w)) by (apply itoa_token; unfold int64_max in Hw; lia).
  assert (Hth : token_ok (itoa h)) by (apply itoa_token; unfold int64_max in Hh; lia).
  assert (Htm : token_ok (itoa mx)) by (apply itoa_token; lia).
  unfold ReadPGM.
  match goal with |- context [ReadString (NewReader ?f)] => set (file := f) end.
  destruct (ReadString_line (NewReader file) P2
     (itoa w ++ SP :: itoa h ++ NL :: itoa mx ++ NL :: flat_map p2_line d)
     (reader_wf_new _) ltac:(vm_compute; intuition discriminate)
     ltac:(cbn [rbuf rfile NewReader app]; unfold file; rewrite <- !app_assoc; reflexivity))
    as [r1 [E1 [C1 W1]]].
  rewrite E1. cbn [bind].
  change (TrimSpace (P2 ++ [NL])) with P2.
  change (negb (bytes_eqb P2 P2 || bytes_eqb P2 P5)) with false. cbv iota.
  destruct (ReadString_line r1 (join_sp [itoa w; itoa h])
     (itoa mx ++ NL :: flat_map p2_line d) W1
     (join_sp_no_nl [itoa w; itoa h] (Forall_cons _ Htw (Forall_cons _ Hth (Forall_nil _))))
     ltac:(rewrite C1; cbn [join_sp]; rewrite <- app_assoc; reflexivity))
    as [r2 [E2 [C2 W2]]].
  rewrite E2. cbn [bind].
  rewrite (TrimSpace_join [itoa w; itoa h] (Forall_cons _ Htw (Forall_cons _ Hth (Forall_nil _))))
    by discriminate.
  cbn [join_sp]. rewrite Sscanf_dd_itoa by lia.
  replace ((w <=? 0) || (h <=? 0)) with false by lia.
  destruct (ReadString_line r2 (join_sp [itoa mx]) (flat_map p2_line d) W2
     (join_sp_no_nl [itoa mx] (Forall_cons _ Htm (Forall_nil _)))
     ltac:(rewrite C2; reflexivity))
    as [r3 [E3 [C3 W3]]].
  rewrite E3. cbn [bind].
  rewrite (TrimSpace_join [itoa mx] (Forall_cons _ Htm (Forall_nil _))) by discriminate.
  cbn [join_sp]. rewrite Sscanf_d_itoa by (unfold int64_max; lia).
  destruct (ReadPGM_body_P2 d w r3 []) as [r4 E4].
  - intros row Hr. split; [apply Hrows, Hr|].
    rewrite forallb_forall in Hb. specialize (Hb row Hr). rewrite forallb_forall in Hb.
    apply Forall_forall. intros v Hv. specialize (Hb v Hv). unfold is_byte in Hb. lia.
  - exact W3.
  - rewrite C3, app_nil_r. reflexivity.
  - rewrite <- Hlen, E4. cbn [bind]. unfold wrap8. rewrite Z.mod_small by lia. reflexivity.
Qed.

Lemma PGM_P2_roundtrip_witness : (file <- PGM_Save g3x2 ;; ReadPGM file) = Ok g3x2.
Proof.
  exact (PGM_P2_roundtrip g3x2 eq_refl ltac:(unfold int64_max; simpl; lia)
           ltac:(unfold int64_max; simpl; lia) ltac:(simpl; lia) eq_refl eq_refl).
Defined.

(** ** Reading back the text encoding of bitmaps *)

Lemma Atoi_itoa n : 0 <= n <= int64_max -> Atoi (itoa n) = Some n.
Proof.
  intros Hn. unfold int64_max in Hn.
  destruct (itoa_cons n ltac:(lia)) as [d [ds Ed]].
  assert (Hd : is_digit d = true) by (apply (itoa_digits n); [lia | rewrite Ed; left; reflexivity]).
  unfold Atoi. rewrite Ed.
  rewrite (sign_digit d ds (fun r => (-1, r)) (fun r => (1, r)) (1, d :: ds) Hd).
  rewrite <- Ed, <- (app_nil_r (itoa n)), take_itoa by lia. cbn [take_digits].
  unfold int64_min, int64_max.
  replace ((- 2 ^ 63 <=? 1 * n) && (1 * n <=? 2 ^ 63 - 1)) with true
    by (symmetry; apply andb_true_iff; split; apply Z.leb_le; lia).
  f_equal. lia.
Qed.

Lemma ReadByte_cons r b rest :
  reader_wf r -> rbuf r ++ rfile r = b :: rest ->
  exists r', ReadByte r = Ok (b, r') /\ rbuf r' ++ rfile r' = rest /\ reader_wf r'.
Proof.
  intros [Hl He] Hc. destruct r as [buf file eof]; cbn [rbuf rfile reof] in *.
  unfold ReadByte; cbn [rbuf rfile reof].
  destruct buf as [|b' buf].
  - cbn [app] in Hc. subst file. unfold fill; cbn [rbuf rfile reof].
    assert (Hk : exists k, (defaultBufSize - List.length (@nil Z))%nat = Datatypes.S k /\ (k < defaultBufSize)%nat)
      by (exists 4095%nat; split; reflexivity || (unfold defaultBufSize; lia)).
    destruct Hk as [k [Ek Hk]]. rewrite Ek. cbn [app firstn skipn rbuf rfile reof].
    eexists; split; [reflexivity|]. cbn [rbuf rfile reof]. split; [apply firstn_skipn|].
    split; [|discriminate]. cbn [rbuf]. rewrite length_firstn. lia.
  - cbn [app] in Hc. injection Hc as -> Hc.
    eexists; split; [reflexivity|]. cbn [rbuf rfile reof]. split; [exact Hc|].
    split; [cbn [rbuf List.length] in *; lia | exact He].
Qed.

Lemma read_bit_char_skip pre : forall fuel r c rest,
  reader_wf r -> rbuf r ++ rfile r = pre ++ c :: rest ->
  Forall not_bit pre -> (c = 48 \/ c = 49) -> (List.length pre < fuel)%nat ->
  exists r', read_bit_char fuel r = Ok (c =? 49, r') /\ rbuf r' ++ rfile r' = rest /\ reader_wf r'.
Proof.
  induction pre as [|b pre IH]; intros fuel r c rest Hwf Hc Hpre Hbit Hf;
    (destruct fuel as [|fuel]; [cbn [List.length] in Hf; lia|]); cbn [read_bit_char].
  - destruct (ReadByte_cons r c rest Hwf Hc) as [r' [E [C W]]].
    unfold ReadRune. rewrite E. cbn [bind].
    replace ((c =? 48) || (c =? 49)) with true by lia.
    exists r'. split; [reflexivity | split; assumption].
  - inversion Hpre as [|? ? [H48 H49] Hpre']; subst.
    destruct (ReadByte_cons r b (pre ++ c :: rest) Hwf Hc) as [r' [E [C W]]].
    unfold ReadRune. rewrite E. cbn [bind].
    replace ((b =? 48) || (b =? 49)) with false by lia.
    apply (IH fuel r' c rest W C Hpre' Hbit). cbn [List.length] in Hf. lia.
Qed.

Lemma p1_pixel_cons v : p1_pixel v = (if v then 49 else 48) :: [SP].
Proof. destruct v; reflexivity. Qed.

Lemma reader_size_content r : reader_size r = (List.length (rbuf r ++ rfile r) + 1)%nat.
Proof. unfold reader_size. rewrite length_app. reflexivity. Qed.

Lemma not_bit_SP : not_bit SP.
Proof. unfold not_bit, SP. lia. Qed.

Lemma not_bit_NL : not_bit NL.
Proof. unfold not_bit, NL. lia. Qed.

Lemma read_p1_row (row : list bool) w r sep rest :
  Z.of_nat (List.length row) = w -> reader_wf r -> Forall not_bit sep ->
  rbuf r ++ rfile r = sep ++ flat_map p1_pixel row ++ rest ->
  exists r' sep',
    for_range (Z.to_nat w) 0 (fun x st =>
            let '(row, r) := st in
            br <- read_bit_char (reader_size r) r ;;
            let '(v, r') := br in
            row' <- set_row row x v ;;
            Ok (row', r')) (repeat false (Z.to_nat w), r) = Ok (row, r')
    /\ Forall not_bit sep' /\ rbuf r' ++ rfile r' = sep' ++ rest /\ reader_wf r'.
Proof.
  intros Hw Hwf Hsep Hc.
  match goal with |- exists _ _, for_range _ _ ?b _ = _ /\ _ => set (body := b) end.
  destruct (for_range_inv (fun k st => let '(acc, r) := st in
      acc = firstn (Z.to_nat k) row ++ repeat false (Z.to_nat w - Z.to_nat k) /\
      exists sep, Forall not_bit sep /\
        rbuf r ++ rfile r = sep ++ flat_map p1_pixel (skipn (Z.to_nat k) row) ++ rest /\ reader_wf r)
    (Z.to_nat w) 0 body (repeat false (Z.to_nat w), r)) as [[acc r'] [E [Ha [sep' [Hs' [Hc' Hw']]]]]].
  - split; [rewrite Nat.sub_0_r; reflexivity|]. exists sep. split; [exact Hsep|]. split; assumption.
  - intros k [acc rk] Hk [Hacc [sk [Hsk [Hck Hwk]]]]. rewrite Z2Nat.id in Hk by lia.
    set (v := nth (Z.to_nat k) row false).
    rewrite (skipn_nth row (Z.to_nat k) false) in Hck by lia. fold v in Hck.
    cbn [flat_map] in Hck. rewrite p1_pixel_cons in Hck. cbn [app] in Hck.

    destruct (read_bit_char_skip sk (reader_size rk) rk (if v then 49 else 48) _ Hwk Hck Hsk
      ltac:(destruct v; [right|left]; reflexivity)
      ltac:(rewrite reader_size_content, Hck, length_app; cbn [List.length]; lia))
      as [r2 [E2 [C2 W2]]].
    unfold body. rewrite E2. cbn [bind].
    replace ((if v then 49 else 48) =? 49) with v by (destruct v; reflexivity).
    unfold set_row. rewrite Hacc.
    replace (Z.to_nat w - Z.to_nat k)%nat with (Datatypes.S (Z.to_nat w - Z.to_nat (k + 1)))%nat by lia.
    cbn [repeat].
    pose proof (set_nth_app (firstn (Z.to_nat k) row)
                  (repeat false (Z.to_nat w - Z.to_nat (k + 1))) false v) as Hsn.
    rewrite length_firstn, Nat.min_l in Hsn by lia. rewrite Hsn. cbn [bind].
    eexists; split; [reflexivity|].
    replace (Z.to_nat (k + 1)) with (Datatypes.S (Z.to_nat k)) by lia.
    split.
    + rewrite (firstn_snoc row (Z.to_nat k) false) by lia. fold v. rewrite <- app_assoc. reflexivity.
    + exists [SP]. split; [repeat constructor; apply not_bit_SP|]. split; [exact C2 | exact W2].
  - exists r', sep'. rewrite Z.add_0_l, Z2Nat.id in * by lia.
    rewrite <- Hw, Nat2Z.id, firstn_all, Nat.sub_diag, app_nil_r in Ha.
    rewrite <- Hw, Nat2Z.id, skipn_all in Hc'. cbn [flat_map app] in Hc'.
    rewrite E, Ha. split; [reflexivity|]. split; [exact Hs'|]. split; assumption.
Qed.

Lemma read_p1_rows (d : list (list bool)) w r sep rest :
  (forall row, In row d -> Z.of_nat (List.length row) = w) ->
  reader_wf r -> Forall not_bit sep ->
  rbuf r ++ rfile r = sep ++ flat_map p1_line d ++ rest ->
  exists r',
    for_range (Z.to_nat (Z.of_nat (List.length d))) 0 (fun y st =>
          let '(data, r) := st in
          rowr <- for_range (Z.to_nat w) 0 (fun x st =>
            let '(row, r) := st in
            br <- read_bit_char (reader_size r) r ;;
            let '(v, r') := br in
            row' <- set_row row x v ;;
            Ok (row', r')) (repeat false (Z.to_nat w), r) ;;
          let '(row, r') := rowr in
          Ok (data ++ [row], r')) ([], r) = Ok (d, r').
Proof.
  intros Hd Hwf Hsep Hc.
  match goal with |- exists _, for_range _ _ ?b _ = _ => set (body := b) end.
  destruct (for_range_inv (fun k st => let '(acc, r) := st in
      acc = firstn (Z.to_nat k) d /\
      exists sep, Forall not_bit sep /\
        rbuf r ++ rfile r = sep ++ flat_map p1_line (skipn (Z.to_nat k) d) ++ rest /\ reader_wf r)
    (Z.to_nat (Z.of_nat (List.length d))) 0 body ([], r)) as [[acc r'] [E [Ha _]]].
  - split; [reflexivity|]. exists sep. split; [exact Hsep|]. split; assumption.
  - intros k [acc rk] Hk [Hacc [sk [Hsk [Hck Hwk]]]]. rewrite Nat2Z.id in Hk.
    set (row := nth (Z.to_nat k) d []).
    assert (Hin : In row d) by (apply nth_In; lia).
    rewrite (skipn_nth d (Z.to_nat k) []) in Hck by lia. fold row in Hck.
    cbn [flat_map] in Hck. unfold p1_line at 1 in Hck. rewrite <- !app_assoc in Hck.
    destruct (read_p1_row row w rk sk _ (Hd row Hin) Hwk Hsk Hck) as [r2 [sep2 [E2 [Hs2 [C2 W2]]]]].
    unfold body. rewrite E2. cbn [bind].
    eexists; split; [reflexivity|].
    replace (Z.to_nat (k + 1)) with (Datatypes.S (Z.to_nat k)) by lia.
    split.
    + rewrite (firstn_snoc d (Z.to_nat k) []) by lia. rewrite Hacc. reflexivity.
    + exists (sep2 ++ [NL]). split.
      * apply Forall_app. split; [exact Hs2 | repeat constructor; apply not_bit_NL].
      * split; [|exact W2]. rewrite C2, <- app_assoc. reflexivity.
  - exists r'. rewrite E, Ha. rewrite Z.add_0_l, !Nat2Z.id, firstn_all. reflexivity.
Qed.

Lemma HasPrefix_hash n l : 0 <= n < 10 ^ 20 ->
  HasPrefix (itoa n ++ l) (bytes_of_string "#") = false.
Proof.
  intros Hn. destruct (itoa_cons n Hn) as [d [ds Ed]].
  assert (Hd : is_digit d = true) by (apply (itoa_digits n); [lia | rewrite Ed; left; reflexivity]).
  apply digit_range in Hd. rewrite Ed. change (bytes_of_string "#") with [35].
  cbn [app HasPrefix]. replace (d =? 35) with false by lia. reflexivity.
Qed.

Lemma ReadPBM_dims_line fuel r w h rest :
  0 <= w <= int64_max -> 0 <= h <= int64_max -> reader_wf r ->
  rbuf r ++ rfile r = itoa w ++ SP :: itoa h ++ NL :: rest ->
  exists r', ReadPBM_dims (Datatypes.S fuel) r = Ok (w, h, r') /\ rbuf r' ++ rfile r' = rest /\ reader_wf r'.
Proof.
  intros Hw Hh Hwf Hc. unfold int64_max in *.
  assert (Htw : token_ok (itoa w)) by (apply itoa_token; lia).
  assert (Hth : token_ok (itoa h)) by (apply itoa_token; lia).
  pose proof (Forall_cons _ Htw (Forall_cons _ Hth (Forall_nil _))) as Ht.
  destruct (ReadString_line r (join_sp [itoa w; itoa h]) rest Hwf (join_sp_no_nl _ Ht)
     ltac:(rewrite Hc; cbn [join_sp]; rewrite <- app_assoc; reflexivity)) as [r' [E [C W]]].
  exists r'. split; [|split; assumption].
  cbn [ReadPBM_dims]. rewrite E.
  cbn [join_sp]. rewrite <- app_assoc, HasPrefix_hash by lia.
  rewrite app_assoc. change (itoa w ++ SP :: itoa h) with (join_sp [itoa w; itoa h]).
  rewrite (Fields_join _ Ht).
  rewrite !Atoi_itoa by (unfold int64_max; lia). reflexivity.
Qed.

(** [PBM.Save] then [ReadPBM] on a well-formed [P1] bitmap whose width and
    height are in the range of [int]: the bytes written read back as the same
    bitmap. *)
Theorem PBM_P1_roundtrip pbm :
  pbm_magicNumber pbm = P1 ->
  0 <= pbm_width pbm <= int64_max -> 0 <= pbm_height pbm <= int64_max ->
  grid_wf (pbm_data pbm) (pbm_width pbm) (pbm_height pbm) = true ->
  (file <- PBM_Save pbm ;; ReadPBM file) = Ok pbm.
Proof.
  intros Hm Hw Hh Hwf.
  destruct (grid_wf_spec _ _ _ Hwf) as [Hlen Hrows].
  destruct pbm as [d w h m]; cbn [pbm_data pbm_width pbm_height pbm_magicNumber] in *. subst m.
  unfold PBM_Save. cbn [pbm_data pbm_width pbm_height pbm_magicNumber].
  change (bytes_eqb P1 P1) with true. cbv iota. cbn [bind].
  change (fun row : list bool => flat_map (fun pixel : bool =>
            bytes_of_string (if pixel then "1 " else "0 ")) row ++ [NL]) with p1_line.
  unfold ReadPBM.
  match goal with |- context [ReadString (NewReader ?f)] => set (file := f) end.
  destruct (ReadString_line (NewReader file) P1
     (itoa w ++ SP :: itoa h ++ NL :: flat_map p1_line d)
     (reader_wf_new _) ltac:(vm_compute; intuition discriminate)
     ltac:(cbn [rbuf rfile NewReader app]; unfold file; rewrite <- !app_assoc; reflexivity))
    as [r1 [E1 [C1 W1]]].
  rewrite E1. cbv beta iota zeta.
  change (TrimSpace (P1 ++ [NL])) with P1.
  destruct (ReadPBM_dims_line (List.length file) r1 w h (flat_map p1_line d) Hw Hh W1 C1)
    as [r2 [E2 [C2 W2]]].
  rewrite Nat.add_1_r, E2. cbn [bind].
  unfold make_bool_grid.
  replace (h <? 0) with false by lia. replace ((0 <? h) && (w <? 0)) with false by lia.
  cbn [bind]. change (bytes_eqb P1 P1) with true. cbv iota.
  destruct (read_p1_rows d w r2 [] [] Hrows W2 (Forall_nil _)
     ltac:(rewrite C2, app_nil_r; reflexivity)) as [r3 E3].
  rewrite <- Hlen, E3. reflexivity.
Qed.

Lemma PBM_P1_roundtrip_witness : (file <- PBM_Save b3x2 ;; ReadPBM file) = Ok b3x2.
Proof.
  exact (PBM_P1_roundtrip b3x2 eq_refl ltac:(unfold int64_max; simpl; lia)
           ltac:(unfold int64_max; simpl; lia) eq_refl).
Defined.

(** ** Reading back the binary encoding of bitmaps *)

Lemma nth_error_p4_prefix row k j :
  nth_error (p4_prefix row k) j =
  if (j <? List.length row)%nat then Some (if (j <? k)%nat then nth j row false else false) else None.
Proof.
  unfold p4_prefix. rewrite nth_error_map, nth_error_seq.
  destruct (j <? List.length row)%nat; reflexivity.
Qed.

Lemma p4_prefix_0 row : p4_prefix row 0 = repeat false (List.length row).
Proof.
  unfold p4_prefix. rewrite <- (length_seq (List.length row) 0) at 2. rewrite <- map_const.
  apply map_ext. intros j. reflexivity.
Qed.

Lemma p4_prefix_all row k : (List.length row <= k)%nat -> p4_prefix row k = row.
Proof.
  intros Hk. apply nth_error_ext. intros j. rewrite nth_error_p4_prefix.
  destruct (Nat.ltb_spec j (List.length row)).
  - replace (j <? k)%nat with true by lia. symmetry. apply nth_error_nth'. lia.
  - symmetry. apply nth_error_None. lia.
Qed.

Lemma set_row_p4_prefix row k v : (k < List.length row)%nat -> v = nth k row false ->
  set_row (p4_prefix row k) (Z.of_nat k) v = Ok (p4_prefix row (Datatypes.S k)).
Proof.
  intros Hk ->. unfold set_row. rewrite Nat2Z.id.
  destruct (set_nth_spec (p4_prefix row k) k (nth k row false)) as [l' [E [_ N]]].
  { unfold p4_prefix. rewrite length_map, length_seq. exact Hk. }
  rewrite E. f_equal. apply nth_error_ext. intros j. rewrite N, !nth_error_p4_prefix.
  destruct (Nat.eqb_spec j k) as [->|Hj].
  - replace (k <? List.length row)%nat with true by lia.
    replace (k <? Datatypes.S k)%nat with true by lia. reflexivity.
  - destruct (j <? List.length row)%nat; [|reflexivity].
    replace (j <? Datatypes.S k)%nat with (j <? k)%nat by (destruct (Nat.ltb_spec j k), (Nat.ltb_spec j (Datatypes.S k)); lia).
    reflexivity.
Qed.

Lemma testbit_pack_row row i b : (b < 8)%nat ->
  Z.testbit (nth i (pack_row row (Z.of_nat (List.length row))) 0) (7 - Z.of_nat b)
  = (i * 8 + b <? List.length row)%nat && nth (i * 8 + b) row false.
Proof.
  intros Hb. replace (7 - Z.of_nat b) with (Z.of_nat (7 - b)) by lia.
  rewrite (proj2 (pack_row_inv row (Z.of_nat (List.length row)))). unfold packed_bit.
  rewrite Nat2Z.id. replace (7 - (7 - b))%nat with b by lia.
  replace (7 - b <? 8)%nat with true by lia. reflexivity.
Qed.

Lemma unpack_p4_prefix row i :
  (i * 8 < List.length row)%nat ->
  unpack_byte (p4_prefix row (i * 8)) (Z.of_nat (i * 8)) (Z.of_nat (List.length row))
    (nth i (pack_row row (Z.of_nat (List.length row))) 0)
  = Ok (p4_prefix row (Nat.min (i * 8 + 8) (List.length row))).
Proof.
  intros Hi. unfold unpack_byte.
  match goal with |- for_range _ _ ?b _ = _ => set (body := b) end.
  destruct (for_range_inv (fun b acc =>
      acc = p4_prefix row (Nat.min (i * 8 + Z.to_nat b) (List.length row))) 8 0 body
      (p4_prefix row (i * 8))) as [acc [E Ha]].
  - f_equal. lia.
  - intros b acc Hb Hacc. unfold body. subst acc.
    destruct (Z.ltb_spec (Z.of_nat (i * 8) + b) (Z.of_nat (List.length row))) as [Hlt|Hge].
    + replace (Nat.min (i * 8 + Z.to_nat b) (List.length row)) with (i * 8 + Z.to_nat b)%nat by lia.
      replace (Z.of_nat (i * 8) + b) with (Z.of_nat (i * 8 + Z.to_nat b)) by lia.
      rewrite set_row_p4_prefix; [eexists; split; [reflexivity|] | lia |].
      * f_equal. lia.
      * replace (7 - b) with (7 - Z.of_nat (Z.to_nat b)) by lia.
        rewrite testbit_pack_row by lia.
        replace (i * 8 + Z.to_nat b <? List.length row)%nat with true by lia. reflexivity.
    + eexists; split; [reflexivity|]. f_equal. lia.
  - rewrite E, Ha. reflexivity.
Qed.

Lemma pack_row_length row :
  List.length (pack_row row (Z.of_nat (List.length row))) = ((List.length row + 7) / 8)%nat.
Proof. rewrite (proj1 (pack_row_inv row _)), Nat2Z.id. reflexivity. Qed.

Lemma read_p4_row_ok row rest last fuel : forall i r,
  (i <= (List.length row + 7) / 8)%nat -> ((List.length row + 7) / 8 - i <= fuel)%nat ->
  reader_wf r ->
  rbuf r ++ rfile r = skipn i (pack_row row (Z.of_nat (List.length row))) ++ rest ->
  exists r', read_p4_row fuel (Z.of_nat (i * 8)) (Z.of_nat (List.length row)) last
               (p4_prefix row (Nat.min (i * 8) (List.length row))) r = Ok (row, r')
             /\ rbuf r' ++ rfile r' = rest /\ reader_wf r'.
Proof.
  set (w := List.length row). set (pk := pack_row row (Z.of_nat w)).
  assert (Hpk : List.length pk = ((w + 7) / 8)%nat) by apply pack_row_length.
  assert (Hdm : (w + 7 = 8 * ((w + 7) / 8) + (w + 7) mod 8)%nat) by (apply Nat.div_mod; discriminate).
  assert (Hmb : ((w + 7) mod 8 < 8)%nat) by (apply Nat.mod_upper_bound; discriminate).
  set (nb := ((w + 7) / 8)%nat) in *.
  induction fuel as [|fuel IH]; intros i r Hi Hf Hwf Hc.
  - assert (Hend : (w <= i * 8)%nat) by lia.
    exists r. cbn [read_p4_row]. rewrite Nat.min_r, p4_prefix_all by lia.
    split; [reflexivity|]. split; [|exact Hwf].
    rewrite Hc, skipn_all2 by lia. reflexivity.
  - cbn [read_p4_row].
    destruct (Nat.leb_spec w (i * 8)) as [Hend|Hlt].
    + replace (Z.of_nat w <=? Z.of_nat (i * 8)) with true by lia.
      exists r. rewrite Nat.min_r, p4_prefix_all by lia.
      split; [reflexivity|]. split; [|exact Hwf].
      rewrite Hc, skipn_all2 by lia. reflexivity.
    + replace (Z.of_nat w <=? Z.of_nat (i * 8)) with false by lia.
      rewrite (skipn_nth pk i 0) in Hc by lia. cbn [app] in Hc.
      destruct (ReadByte_cons r _ _ Hwf Hc) as [r1 [E1 [C1 W1]]].
      rewrite E1. rewrite Nat.min_l by lia.
      unfold pk. rewrite unpack_p4_prefix by lia. cbn [bind].
      replace (Z.of_nat (i * 8) + 8) with (Z.of_nat (Datatypes.S i * 8)) by lia.
      replace (i * 8 + 8)%nat with (Datatypes.S i * 8)%nat by lia.
      apply IH; [lia | lia | exact W1 | exact C1].
Qed.

Lemma PBM_Save_P4_body (d : list (list bool)) w :
  (forall row, In row d -> Z.of_nat (List.length row) = w) ->
  for_range (Z.to_nat (Z.of_nat (List.length d))) 0 (fun y out =>
      match nth_error d (Z.to_nat y) with
      | None => Panic "index out of range"
      | Some row =>
          if Z.of_nat (List.length row) <? w then Panic "index out of range"
          else Ok (out ++ pack_row row w)
      end) [] = Ok (flat_map (fun row => pack_row row w) d).
Proof.
  intros Hd.
  match goal with |- for_range _ _ ?b _ = _ => set (body := b) end.
  destruct (for_range_inv (fun k s => s = flat_map (fun row => pack_row row w) (firstn (Z.to_nat k) d))
    (Z.to_nat (Z.of_nat (List.length d))) 0 body []) as [s' [E Hs']].
  - reflexivity.
  - intros k s Hk Hs. rewrite Nat2Z.id in Hk. unfold body.
    rewrite (nth_error_nth' d [] (n := Z.to_nat k)) by lia.
    assert (Hin : In (nth (Z.to_nat k) d []) d) by (apply nth_In; lia).
    rewrite (Hd _ Hin), Z.ltb_irrefl.
    eexists; split; [reflexivity|]. subst s.
    replace (Z.to_nat (k + 1)) with (Datatypes.S (Z.to_nat k)) by lia.
    rewrite (firstn_snoc d (Z.to_nat k) []) by lia. rewrite flat_map_app. cbn [flat_map].
    rewrite app_nil_r. reflexivity.
  - rewrite E, Hs', Z.add_0_l, !Nat2Z.id, firstn_all. reflexivity.
Qed.

Lemma read_p4_rows (d : list (list bool)) w h r rest :
  (forall row, In row d -> Z.of_nat (List.length row) = w) ->
  reader_wf r ->
  rbuf r ++ rfile r = flat_map (fun row => pack_row row w) d ++ rest ->
  exists r',
    for_range (Z.to_nat (Z.of_nat (List.length d))) 0 (fun y st =>
          let '(data, r) := st in
          rowr <- read_p4_row (Z.to_nat w) 0 w (y =? h - 1)
                    (repeat false (Z.to_nat w)) r ;;
          let '(row, r') := rowr in
          Ok (data ++ [row], r')) ([], r) = Ok (d, r').
Proof.
  intros Hd Hwf Hc.
  match goal with |- exists _, for_range _ _ ?b _ = _ => set (body := b) end.
  destruct (for_range_inv (fun k st => let '(acc, r) := st in
      acc = firstn (Z.to_nat k) d /\
      rbuf r ++ rfile r = flat_map (fun row => pack_row row w) (skipn (Z.to_nat k) d) ++ rest
      /\ reader_wf r)
    (Z.to_nat (Z.of_nat (List.length d))) 0 body ([], r)) as [[acc r'] [E [Ha _]]].
  - split; [reflexivity|]. split; assumption.
  - intros k [acc rk] Hk [Hacc [Hck Hwk]]. rewrite Nat2Z.id in Hk.
    set (row := nth (Z.to_nat k) d []).
    assert (Hin : In row d) by (apply nth_In; lia).
    pose proof (Hd row Hin) as Hw. subst w.
    rewrite (skipn_nth d (Z.to_nat k) []) in Hck by lia. fold row in Hck.
    cbn [flat_map] in Hck. rewrite <- app_assoc in Hck.
    rewrite <- (skipn_O (pack_row row _)) in Hck.
    assert (Hnb : ((List.length row + 7) / 8 <= List.length row)%nat).
    { assert (Hdm : (List.length row + 7 = 8 * ((List.length row + 7) / 8) + (List.length row + 7) mod 8)%nat)
        by (apply Nat.div_mod; discriminate).
      destruct (List.length row) as [|n]; [reflexivity|]. lia. }
    destruct (read_p4_row_ok row _ (k =? h - 1) (List.length row) 0 rk
       ltac:(lia) ltac:(lia) Hwk Hck) as [r2 [E2 [C2 W2]]].
    unfold body. rewrite Nat2Z.id.
    replace (repeat false (List.length row)) with (p4_prefix row (Nat.min (0 * 8) (List.length row)))
      by (rewrite Nat.min_l, p4_prefix_0 by lia; reflexivity).
    change (read_p4_row (List.length row) 0) with (read_p4_row (List.length row) (Z.of_nat (0 * 8))). rewrite E2. cbn [bind].
    eexists; split; [reflexivity|].
    replace (Z.to_nat (k + 1)) with (Datatypes.S (Z.to_nat k)) by lia.
    split; [|split; [exact C2 | exact W2]].
    rewrite (firstn_snoc d (Z.to_nat k) []) by lia. rewrite Hacc. reflexivity.
  - exists r'. rewrite E, Ha, Z.add_0_l, !Nat2Z.id, firstn_all. reflexivity.
Qed.

(** [PBM.Save] then [ReadPBM] on a well-formed [P4] bitmap whose width and
    height are in the range of [int]: the packed rows read back, byte by byte
    and most significant bit first, as the same bitmap. *)
Theorem PBM_P4_roundtrip pbm :
  pbm_magicNumber pbm = P4 ->
  0 <= pbm_width pbm <= int64_max -> 0 <= pbm_height pbm <= int64_max ->
  grid_wf (pbm_data pbm) (pbm_width pbm) (pbm_height pbm) = true ->
  (file <- PBM_Save pbm ;; ReadPBM file) = Ok pbm.
Proof.
  intros Hm Hw Hh Hwf.
  destruct (grid_wf_spec _ _ _ Hwf) as [Hlen Hrows].
  destruct pbm as [d w h m]; cbn [pbm_data pbm_width pbm_height pbm_magicNumber] in *. subst m h.
  unfold PBM_Save. cbn [pbm_data pbm_width pbm_height pbm_magicNumber].
  change (bytes_eqb P4 P1) with false. change (bytes_eqb P4 P4) with true. cbv iota.
  rewrite (PBM_Save_P4_body d w Hrows). cbn [bind].
  unfold ReadPBM.
  match goal with |- context [ReadString (NewReader ?f)] => set (file := f) end.
  destruct (ReadString_line (NewReader file) P4
     (itoa w ++ SP :: itoa (Z.of_nat (List.length d)) ++ NL :: flat_map (fun row => pack_row row w) d)
     (reader_wf_new _) ltac:(vm_compute; intuition discriminate)
     ltac:(cbn [rbuf rfile NewReader app]; unfold file; rewrite <- !app_assoc; reflexivity))
    as [r1 [E1 [C1 W1]]].
  rewrite E1. cbv beta iota zeta.
  change (TrimSpace (P4 ++ [NL])) with P4.
  destruct (ReadPBM_dims_line (List.length file) r1 w _ _ Hw Hh W1 C1) as [r2 [E2 [C2 W2]]].
  rewrite Nat.add_1_r, E2. cbn [bind].
  unfold make_bool_grid.
  replace (Z.of_nat (List.length d) <? 0) with false by lia.
  replace ((0 <? Z.of_nat (List.length d)) && (w <? 0)) with false by lia.
  cbn [bind]. change (bytes_eqb P4 P1) with false. change (bytes_eqb P4 P4) with true. cbv iota.
  destruct (read_p4_rows d w (Z.of_nat (List.length d)) r2 [] Hrows W2
     ltac:(rewrite C2, app_nil_r; reflexivity)) as [r3 E3].
  rewrite E3. reflexivity.
Qed.

Lemma PBM_P4_roundtrip_witness : (file <- PBM_Save b10 ;; ReadPBM file) = Ok b10.
Proof.
  exact (PBM_P4_roundtrip b10 eq_refl ltac:(unfold int64_max; simpl; lia)
           ltac:(unfold int64_max; simpl; lia) eq_refl).
Defined.

(** ** Reading back the pixmaps of [part_002] *)

Lemma Fields_space s rest : is_space s = true -> Fields (s :: rest) = Fields rest.
Proof. intros H. unfold Fields. cbn [fields_acc]. rewrite H. reflexivity. Qed.

Lemma Fields_word t s rest :
  t <> [] -> (forall b, In b t -> is_space b = false) -> is_space s = true ->
  Fields (t ++ s :: rest) = t :: Fields rest.
Proof.
  intros Hne Ht Hs. unfold Fields. rewrite fields_acc_tok by exact Ht.
  rewrite app_nil_r. cbn [fields_acc]. rewrite Hs.
  destruct (rev t) as [|c cs] eqn:E.
  - apply (f_equal (@rev Z)) in E. rewrite rev_involutive in E. contradiction.
  - rewrite <- E, rev_involutive. reflexivity.
Qed.

Lemma Fields_itoa n s rest : 0 <= n < 10 ^ 20 -> is_space s = true ->
  Fields (itoa n ++ s :: rest) = itoa n :: Fields rest.
Proof.
  intros Hn Hs. destruct (itoa_token n Hn) as [Hne Hd].
  apply Fields_word; [exact Hne | intros b Hb; apply digit_not_space, Hd, Hb | exact Hs].
Qed.

Lemma byte_small v : 0 <= v < 256 -> 0 <= v < 10 ^ 20.
Proof. intros H. split; [lia|]. apply Z.lt_trans with 256; [lia | reflexivity]. Qed.

Lemma Fields_pixels (row : list Pixel) rest :
  forallb pixel_bytes row = true ->
  Fields (flat_map pixel_text row ++ rest)
  = flat_map pixel_words row ++ Fields rest.
Proof.
  induction row as [|p row IH]; intros Hb; [reflexivity|].
  cbn [forallb] in Hb. apply andb_true_iff in Hb as [Hp Hb].
  unfold pixel_bytes, is_byte in Hp. repeat rewrite andb_true_iff in Hp.
  cbn [flat_map]. unfold pixel_text at 1. rewrite <- !app_assoc. cbn [app].
  rewrite !Fields_itoa by (reflexivity || (apply byte_small; lia)).
  rewrite IH by exact Hb. reflexivity.
Qed.

Lemma Fields_rows (d : list (list Pixel)) :
  forallb (forallb pixel_bytes) d = true ->
  Fields (flat_map (fun row => flat_map pixel_text row ++ [NL]) d)
  = flat_map (flat_map pixel_words) d.
Proof.
  induction d as [|row d IH]; intros Hb; [reflexivity|].
  cbn [forallb] in Hb. apply andb_true_iff in Hb as [Hr Hb].
  cbn [flat_map]. rewrite <- app_assoc. rewrite Fields_pixels by exact Hr.
  cbn [app]. rewrite Fields_space by reflexivity. rewrite IH by exact Hb. reflexivity.
Qed.

Lemma next_u8_itoa v ws : 0 <= v < 256 -> next_u8 (itoa v :: ws) = Ok (v, ws).
Proof. intros Hv. unfold next_u8, next_word. cbn [bind fst snd]. rewrite Sscanf_d_u8_itoa by exact Hv. reflexivity. Qed.

Lemma next_int_itoa n ws what : 0 <= n <= int64_max -> next_int (itoa n :: ws) what = Ok (n, ws).
Proof. intros Hn. unfold next_int, next_word. cbn [bind fst snd]. rewrite Sscanf_d_itoa by exact Hn. reflexivity. Qed.

Lemma read_ppm_row (row : list Pixel) w more :
  Z.of_nat (List.length row) = w -> forallb pixel_bytes row = true ->
  for_range (Z.to_nat w) 0 (fun j st =>
            let '(row, ws) := st in
            r <- next_u8 ws ;;
            g <- next_u8 (snd r) ;;
            b <- next_u8 (snd g) ;;
            Ok (row ++ [mkPixel (fst r) (fst g) (fst b)], snd b))
    ([], flat_map pixel_words row ++ more) = Ok (row, more).
Proof.
  intros Hw Hb. rewrite forallb_forall in Hb.
  match goal with |- for_range _ _ ?b _ = _ => set (body := b) end.
  destruct (for_range_inv (fun k st => st = (firstn (Z.to_nat k) row,
      flat_map pixel_words (skipn (Z.to_nat k) row) ++ more))
    (Z.to_nat w) 0 body ([], flat_map pixel_words row ++ more)) as [s' [E Hs']].
  - reflexivity.
  - intros k st Hk ->. rewrite Z2Nat.id in Hk by lia.
    set (p := nth (Z.to_nat k) row (mkPixel 0 0 0)).
    assert (Hp : pixel_bytes p = true) by (apply Hb, nth_In; lia).
    unfold pixel_bytes, is_byte in Hp. repeat rewrite andb_true_iff in Hp.
    rewrite (skipn_nth row (Z.to_nat k) (mkPixel 0 0 0)) by lia. fold p.
    unfold body. cbn [flat_map pixel_words app].
    rewrite next_u8_itoa by lia. cbn [bind fst snd].
    rewrite next_u8_itoa by lia. cbn [bind fst snd].
    rewrite next_u8_itoa by lia. cbn [bind fst snd].
    eexists; split; [reflexivity|].
    replace (Z.to_nat (k + 1)) with (Datatypes.S (Z.to_nat k)) by lia.
    rewrite (firstn_snoc row (Z.to_nat k) (mkPixel 0 0 0)) by lia. fold p.
    destruct p; reflexivity.
  - rewrite E, Hs', Z.add_0_l, Z2Nat.id by lia.
    rewrite <- Hw, Nat2Z.id, firstn_all, skipn_all. reflexivity.
Qed.

Lemma read_ppm_rows (d : list (list Pixel)) w more :
  0 <= w -> (forall row, In row d -> Z.of_nat (List.length row) = w) ->
  forallb (forallb pixel_bytes) d = true ->
  for_range (Z.to_nat (Z.of_nat (List.length d))) 0 (fun i st =>
        let '(data, ws) := st in
        if w <? 0 then Panic "makeslice: len out of range"
        else
          rowr <- for_range (Z.to_nat w) 0 (fun j st =>
            let '(row, ws) := st in
            r <- next_u8 ws ;;
            g <- next_u8 (snd r) ;;
            b <- next_u8 (snd g) ;;
            Ok (row ++ [mkPixel (fst r) (fst g) (fst b)], snd b)) ([], ws) ;;
          Ok (data ++ [fst rowr], snd rowr)) ([], flat_map (flat_map pixel_words) d ++ more)
  = Ok (d, more).
Proof.
  intros Hw0 Hw Hb. rewrite forallb_forall in Hb.
  match goal with |- for_range _ _ ?b _ = _ => set (body := b) end.
  destruct (for_range_inv (fun k st => st = (firstn (Z.to_nat k) d,
      flat_map (flat_map pixel_words) (skipn (Z.to_nat k) d) ++ more))
    (Z.to_nat (Z.of_nat (List.length d))) 0 body ([], flat_map (flat_map pixel_words) d ++ more))
    as [s' [E Hs']].
  - reflexivity.
  - intros k st Hk ->. rewrite Nat2Z.id in Hk.
    set (row := nth (Z.to_nat k) d []).
    assert (Hin : In row d) by (apply nth_In; lia).
    rewrite (skipn_nth d (Z.to_nat k) []) by lia. fold row.
    unfold body. replace (w <? 0) with false by lia. cbn [flat_map]. rewrite <- app_assoc.
    rewrite read_ppm_row by (apply Hw || apply Hb; exact Hin). cbn [bind fst snd].
    eexists; split; [reflexivity|].
    replace (Z.to_nat (k + 1)) with (Datatypes.S (Z.to_nat k)) by lia.
    rewrite (firstn_snoc d (Z.to_nat k) []) by lia. reflexivity.
  - rewrite E, Hs', Z.add_0_l, !Nat2Z.id, firstn_all, skipn_all. reflexivity.
Qed.

(** [PPM.Save] then [ReadPPM] of [part_002] on a well-formed pixmap whose
    magic number is [P3] or [P6], whose width and height are in the range of
    [int] and whose samples and maximum are in [0, 255]: the words written
    read back as the same pixmap. *)
Theorem PPM_p2_roundtrip ppm :
  ppm_magicNumber ppm = P3 \/ ppm_magicNumber ppm = P6 ->
  0 <= ppm_width ppm <= int64_max -> 0 <= ppm_height ppm <= int64_max ->
  0 <= ppm_max ppm < 256 ->
  grid_wf (ppm_data ppm) (ppm_width ppm) (ppm_height ppm) = true ->
  forallb (forallb pixel_bytes) (ppm_data ppm) = true ->
  ReadPPM_p2 (PPM_Save_p2 ppm) = Ok ppm.
Proof.
  intros Hm Hw Hh Hmx Hwf Hb.
  destruct (grid_wf_spec _ _ _ Hwf) as [Hlen Hrows].
  destruct ppm as [d w h m mx]; cbn [ppm_data ppm_width ppm_height ppm_magicNumber ppm_max] in *.
  subst h. unfold int64_max in *.
  unfold PPM_Save_p2, ReadPPM_p2. cbn [ppm_data ppm_width ppm_height ppm_magicNumber ppm_max].
  rewrite <- !app_assoc. cbn [app].
  assert (Hmw : Fields (m ++ NL :: itoa w ++ SP :: itoa (Z.of_nat (List.length d)) ++ NL :: itoa mx
                  ++ NL :: flat_map (fun row => flat_map pixel_text row ++ [NL]) d)
            = m :: itoa w :: itoa (Z.of_nat (List.length d)) :: itoa mx
                :: flat_map (flat_map pixel_words) d).
  { rewrite Fields_word; [| destruct Hm as [-> | ->]; discriminate
                          | intros b Hbm; destruct Hm as [-> | ->]; vm_compute in Hbm;
                            repeat destruct Hbm as [<-|Hbm]; try reflexivity; contradiction
                          | reflexivity].
    rewrite !Fields_itoa by (reflexivity || lia).
    rewrite Fields_rows by exact Hb. reflexivity. }
  rewrite Hmw. unfold next_word at 1. cbn [bind].
  replace (negb (bytes_eqb m P3 || bytes_eqb m P6)) with false
    by (destruct Hm as [-> | ->]; reflexivity).
  rewrite <- (app_nil_r (flat_map (flat_map pixel_words) d)).
  do 3 (rewrite next_int_itoa by (unfold int64_max; lia); cbn [bind]).
  replace (Z.of_nat (List.length d) <? 0) with false by lia.
  rewrite read_ppm_rows by (lia || exact Hrows || exact Hb). cbn [bind fst].
  unfold wrap8. rewrite Z.mod_small by lia. reflexivity.
Qed.

Lemma PPM_p2_roundtrip_witness : ReadPPM_p2 (PPM_Save_p2 p3x2) = Ok p3x2.
Proof.
  exact (PPM_p2_roundtrip p3x2 (or_introl eq_refl) ltac:(unfold int64_max; simpl; lia)
           ltac:(unfold int64_max; simpl; lia) ltac:(simpl; lia) eq_refl eq_refl).
Defined.

(** ** Reading back the pixmaps of [ppm.go] *)

(** [ReadPPM] of [ppm.go] on a file whose first line is ASCII and does
    not trim to [P3] or [P6] returns no image and a [nil] error. *)
Theorem ReadPPM_bad_magic pre rest :
  ~ In NL pre ->
  forallb (fun b => (0 <=? b) && (b <? 128)) pre = true ->
  bytes_eqb (TrimSpace (pre ++ [NL])) P3 = false ->
  bytes_eqb (TrimSpace (pre ++ [NL])) P6 = false ->
  ReadPPM (pre ++ NL :: rest) = Ok None.
Proof.
  intros Hpre _ H3 H6. unfold ReadPPM.
  destruct (ReadString_line (NewReader (pre ++ NL :: rest)) pre rest (reader_wf_new _) Hpre eq_refl)
    as [r1 [E1 _]].
  rewrite E1. cbn [bind]. rewrite H3, H6. reflexivity.
Qed.

Lemma ReadPPM_bad_magic_witness :
  ReadPPM (bytes_of_string "P5" ++ NL :: bytes_of_string "1 1") = Ok None.
Proof.
  exact (ReadPPM_bad_magic (bytes_of_string "P5") (bytes_of_string "1 1")
           ltac:(vm_compute; intuition discriminate) eq_refl eq_refl eq_refl).
Defined.

Lemma at2_nth_gen {A} (d : list (list A)) x y dflt :
  0 <= y < Z.of_nat (List.length d) -> 0 <= x < Z.of_nat (List.length (nth (Z.to_nat y) d [])) ->
  at2 d x y = Ok (nth (Z.to_nat x) (nth (Z.to_nat y) d []) dflt).
Proof.
  intros Hy Hx. unfold at2.
  replace ((y <? 0) || (x <? 0)) with false by (symmetry; apply orb_false_iff; split; apply Z.ltb_ge; lia).
  rewrite (nth_error_nth' d [] (n := Z.to_nat y)) by lia.
  rewrite (nth_error_nth' _ dflt (n := Z.to_nat x)) by lia. reflexivity.
Qed.

Lemma PPM_Save_P3 ppm :
  ppm_magicNumber ppm = P3 ->
  grid_wf (ppm_data ppm) (ppm_width ppm) (ppm_height ppm) = true ->
  PPM_Save ppm = Ok (P3 ++ [NL] ++ itoa (ppm_width ppm) ++ [SP] ++ itoa (ppm_height ppm)
                     ++ [NL] ++ itoa (ppm_max ppm) ++ [NL]
                     ++ flat_map (fun row => flat_map pixel_text row ++ [NL]) (ppm_data ppm)).
Proof.
  intros Hm Hwf. destruct (grid_wf_spec _ _ _ Hwf) as [Hh Hw].
  destruct ppm as [d w h m mx]; cbn [ppm_data ppm_width ppm_height ppm_magicNumber ppm_max] in *.
  subst m. unfold PPM_Save. cbn [ppm_data ppm_width ppm_height ppm_magicNumber ppm_max].
  change (bytes_eqb P3 P6) with false. change (bytes_eqb P3 P3) with true. cbv iota beta zeta. cbn [orb].
  match goal with |- (body <- for_range _ _ ?b _ ;; _) = _ => set (outer := b) end.
  destruct (for_range_inv (fun k s => s = flat_map (fun row => flat_map pixel_text row ++ [NL])
                                          (firstn (Z.to_nat k) d))
    (Z.to_nat h) 0 outer []) as [s' [E Hs']].
  - reflexivity.
  - intros k s Hk Hs. rewrite Z2Nat.id in Hk by lia. unfold outer.
    set (row := nth (Z.to_nat k) d []).
    assert (Hrow : Z.of_nat (List.length row) = w) by (apply Hw, nth_In; lia).
    match goal with |- exists _, (row <- for_range _ _ ?b _ ;; _) = _ /\ _ => set (inner := b) end.
    destruct (for_range_inv (fun j o => o = s ++ flat_map pixel_text (firstn (Z.to_nat j) row))
      (Z.to_nat w) 0 inner s) as [o' [E' Ho']].
    + rewrite app_nil_r. reflexivity.
    + intros j o Hj Ho. rewrite Z2Nat.id in Hj by lia. unfold inner.
      rewrite (at2_nth_gen d j k (mkPixel 0 0 0)) by (fold row; lia). cbn [bind].
      eexists; split; [reflexivity|]. subst o.
      replace (Z.to_nat (j + 1)) with (Datatypes.S (Z.to_nat j)) by lia.
      rewrite (firstn_snoc row (Z.to_nat j) (mkPixel 0 0 0)) by lia.
      rewrite flat_map_app, <- app_assoc. cbn [flat_map]. rewrite app_nil_r. reflexivity.
    + rewrite E'. cbn [bind]. eexists; split; [reflexivity|].
      rewrite Ho', Hs. rewrite Z.add_0_l, Z2Nat.id by lia.
      replace (Z.to_nat (k + 1)) with (Datatypes.S (Z.to_nat k)) by lia.
      rewrite (firstn_snoc d (Z.to_nat k) []) by lia. fold row.
      rewrite <- Hrow, Nat2Z.id, firstn_all.
      rewrite flat_map_app. cbn [flat_map]. rewrite app_nil_r, <- !app_assoc. reflexivity.
  - rewrite E. cbn [bind]. rewrite Hs', Z.add_0_l, Z2Nat.id by lia.
    rewrite <- Hh, Nat2Z.id, firstn_all. rewrite <- !app_assoc. reflexivity.
Qed.

Lemma pixel_eta p : mkPixel (R p) (G p) (B p) = p.
Proof. destruct p; reflexivity. Qed.

Lemma pixel_text_no_nl row : forallb pixel_bytes row = true -> ~ In NL (flat_map pixel_text row).
Proof.
  intros Hb Hin. apply in_flat_map in Hin as [p [Hp Hin]].
  rewrite forallb_forall in Hb. specialize (Hb p Hp). unfold pixel_bytes, is_byte in Hb.
  rewrite !andb_true_iff, !Z.leb_le, !Z.ltb_lt in Hb.
  unfold pixel_text in Hin. rewrite !in_app_iff in Hin.
  destruct Hin as [H|[[H|[]]|[H|[[H|[]]|[H|[H|[]]]]]]];
    try discriminate;
    match type of H with In _ (itoa ?v) => apply (itoa_digits v) in H; [discriminate | lia] end.
Qed.

Lemma length_pixel_words row : List.length (flat_map pixel_words row) = (3 * List.length row)%nat.
Proof. induction row as [|p row IH]; [reflexivity|]. cbn [flat_map List.length app]. rewrite length_app, IH. cbn. lia. Qed.

Lemma nth_pixel_words row : forall k j, (k < List.length row)%nat -> (j < 3)%nat ->
  nth (k * 3 + j) (flat_map pixel_words row) [] = nth j (pixel_words (nth k row (mkPixel 0 0 0))) [].
Proof.
  induction row as [|p row IH]; intros k j Hk Hj; cbn [List.length] in Hk; [lia|].
  cbn [flat_map]. destruct k as [|k].
  - rewrite app_nth1 by (cbn; lia). reflexivity.
  - rewrite app_nth2 by (cbn; lia). cbn [List.length pixel_words].
    replace (Datatypes.S k * 3 + j - 3)%nat with (k * 3 + j)%nat by lia.
    apply IH; lia.
Qed.

Lemma read_p3_row_ok row : forallb pixel_bytes row = true -> forall n k, (n + k = List.length row)%nat ->
  read_p3_row n (Z.of_nat k) (flat_map pixel_words row) (firstn k row ++ repeat (mkPixel 0 0 0) n)
  = Ok (Some row).
Proof.
  intros Hb n. induction n as [|n IH]; intros k Hk.
  - cbn [read_p3_row repeat]. rewrite app_nil_r. cbn in Hk. subst k. rewrite firstn_all. reflexivity.
  - cbn [read_p3_row]. rewrite length_pixel_words.
    replace (Z.of_nat (3 * List.length row) <=? Z.of_nat k * 3 + 2) with false by lia.
    set (p := nth k row (mkPixel 0 0 0)).
    assert (Hp : pixel_bytes p = true) by (rewrite forallb_forall in Hb; apply Hb, nth_In; lia).
    unfold pixel_bytes, is_byte in Hp. rewrite !andb_true_iff, !Z.leb_le, !Z.ltb_lt in Hp.
    replace (Z.to_nat (Z.of_nat k * 3)) with (k * 3 + 0)%nat by lia.
    replace (Z.to_nat (Z.of_nat k * 3 + 1)) with (k * 3 + 1)%nat by lia.
    replace (Z.to_nat (Z.of_nat k * 3 + 2)) with (k * 3 + 2)%nat by lia.
    rewrite !nth_pixel_words by lia. fold p. cbn [pixel_words nth].
    rewrite !Sscanf_d_itoa by (unfold int64_max; lia).
    unfold wrap8. rewrite !Z.mod_small by lia. rewrite pixel_eta.
    rewrite Nat2Z.id. cbn [repeat].
    pose proof (set_nth_app (firstn k row) (repeat (mkPixel 0 0 0) n) (mkPixel 0 0 0) p) as Hs.
    rewrite length_firstn, Nat.min_l in Hs by lia. rewrite Hs.
    specialize (IH (Datatypes.S k) ltac:(lia)).
    rewrite (firstn_snoc row k (mkPixel 0 0 0)) in IH by lia. fold p in IH.
    rewrite <- app_assoc in IH. cbn [app] in IH.
    replace (Z.of_nat k + 1) with (Z.of_nat (Datatypes.S k)) by lia. exact IH.
Qed.

Lemma read_rows_ok (line : list Pixel -> list Z) rest (rows : list (list Pixel))
  (row_of : Z -> Reader -> outcome (option (list Pixel * Reader))) :
  (forall y r row rest', In row rows -> reader_wf r -> rbuf r ++ rfile r = line row ++ rest' ->
     exists r', row_of y r = Ok (Some (row, r')) /\ rbuf r' ++ rfile r' = rest' /\ reader_wf r') ->
  forall data y r, reader_wf r -> rbuf r ++ rfile r = flat_map line rows ++ rest ->
  read_rows (List.length rows) y row_of data r = Ok (Some (data ++ rows)).
Proof.
  induction rows as [|row rows IH]; intros Hrow data y r W C.
  - rewrite app_nil_r. reflexivity.
  - cbn [flat_map] in C. rewrite <- app_assoc in C.
    destruct (Hrow y r row _ (in_eq _ _) W C) as [r' [E [C' W']]].
    cbn [read_rows List.length]. rewrite E. cbn [bind].
    rewrite IH with (r := r'); [rewrite <- app_assoc; reflexivity | | exact W' | exact C'].
    intros y0 r0 row0 rest0 Hin. apply Hrow, in_cons, Hin.
Qed.

Lemma ReadPPM_body_P3 (d : list (list Pixel)) w r rest :
  0 <= w -> (forall row, In row d -> Z.of_nat (List.length row) = w) ->
  forallb (forallb pixel_bytes) d = true ->
  reader_wf r -> rbuf r ++ rfile r = flat_map (fun row => flat_map pixel_text row ++ [NL]) d ++ rest ->
  ReadPPM_body P3 w (Z.of_nat (List.length d)) r = Ok (Some d).
Proof.
  intros Hw Hrows Hb W C. unfold ReadPPM_body.
  change (bytes_eqb P3 P3) with true. cbv iota. rewrite Nat2Z.id.
  rewrite (read_rows_ok (fun row => flat_map pixel_text row ++ [NL]) rest d); [reflexivity | | exact W | exact C].
  intros y r0 row rest' Hin W0 C0.
  assert (Hbr : forallb pixel_bytes row = true) by (rewrite forallb_forall in Hb; apply Hb, Hin).
  destruct (ReadString_line r0 (flat_map pixel_text row) rest' W0 (pixel_text_no_nl row Hbr)
              ltac:(rewrite C0, <- app_assoc; reflexivity)) as [r1 [E1 [C1 W1]]].
  exists r1. rewrite E1. cbn [bind].
  replace (w <? 0) with false by lia. cbv iota.
  rewrite Fields_pixels by exact Hbr. change (Fields [NL]) with (@nil (list Z)). rewrite app_nil_r.
  rewrite <- (Hrows row Hin), Nat2Z.id.
  pose proof (read_p3_row_ok row Hbr (List.length row) 0 ltac:(lia)) as Hr.
  cbn [firstn app Z.of_nat] in Hr. rewrite Hr. cbn [bind]. auto.
Qed.

(** [PPM.Save] then [ReadPPM] of [ppm.go] on a well-formed [P3] pixmap with
    byte values gives the pixmap back. *)
Theorem PPM_P3_roundtrip ppm :
  ppm_magicNumber ppm = P3 ->
  0 <= ppm_width ppm <= int64_max -> 0 <= ppm_height ppm <= int64_max ->
  0 <= ppm_max ppm < 256 ->
  grid_wf (ppm_data ppm) (ppm_width ppm) (ppm_height ppm) = true ->
  forallb (forallb pixel_bytes) (ppm_data ppm) = true ->
  (file <- PPM_Save ppm ;; ReadPPM file) = Ok (Some ppm).
Proof.
  intros Hm Hw Hh Hmx Hwf Hb.
  rewrite (PPM_Save_P3 ppm Hm Hwf). cbn [bind].
  destruct (grid_wf_spec _ _ _ Hwf) as [Hlen Hrows].
  destruct ppm as [d w h m mx]; cbn [ppm_data ppm_width ppm_height ppm_magicNumber ppm_max] in *.
  subst m.
  assert (Htw : token_ok (itoa w)) by (apply itoa_token; unfold int64_max in Hw; lia).
  assert (Hth : token_ok (itoa h)) by (apply itoa_token; unfold int64_max in Hh; lia).
  assert (Htm : token_ok (itoa mx)) by (apply itoa_token; lia).
  set (body := flat_map (fun row => flat_map pixel_text row ++ [NL]) d).
  unfold ReadPPM.
  destruct (ReadString_line (NewReader (P3 ++ [NL] ++ itoa w ++ [SP] ++ itoa h ++ [NL] ++ itoa mx ++ [NL] ++ body)) P3
     (itoa w ++ SP :: itoa h ++ NL :: itoa mx ++ NL :: body)
     (reader_wf_new _) ltac:(vm_compute; intuition discriminate)
     ltac:(cbn [rbuf rfile NewReader app]; reflexivity))
    as [r1 [E1 [C1 W1]]].
  rewrite E1. cbn [bind].
  change (TrimSpace (P3 ++ [NL])) with P3.
  change (negb (bytes_eqb P3 P3 || bytes_eqb P3 P6)) with false. cbv iota.
  destruct (ReadString_line r1 (join_sp [itoa w; itoa h])
     (itoa mx ++ NL :: body) W1
     (join_sp_no_nl [itoa w; itoa h] (Forall_cons _ Htw (Forall_cons _ Hth (Forall_nil _))))
     ltac:(rewrite C1; cbn [join_sp]; rewrite <- app_assoc; reflexivity))
    as [r2 [E2 [C2 W2]]].
  rewrite E2. cbn [bind].
  rewrite (TrimSpace_join [itoa w; itoa h] (Forall_cons _ Htw (Forall_cons _ Hth (Forall_nil _))))
    by discriminate.
  cbn [join_sp]. rewrite Sscanf_dd_itoa by lia.
  destruct (ReadString_line r2 (join_sp [itoa mx]) body W2
     (join_sp_no_nl [itoa mx] (Forall_cons _ Htm (Forall_nil _)))
     ltac:(rewrite C2; reflexivity))
    as [r3 [E3 [C3 W3]]].
  rewrite E3. cbn [bind].
  rewrite (TrimSpace_join [itoa mx] (Forall_cons _ Htm (Forall_nil _))) by discriminate.
  cbn [join_sp]. rewrite Sscanf_d_itoa by (unfold int64_max; lia).
  replace (h <? 0) with false by lia. cbv iota.
  subst h. rewrite (ReadPPM_body_P3 d w r3 []); [| lia | exact Hrows | exact Hb | exact W3 | rewrite C3, app_nil_r; reflexivity].
  cbn [bind]. unfold wrap8. rewrite Z.mod_small by lia. reflexivity.
Qed.

Lemma read_p3_row_short fields :
  (forall f, In f fields -> exists v, Sscanf_d f = Some v) ->
  forall n x (row : list Pixel), 0 <= x -> (Z.to_nat x + n = List.length row)%nat ->
  x * 3 <= Z.of_nat (List.length fields) < (x + Z.of_nat n) * 3 ->
  read_p3_row n x fields row = Ok None.
Proof.
  intros Hf n. induction n as [|n IH]; intros x row Hx Hlen Hlt; [lia|].
  cbn [read_p3_row].
  destruct (Z.of_nat (List.length fields) <=? x * 3 + 2) eqn:E; [reflexivity|].
  apply Z.leb_gt in E.
  destruct (Hf (nth (Z.to_nat (x * 3)) fields []) ltac:(apply nth_In; lia)) as [r Er].
  destruct (Hf (nth (Z.to_nat (x * 3 + 1)) fields []) ltac:(apply nth_In; lia)) as [g Eg].
  destruct (Hf (nth (Z.to_nat (x * 3 + 2)) fields []) ltac:(apply nth_In; lia)) as [b Eb].
  rewrite Er, Eg, Eb.
  destruct (set_nth_spec row (Z.to_nat x) (mkPixel (wrap8 r) (wrap8 g) (wrap8 b)) ltac:(lia))
    as [row' [Es [Hl' _]]].
  rewrite Es. apply IH; lia.
Qed.

(** [ReadPPM] of [ppm.go] on a [P3] file whose first row line holds fewer
    than [3 width] integers returns no image and a [nil] error. *)
Theorem ReadPPM_P3_short_row w h mx vs rest :
  0 < w <= int64_max -> 0 < h <= int64_max -> 0 <= mx <= int64_max ->
  Forall (fun v => 0 <= v <= int64_max) vs -> Z.of_nat (List.length vs) < 3 * w ->
  ReadPPM (P3 ++ [NL] ++ itoa w ++ [SP] ++ itoa h ++ [NL] ++ itoa mx ++ [NL]
           ++ join_sp (map itoa vs) ++ [NL] ++ rest) = Ok None.
Proof.
  intros Hw Hh Hmx Hvs Hlt. unfold int64_max in *.
  assert (Htw : token_ok (itoa w)) by (apply itoa_token; lia).
  assert (Hth : token_ok (itoa h)) by (apply itoa_token; lia).
  assert (Htm : token_ok (itoa mx)) by (apply itoa_token; lia).
  assert (Htv : Forall token_ok (map itoa vs))
    by (apply Forall_map; refine (Forall_impl _ _ Hvs); intros v Hv; apply itoa_token; lia).
  set (line := join_sp (map itoa vs) ++ [NL] ++ rest).
  unfold ReadPPM.
  destruct (ReadString_line (NewReader (P3 ++ [NL] ++ itoa w ++ [SP] ++ itoa h ++ [NL] ++ itoa mx ++ [NL] ++ line)) P3
     (itoa w ++ SP :: itoa h ++ NL :: itoa mx ++ NL :: line)
     (reader_wf_new _) ltac:(vm_compute; intuition discriminate)
     ltac:(cbn [rbuf rfile NewReader app]; reflexivity))
    as [r1 [E1 [C1 W1]]].
  rewrite E1. cbn [bind].
  change (TrimSpace (P3 ++ [NL])) with P3.
  change (negb (bytes_eqb P3 P3 || bytes_eqb P3 P6)) with false. cbv iota.
  destruct (ReadString_line r1 (join_sp [itoa w; itoa h])
     (itoa mx ++ NL :: line) W1
     (join_sp_no_nl [itoa w; itoa h] (Forall_cons _ Htw (Forall_cons _ Hth (Forall_nil _))))
     ltac:(rewrite C1; cbn [join_sp]; rewrite <- app_assoc; reflexivity))
    as [r2 [E2 [C2 W2]]].
  rewrite E2. cbn [bind].
  rewrite (TrimSpace_join [itoa w; itoa h] (Forall_cons _ Htw (Forall_cons _ Hth (Forall_nil _))))
    by discriminate.
  cbn [join_sp]. rewrite Sscanf_dd_itoa by (unfold int64_max; lia).
  destruct (ReadString_line r2 (join_sp [itoa mx]) line W2
     (join_sp_no_nl [itoa mx] (Forall_cons _ Htm (Forall_nil _)))
     ltac:(rewrite C2; reflexivity))
    as [r3 [E3 [C3 W3]]].
  rewrite E3. cbn [bind].
  rewrite (TrimSpace_join [itoa mx] (Forall_cons _ Htm (Forall_nil _))) by discriminate.
  cbn [join_sp]. rewrite Sscanf_d_itoa by (unfold int64_max; lia).
  replace (h <? 0) with false by lia. cbv iota.
  unfold ReadPPM_body. change (bytes_eqb P3 P3) with true. cbv iota.
  destruct (Z.to_nat h) as [|n] eqn:En; [lia|]. cbn [read_rows].
  destruct (ReadString_line r3 (join_sp (map itoa vs)) rest W3 (join_sp_no_nl _ Htv)
              ltac:(rewrite C3; reflexivity)) as [r4 [E4 _]].
  rewrite E4. cbn [bind].
  replace (w <? 0) with false by lia. cbv iota.
  rewrite Fields_join by exact Htv.
  rewrite (read_p3_row_short (map itoa vs)); [reflexivity | | lia | | ].
  - intros f Hf. apply in_map_iff in Hf as [v [<- Hv]].
    exists v. apply Sscanf_d_itoa. rewrite Forall_forall in Hvs. specialize (Hvs v Hv).
    unfold int64_max. lia.
  - rewrite repeat_length. lia.
  - rewrite length_map. lia.
Qed.

Lemma PPM_Save_P6 ppm :
  ppm_magicNumber ppm = P6 ->
  grid_wf (ppm_data ppm) (ppm_width ppm) (ppm_height ppm) = true ->
  PPM_Save ppm = Ok (P6 ++ [NL] ++ itoa (ppm_width ppm) ++ [SP] ++ itoa (ppm_height ppm)
                     ++ [NL] ++ itoa (ppm_max ppm) ++ [NL]
                     ++ flat_map (flat_map pixel_raw) (ppm_data ppm)).
Proof.
  intros Hm Hwf. destruct (grid_wf_spec _ _ _ Hwf) as [Hh Hw].
  destruct ppm as [d w h m mx]; cbn [ppm_data ppm_width ppm_height ppm_magicNumber ppm_max] in *.
  subst m. unfold PPM_Save. cbn [ppm_data ppm_width ppm_height ppm_magicNumber ppm_max].
  change (bytes_eqb P6 P6) with true. change (bytes_eqb P6 P3) with false.
  cbv iota beta zeta. cbn [orb].
  match goal with |- (body <- for_range _ _ ?b _ ;; _) = _ => set (outer := b) end.
  destruct (for_range_inv (fun k s => s = flat_map (flat_map pixel_raw) (firstn (Z.to_nat k) d))
    (Z.to_nat h) 0 outer []) as [s' [E Hs']].
  - reflexivity.
  - intros k s Hk Hs. rewrite Z2Nat.id in Hk by lia. unfold outer.
    set (row := nth (Z.to_nat k) d []).
    assert (Hrow : Z.of_nat (List.length row) = w) by (apply Hw, nth_In; lia).
    match goal with |- exists _, (row <- for_range _ _ ?b _ ;; _) = _ /\ _ => set (inner := b) end.
    destruct (for_range_inv (fun j o => o = s ++ flat_map pixel_raw (firstn (Z.to_nat j) row))
      (Z.to_nat w) 0 inner s) as [o' [E' Ho']].
    + rewrite app_nil_r. reflexivity.
    + intros j o Hj Ho. rewrite Z2Nat.id in Hj by lia. unfold inner.
      rewrite (at2_nth_gen d j k (mkPixel 0 0 0)) by (fold row; lia). cbn [bind].
      eexists; split; [reflexivity|]. subst o.
      replace (Z.to_nat (j + 1)) with (Datatypes.S (Z.to_nat j)) by lia.
      rewrite (firstn_snoc row (Z.to_nat j) (mkPixel 0 0 0)) by lia.
      rewrite flat_map_app, <- app_assoc. cbn [flat_map]. rewrite app_nil_r. reflexivity.
    + rewrite E'. cbn [bind]. eexists; split; [reflexivity|].
      rewrite Ho', Hs. rewrite Z.add_0_l, Z2Nat.id by lia.
      replace (Z.to_nat (k + 1)) with (Datatypes.S (Z.to_nat k)) by lia.
      rewrite (firstn_snoc d (Z.to_nat k) []) by lia. fold row.
      rewrite <- Hrow, Nat2Z.id, firstn_all.
      rewrite flat_map_app. cbn [flat_map]. rewrite app_nil_r. reflexivity.
  - rewrite E. cbn [bind]. rewrite Hs', Z.add_0_l, Z2Nat.id by lia.
    rewrite <- Hh, Nat2Z.id, firstn_all. rewrite <- !app_assoc. reflexivity.
Qed.

Lemma split_nl_app pre rest : ~ In NL pre -> split_nl (pre ++ NL :: rest) = Some (pre, rest).
Proof.
  induction pre as [|b pre IH]; intros Hn; cbn [app split_nl].
  - rewrite Z.eqb_refl. reflexivity.
  - replace (b =? NL) with false by (symmetry; apply Z.eqb_neq; intros ->; apply Hn; left; reflexivity).
    rewrite IH by (intros H; apply Hn; right; exact H). reflexivity.
Qed.

(** Reading a line from a reader whose whole input is in its buffer. *)
Lemma ReadString_buffered buf e pre rest :
  ~ In NL pre -> buf = pre ++ NL :: rest ->
  ReadString (mkReader buf [] e) = Ok (pre ++ [NL], mkReader rest [] e).
Proof.
  intros Hn ->. unfold ReadString. cbn [rfile List.length].
  change (2 * 0 + 3)%nat with 3%nat. cbn [ReadString_fuel rbuf rfile reof].
  rewrite split_nl_app by exact Hn. reflexivity.
Qed.

Lemma ReadString_first file pre rest :
  (List.length file <= defaultBufSize)%nat -> ~ In NL pre -> file = pre ++ NL :: rest ->
  ReadString (NewReader file) = Ok (pre ++ [NL], mkReader rest [] false).
Proof.
  intros Hl Hn Hf. unfold ReadString, NewReader. cbn [rfile].
  replace (2 * List.length file + 3)%nat with (Datatypes.S (2 * List.length file + 2)) by lia.
  cbn [ReadString_fuel rbuf split_nl reof List.length].
  change (Nat.eqb 0 defaultBufSize) with false. cbv iota.
  assert (Hfill : fill (mkReader [] file false) = mkReader file [] false).
  { unfold fill. cbn [rfile rbuf List.length]. rewrite Nat.sub_0_r.
    destruct file as [|b f]; [destruct pre; discriminate|].
    rewrite firstn_all2, skipn_all2 by exact Hl. reflexivity. }
  rewrite Hfill. replace (2 * List.length file + 2)%nat with (Datatypes.S (2 * List.length file + 1)) by lia.
  cbn [ReadString_fuel rbuf rfile reof]. rewrite Hf, split_nl_app by exact Hn. reflexivity.
Qed.

Lemma length_pixel_raw row : List.length (flat_map pixel_raw row) = (3 * List.length row)%nat.
Proof. induction row as [|p row IH]; [reflexivity|]. cbn [flat_map List.length app pixel_raw]. rewrite IH. lia. Qed.

Lemma nth_pixel_raw row : forall k j, (k < List.length row)%nat -> (j < 3)%nat ->
  nth (k * 3 + j) (flat_map pixel_raw row) 0 = nth j (pixel_raw (nth k row (mkPixel 0 0 0))) 0.
Proof.
  induction row as [|p row IH]; intros k j Hk Hj; cbn [List.length] in Hk; [lia|].
  cbn [flat_map]. destruct k as [|k].
  - rewrite app_nth1 by (cbn; lia). reflexivity.
  - rewrite app_nth2 by (cbn; lia). cbn [List.length pixel_raw].
    replace (Datatypes.S k * 3 + j - 3)%nat with (k * 3 + j)%nat by lia.
    apply IH; lia.
Qed.

Lemma unpack_pixel_raw row :
  map (fun x => mkPixel (nth (x * 3) (flat_map pixel_raw row) 0)
                        (nth (x * 3 + 1) (flat_map pixel_raw row) 0)
                        (nth (x * 3 + 2) (flat_map pixel_raw row) 0))
      (seq 0 (List.length row)) = row.
Proof.
  apply (nth_ext _ _ (mkPixel 0 0 0) (mkPixel 0 0 0)); [rewrite length_map, length_seq; reflexivity|].
  intros i Hi. rewrite length_map, length_seq in Hi.
  match goal with |- nth _ (map ?g _) _ = _ => set (f := g) end.
  rewrite (nth_indep _ (mkPixel 0 0 0) (f 0%nat)) by (rewrite length_map, length_seq; exact Hi).
  rewrite map_nth, seq_nth by exact Hi. cbn [Nat.add]. unfold f.
  rewrite <- (Nat.add_0_r (i * 3)) at 1.
  rewrite !nth_pixel_raw by lia. cbn [pixel_raw nth]. apply pixel_eta.
Qed.

Lemma read_p6_row_ok row w rest :
  0 < w -> Z.of_nat (List.length row) = w ->
  read_p6_row w (mkReader (flat_map pixel_raw row ++ rest) [] false)
  = Ok (Some (row, mkReader rest [] false)).
Proof.
  intros Hw Hl. unfold read_p6_row. replace (w * 3 <? 0) with false by lia. cbv iota.
  replace (Z.to_nat (w * 3)) with (List.length (flat_map pixel_raw row)) by (rewrite length_pixel_raw; lia).
  unfold Read. cbn [rbuf rfile reof].
  destruct (flat_map pixel_raw row ++ rest) as [|b l] eqn:Eb.
  { apply (f_equal (@List.length Z)) in Eb. rewrite length_app, length_pixel_raw in Eb. cbn in Eb. lia. }
  rewrite <- Eb. cbn [bind]. rewrite firstn_app, skipn_app, Nat.sub_diag, firstn_all, skipn_all.
  cbn [firstn skipn]. rewrite !app_nil_r, Nat.sub_diag. cbn [repeat]. rewrite app_nil_r.
  replace (Z.to_nat w) with (List.length row) by lia. rewrite unpack_pixel_raw. reflexivity.
Qed.

Lemma read_p6_rows (d : list (list Pixel)) w rest :
  0 < w -> (forall row, In row d -> Z.of_nat (List.length row) = w) ->
  forall data y,
  read_rows (List.length d) y (fun _ r => read_p6_row w r) data
    (mkReader (flat_map (flat_map pixel_raw) d ++ rest) [] false) = Ok (Some (data ++ d)).
Proof.
  intros Hw Hrows. induction d as [|row d IH]; intros data y.
  - rewrite app_nil_r. reflexivity.
  - cbn [read_rows List.length flat_map]. rewrite <- app_assoc.
    rewrite read_p6_row_ok by (exact Hw || apply Hrows; left; reflexivity).
    cbn [bind]. rewrite IH by (intros r Hr; apply Hrows; right; exact Hr).
    rewrite <- app_assoc. reflexivity.
Qed.

(** [PPM.Save] then [ReadPPM] of [ppm.go] on a well-formed [P6] pixmap of
    positive width gives the pixmap back when the file fits the 4096-byte
    buffer of the reader. *)
Theorem PPM_P6_roundtrip ppm file :
  ppm_magicNumber ppm = P6 ->
  0 < ppm_width ppm <= int64_max -> 0 <= ppm_height ppm <= int64_max ->
  0 <= ppm_max ppm < 256 ->
  grid_wf (ppm_data ppm) (ppm_width ppm) (ppm_height ppm) = true ->
  PPM_Save ppm = Ok file -> (List.length file <= defaultBufSize)%nat ->
  ReadPPM file = Ok (Some ppm).
Proof.
  intros Hm Hw Hh Hmx Hwf Hs Hl.
  rewrite (PPM_Save_P6 ppm Hm Hwf) in Hs. injection Hs as Hs.
  destruct (grid_wf_spec _ _ _ Hwf) as [Hlen Hrows].
  destruct ppm as [d w h m mx]; cbn [ppm_data ppm_width ppm_height ppm_magicNumber ppm_max] in *.
  subst m. unfold int64_max in *.
  assert (Htw : token_ok (itoa w)) by (apply itoa_token; lia).
  assert (Hth : token_ok (itoa h)) by (apply itoa_token; lia).
  assert (Htm : token_ok (itoa mx)) by (apply itoa_token; lia).
  set (body := flat_map (flat_map pixel_raw) d) in Hs.
  unfold ReadPPM.
  rewrite (ReadString_first file P6 (itoa w ++ SP :: itoa h ++ NL :: itoa mx ++ NL :: body) Hl
             ltac:(vm_compute; intuition discriminate) ltac:(rewrite <- Hs; reflexivity)).
  cbn [bind].
  change (TrimSpace (P6 ++ [NL])) with P6.
  change (negb (bytes_eqb P6 P3 || bytes_eqb P6 P6)) with false. cbv iota.
  rewrite (ReadString_buffered (itoa w ++ SP :: itoa h ++ NL :: itoa mx ++ NL :: body) false (join_sp [itoa w; itoa h]) (itoa mx ++ NL :: body)
     (join_sp_no_nl [itoa w; itoa h] (Forall_cons _ Htw (Forall_cons _ Hth (Forall_nil _))))
     ltac:(cbn [join_sp]; rewrite <- app_assoc; reflexivity)).
  cbn [bind].
  rewrite (TrimSpace_join [itoa w; itoa h] (Forall_cons _ Htw (Forall_cons _ Hth (Forall_nil _))))
    by discriminate.
  cbn [join_sp]. rewrite Sscanf_dd_itoa by (unfold int64_max; lia).
  rewrite (ReadString_buffered (itoa mx ++ NL :: body) false (join_sp [itoa mx]) body
     (join_sp_no_nl [itoa mx] (Forall_cons _ Htm (Forall_nil _))) eq_refl).
  cbn [bind].
  rewrite (TrimSpace_join [itoa mx] (Forall_cons _ Htm (Forall_nil _))) by discriminate.
  cbn [join_sp]. rewrite Sscanf_d_itoa by (unfold int64_max; lia).
  replace (h <? 0) with false by lia. cbv iota.
  unfold ReadPPM_body. change (bytes_eqb P6 P3) with false. change (bytes_eqb P6 P6) with true.
  cbv iota. subst h. rewrite Nat2Z.id.
  rewrite <- (app_nil_r body). unfold body.
  rewrite (read_p6_rows d w [] ltac:(lia) Hrows [] 0).
  cbn [bind app]. unfold wrap8. rewrite Z.mod_small by lia. reflexivity.
Qed.

Lemma PPM_P3_roundtrip_witness : (file <- PPM_Save p3x2 ;; ReadPPM file) = Ok (Some p3x2).
Proof.
  exact (PPM_P3_roundtrip p3x2 eq_refl ltac:(unfold int64_max; simpl; lia)
           ltac:(unfold int64_max; simpl; lia) ltac:(simpl; lia) eq_refl eq_refl).
Defined.

Lemma ReadPPM_P3_short_row_witness :
  ReadPPM (P3 ++ [NL] ++ itoa 2 ++ [SP] ++ itoa 1 ++ [NL] ++ itoa 255 ++ [NL]
           ++ join_sp (map itoa [1; 2; 3; 4]) ++ [NL] ++ []) = Ok None.
Proof.
  exact (ReadPPM_P3_short_row 2 1 255 [1; 2; 3; 4] []
           ltac:(unfold int64_max; lia) ltac:(unfold int64_max; lia) ltac:(unfold int64_max; lia)
           ltac:(repeat constructor; unfold int64_max; lia) ltac:(simpl; lia)).
Defined.

Lemma PPM_P6_roundtrip_witness :
  ReadPPM (P6 ++ [NL] ++ itoa 3 ++ [SP] ++ itoa 2 ++ [NL] ++ itoa 255 ++ [NL]
           ++ flat_map (flat_map pixel_raw) (ppm_data p6x2)) = Ok (Some p6x2).
Proof.
  exact (PPM_P6_roundtrip p6x2 _ eq_refl ltac:(unfold int64_max; simpl; lia)
           ltac:(unfold int64_max; simpl; lia) ltac:(simpl; lia) eq_refl
           ltac:(vm_compute; reflexivity) ltac:(apply Nat.leb_le; vm_compute; reflexivity)).
Defined.

(** ** Filled circles and triangles, and rescaling of the max value *)

Lemma q_lt_Z (a b : Z) qa qb : (qa == inject_Z a)%Q -> (qb == inject_Z b)%Q -> q_lt qa qb = (a <? b).
Proof.
  intros Ha Hb. unfold q_lt. destruct (Qle_bool qb qa) eqn:E; cbn [negb].
  - apply Qle_bool_iff in E. rewrite Ha, Hb, <- Zle_Qle in E. symmetry. apply Z.ltb_ge. lia.
  - assert (H : ~ (qb <= qa)%Q) by (intros H; apply Qle_bool_iff in H; congruence).
    rewrite Ha, Hb, <- Zle_Qle in H. symmetry. apply Z.ltb_lt. lia.
Qed.

Lemma for_range_noop {S} n : forall x (body : Z -> S -> outcome S) s,
  (forall k, body k s = Ok s) -> for_range n x body s = Ok s.
Proof.
  induction n as [|n IH]; intros x body s H; cbn [for_range]; [reflexivity|].
  rewrite H. cbn [bind]. apply IH, H.
Qed.

Lemma isInsideTriangle_collinear p p1 p2 p3 :
  int64_min <= Z.opp (X p2) <= int64_max -> int64_min <= Z.opp (Y p2) <= int64_max ->
  (X p2 - X p1) * (Y p3 - Y p1) - (Y p2 - Y p1) * (X p3 - X p1) = 0 ->
  isInsideTriangle p p1 p2 p3 = false.
Proof.
  intros HX HY Hd. unfold isInsideTriangle.
  rewrite (wrap64_id _ HX), (wrap64_id _ HY).
  match goal with |- (if Qeq_bool ?a 0 then _ else _) = _ => replace (Qeq_bool a 0) with true end;
    [reflexivity|].
  symmetry. apply Qeq_bool_iff. unfold q_float64, Qeq. cbn [Qnum Qden Qmult Qplus Qminus Qopp inject_Z].
  cbn. match goal with |- (match ?e with 0 => _ | _ => _ end * 1 = 0) => assert (He : e = 0) by nia; rewrite He; reflexivity end.
Qed.

(** [DrawFilledTriangle] of [ppm.go] and of [part_002] on three collinear
    vertices (zero area) with coordinates within [2^24] in absolute value
    (so that the [float64] area is computed exactly) leave the image
    unchanged and never panic, even with vertices outside the image. *)
Theorem DrawFilledTriangle_collinear ppm p1 p2 p3 color :
  forallb (fun v => Z.abs v <=? 2 ^ 24) [X p1; Y p1; X p2; Y p2; X p3; Y p3] = true ->
  (X p2 - X p1) * (Y p3 - Y p1) - (Y p2 - Y p1) * (X p3 - X p1) = 0 ->
  DrawFilledTriangle ppm p1 p2 p3 color = Ok ppm /\
  DrawFilledTriangle_p2 ppm p1 p2 p3 color = Ok ppm.
Proof.
  intros Hb Hd. cbn [forallb] in Hb. bool_facts Hb.
  assert (HX : int64_min <= Z.opp (X p2) <= int64_max) by (unfold int64_min, int64_max; lia).
  assert (HY : int64_min <= Z.opp (Y p2) <= int64_max) by (unfold int64_min, int64_max; lia).
  unfold DrawFilledTriangle, DrawFilledTriangle_p2. split.
  all: apply for_range_noop; intros x; apply for_range_noop; intros y.
  all: rewrite isInsideTriangle_collinear by assumption; reflexivity.
Qed.

Lemma q_sub a b : (inject_Z a - inject_Z b)%Q = inject_Z (a - b).
Proof. unfold Qminus. rewrite <- inject_Z_opp, <- inject_Z_plus. reflexivity. Qed.

Lemma dist_q x y cx cy :
  ((q_float64 x - q_float64 cx) * (q_float64 x - q_float64 cx)
   + (q_float64 y - q_float64 cy) * (q_float64 y - q_float64 cy))%Q
  = inject_Z ((x - cx) * (x - cx) + (y - cy) * (y - cy)).
Proof. unfold q_float64. rewrite !q_sub, <- !inject_Z_mult, <- inject_Z_plus. reflexivity. Qed.

(** [DrawFilledCircle] of [ppm.go]: on a well-formed pixmap of at most
    [2^24] columns and rows it never panics, for any centre with coordinates
    within [2^24] and radius within [2^26] in absolute value (so that
    [radius*radius] does not overflow and the [float64] values are exact);
    it paints the pixels at squared distance below [radius * radius] from
    the centre and leaves all others unchanged. *)
Theorem DrawFilledCircle_disc (ppm : PPM) (center : Point) (r : Z) (color : Pixel) :
  grid_wf (ppm_data ppm) (ppm_width ppm) (ppm_height ppm) = true ->
  0 <= ppm_width ppm -> ppm_width ppm <= 2 ^ 24 -> ppm_height ppm <= 2 ^ 24 ->
  Z.abs (X center) <= 2 ^ 24 -> Z.abs (Y center) <= 2 ^ 24 -> Z.abs r <= 2 ^ 26 ->
  DrawFilledCircle ppm center r color =
    Ok (with_data ppm (tab (Z.to_nat (ppm_height ppm)) (Z.to_nat (ppm_width ppm)) (fun y x =>
      if (Z.of_nat x - X center) * (Z.of_nat x - X center)
         + (Z.of_nat y - Y center) * (Z.of_nat y - Y center) <? r * r
      then color else nth x (nth y (ppm_data ppm) []) black))).
Proof.
  intros Hwf Hw0 _ _ _ _ Hr. unfold DrawFilledCircle.
  rewrite (wrap64_id (r * r))
    by (apply Z.abs_le in Hr; unfold int64_min, int64_max; nia).
  set (NA := iters_excl 0 (ppm_height ppm)).
  set (NB := iters_excl 0 (ppm_width ppm)).
  set (cnd := fun a b => (0 <=? b) && (0 <=? a) && (b <? ppm_width ppm) && (a <? ppm_height ppm)
                         && ((b - X center) * (b - X center) + (a - Y center) * (a - Y center) <? r * r)).
  rewrite (for_range_lift_start ppm _ _ _
             (fun y d => for_range NB 0
                (fun x d => if cnd y x then set2 d x y color else Ok d) d)).
  2: { intros k d. apply for_range_lift. intros k' d'. cbv beta zeta.
       rewrite dist_q, (q_lt_Z _ (r * r)) by reflexivity. fold (q_float64 (r * r)).
       unfold cnd. cbn [ppm_width ppm_height with_data].
       destruct ((k' - X center) * (k' - X center) + (k - Y center) * (k - Y center) <? r * r);
         rewrite ?andb_true_r, ?andb_false_r; [|reflexivity].
       unfold PPM_Set. cbn [ppm_width ppm_height ppm_data with_data].
       replace ((0 <=? k') && (k' <? ppm_width ppm) && (0 <=? k) && (k <? ppm_height ppm))
         with ((0 <=? k') && (0 <=? k) && (k' <? ppm_width ppm) && (k <? ppm_height ppm))
         by (destruct (0 <=? k'), (0 <=? k), (k' <? ppm_width ppm), (k <? ppm_height ppm); reflexivity).
       destruct ((0 <=? k') && (0 <=? k) && (k' <? ppm_width ppm) && (k <? ppm_height ppm)); [|reflexivity].
       destruct (set2 d' k' k color); cbn [bind]; rewrite ?with_data_twice; reflexivity. }
  pose proof (paint_loop (Z.to_nat (ppm_height ppm)) (Z.to_nat (ppm_width ppm)) color
                (fun y x => nth x (nth y (ppm_data ppm) []) black) 0 0 NA NB
                cnd (fun a b => b) (fun a b => a) (fun x y => y) (fun x y => x)) as P.
  cbv beta iota in P. rewrite <- (grid_tab _ _ _ black Hwf Hw0) in P. rewrite P; clear P.
  - cbn [bind]. do 2 f_equal. apply tab_ext. intros y x Hy Hx.
    unfold painted_before, NA, NB, cnd, iters_excl. case_ifs; try reflexivity; lia.
  - intros a b. split; reflexivity.
  - intros x y. split; reflexivity.
  - intros a b Ha Hb C. unfold cnd in C. bool_facts C. lia.
Qed.

Lemma q_uint8_scale c m (p : positive) :
  q_uint8 (inject_Z c * inject_Z m / inject_Z (Zpos p))%Q = wrap8 (Z.quot (c * m) (Zpos p)).
Proof.
  unfold q_uint8, q_trunc, Qdiv, Qmult, Qinv, inject_Z. cbn [Qnum Qden].
  rewrite !Z.mul_1_r, !Pos.mul_1_l. reflexivity.
Qed.

(** [PGM.SetMaxValue] of [pgm.go] with the current positive max value leaves
    a well-formed graymap of byte values unchanged. *)
Theorem PGM_SetMaxValue_same pgm :
  grid_wf (pgm_data pgm) (pgm_width pgm) (pgm_height pgm) = true ->
  0 < pgm_max pgm -> forallb (forallb is_byte) (pgm_data pgm) = true ->
  PGM_SetMaxValue pgm (pgm_max pgm) = Ok pgm.
Proof.
  intros Hwf Hm Hb. unfold PGM_SetMaxValue.
  replace (pgm_max pgm <=? 0) with false by lia. cbv iota zeta.
  rewrite update_grid_map by exact Hwf. cbn [bind].
  destruct pgm as [d w h mg mx]; cbn [pgm_data pgm_width pgm_height pgm_magicNumber pgm_max] in *.
  f_equal. f_equal. rewrite <- (map_id d) at 2. apply map_ext_in. intros row Hr.
  rewrite <- (map_id row) at 2. apply map_ext_in. intros v Hv.
  rewrite forallb_forall in Hb. specialize (Hb row Hr). rewrite forallb_forall in Hb.
  specialize (Hb v Hv). unfold is_byte in Hb. rewrite andb_true_iff, Z.leb_le, Z.ltb_lt in Hb.
  destruct mx as [|p|p]; try lia.
  unfold q_uint8, q_trunc, Qdiv, Qmult, Qinv, q_float64, inject_Z. cbn [Qnum Qden].
  rewrite !Z.mul_1_r, !Pos.mul_1_l. rewrite Z.quot_mul by lia.
  unfold wrap8. apply Z.mod_small. lia.
Qed.

(** [PPM.SetMaxValue] of [ppm.go] towards a max value [m] no larger than the
    current [max] maps each channel [c] in [[0, max]] to [c * m / max]
    rounded down, and records [m] as the new max value. *)
Theorem PPM_SetMaxValue_scales ppm m :
  grid_wf (ppm_data ppm) (ppm_width ppm) (ppm_height ppm) = true ->
  0 < ppm_max ppm < 256 -> 0 <= m <= ppm_max ppm ->
  forallb (forallb (pixel_le (ppm_max ppm))) (ppm_data ppm) = true ->
  PPM_SetMaxValue ppm m =
    Ok (mkPPM (map (map (fun p => mkPixel (R p * m / ppm_max ppm) (G p * m / ppm_max ppm)
                                          (B p * m / ppm_max ppm))) (ppm_data ppm))
              (ppm_width ppm) (ppm_height ppm) (ppm_magicNumber ppm) m).
Proof.
  intros Hwf Hmx Hm Hb. unfold PPM_SetMaxValue.
  rewrite update_grid_map by exact Hwf. cbn [bind].
  destruct ppm as [d w h mg mx]; cbn [ppm_data ppm_width ppm_height ppm_magicNumber ppm_max] in *.
  f_equal. f_equal. apply map_ext_in. intros row Hr. apply map_ext_in. intros px Hp.
  rewrite forallb_forall in Hb. specialize (Hb row Hr). rewrite forallb_forall in Hb.
  specialize (Hb px Hp). unfold pixel_le in Hb. rewrite !andb_true_iff, !Z.leb_le in Hb.
  destruct mx as [|p|p]; try lia. unfold q_float64. rewrite !q_uint8_scale.
  assert (Hc : forall c, 0 <= c <= Zpos p -> wrap8 (Z.quot (c * m) (Zpos p)) = c * m / Zpos p).
  { intros c Hc. rewrite Z.quot_div_nonneg by lia. unfold wrap8. apply Z.mod_small. split.
    - apply Z.div_pos; lia.
    - apply Z.le_lt_trans with m; [|lia]. apply Z.div_le_upper_bound; [lia|]. nia. }
  rewrite !Hc by lia. reflexivity.
Qed.

Lemma DrawFilledTriangle_collinear_witness :
  DrawFilledTriangle (blank_ppm 3 2) (mkPoint 0 0) (mkPoint 1 1) (mkPoint 2 2) white = Ok (blank_ppm 3 2) /\
  DrawFilledTriangle_p2 (blank_ppm 3 2) (mkPoint 0 0) (mkPoint 1 1) (mkPoint 2 2) white = Ok (blank_ppm 3 2).
Proof.
  exact (DrawFilledTriangle_collinear (blank_ppm 3 2) (mkPoint 0 0) (mkPoint 1 1) (mkPoint 2 2) white
           eq_refl eq_refl).
Defined.

Lemma DrawFilledCircle_disc_witness :
  DrawFilledCircle (blank_ppm 3 2) (mkPoint 0 0) 2 white =
    Ok (mkPPM [[white; white; black]; [white; white; black]] 3 2 P3 255).
Proof.
  exact (DrawFilledCircle_disc (blank_ppm 3 2) (mkPoint 0 0) 2 white eq_refl ltac:(simpl; lia)
           ltac:(simpl; lia) ltac:(simpl; lia) ltac:(simpl; lia) ltac:(simpl; lia) ltac:(simpl; lia)).
Defined.

Lemma PGM_SetMaxValue_same_witness : PGM_SetMaxValue g3x2 255 = Ok g3x2.
Proof.
  exact (PGM_SetMaxValue_same g3x2 eq_refl ltac:(simpl; lia) eq_refl).
Defined.

Lemma PPM_SetMaxValue_scales_witness :
  PPM_SetMaxValue p3x2 100 =
    Ok (mkPPM [[mkPixel 0 0 1; mkPixel 1 1 2; mkPixel 2 3 3];
               [mkPixel 78 39 19; mkPixel 0 0 0; mkPixel 100 100 100]] 3 2 P3 100).
Proof.
  exact (PPM_SetMaxValue_scales p3x2 100 eq_refl ltac:(simpl; lia) ltac:(simpl; lia) eq_refl).
Defined.
